(** * Isolation-forest HIDS: the tree builder, the path-length evaluator and
      the anomaly score, embedded from the two C implementations.

    The repository holds two implementations of the same engine:
    - the documented one (module [Hids]): [harmonic_number], [c_factor],
      [random_int], [build_isolation_tree], [path_length],
      [train_isolation_forest], [anomaly_score];
    - the compact one of [new.c] (module [NewC]): [c_factor], [build_tree],
      [get_path] and the training and scoring loops of [main].
    [new.c] ends with a third, toy program that halves an array instead of
    partitioning the samples (module [Toy]): [build_tree] and
    [get_path_length].
    Module [HidsMem] holds the documented implementation once more, over
    the memory of the program, for the statements about what a function
    writes; its functions are shown to compute what those of [Hids]
    compute.

    Modelling conventions.
    - A C [int] is a [Z]; the development stays in the range where the C
      arithmetic does not overflow (depths are at most the maximum depth,
      sizes at most the subsample size, and the frequencies are small enough
      for [max - min + 1] to fit).  [%] on [int] is [Z.rem].
    - A C [double] is a real number of [R]: [log] is [ln], [pow] is [Rpower].
      A division whose divisor is zero has no real value: [fdiv] returns
      [None] there.  The doubles of the program are roundings of these
      reals: where a computed score is concerned the theorems state
      inequalities with room around them, or monotony, and an exact value
      only where the program returns a constant.
    - A node pointer is [NULL] or points at a node that owns its two
      children: the inductive type [NodePtr].
    - [rand()] reads and advances a hidden generator: the state [rng] is the
      stream of the results still to come, threaded through every function
      that calls [rand()].
    - The recursion of the builder is not structural: the builder takes a
      fuel and answers [None] when it runs out; the termination lemmas give
      the fuel that always suffices. *)

From Stdlib Require Import ZArith List Bool Lia Reals Lra.
Import ListNotations.
Open Scope Z_scope.

(** ** The random generator and the monad of the code that draws from it *)

Definition rng : Type := nat -> N.

Definition M (A : Type) : Type := rng -> option (A * rng).

Definition ret {A : Type} (a : A) : M A := fun s => Some (a, s).

Definition bind {A B : Type} (c : M A) (k : A -> M B) : M B :=
  fun s => match c s with
           | Some (a, s') => k a s'
           | None => None
           end.

Definition out_of_fuel {A : Type} : M A := fun _ => None.

Notation "x <- c ;; k" := (bind c (fun x => k))
  (at level 61, c at next level, right associativity).

(** [rand()]: the next value of the stream, a non-negative [int]. *)
Definition rand : M Z := fun s => Some (Z.of_N (s O), fun i => s (S i)).

(** ** Doubles *)

(** The Euler-Mascheroni constant as both sources write it. *)
Definition euler_gamma : R := 0.5772156649%R.

(** The closed form of the normalization constant for [n >= 2]:
    [2 * (ln (n - 1) + gamma) - 2 * (n - 1) / n]. *)
Definition c_closed_form (n : Z) : R :=
  (2 * (ln (IZR (n - 1)) + euler_gamma) - 2 * (IZR n - 1) / IZR n)%R.

Definition fdiv (x y : R) : option R :=
  if Req_dec_T y 0 then None else Some (x / y)%R.

(** ** Tree nodes *)

(** [struct IsolationNode *] of the documented implementation and
    [struct Node *] of [new.c]: the same six fields. *)
Inductive NodePtr : Type :=
| NULL
| Node (is_leaf : bool) (split_attribute split_value : Z)
       (left right : NodePtr) (size : Z).

Definition is_null (p : NodePtr) : bool :=
  match p with NULL => true | Node _ _ _ _ _ _ => false end.

Definition node_is_leaf (p : NodePtr) : bool :=
  match p with NULL => false | Node l _ _ _ _ _ => l end.

Definition node_size (p : NodePtr) : Z :=
  match p with NULL => 0 | Node _ _ _ _ _ n => n end.

Definition node_left (p : NodePtr) : NodePtr :=
  match p with NULL => NULL | Node _ _ _ l _ _ => l end.

Definition node_right (p : NodePtr) : NodePtr :=
  match p with NULL => NULL | Node _ _ _ _ r _ => r end.

Definition node_split_value (p : NodePtr) : Z :=
  match p with NULL => 0 | Node _ _ v _ _ _ => v end.

Definition node_split_attribute (p : NodePtr) : Z :=
  match p with NULL => 0 | Node _ a _ _ _ _ => a end.

(** Every node of a tree, the root first. *)
Fixpoint nodes (p : NodePtr) : list NodePtr :=
  match p with
  | NULL => []
  | Node _ _ _ l r _ => p :: nodes l ++ nodes r
  end.

Fixpoint height (p : NodePtr) : nat :=
  match p with
  | NULL => O
  | Node _ _ _ l r _ => S (Nat.max (height l) (height r))
  end.

(** The sum of the sizes that the leaves of a tree record. *)
Fixpoint leaf_total (p : NodePtr) : Z :=
  match p with
  | NULL => 0
  | Node lf _ _ l r n => if lf then n else leaf_total l + leaf_total r
  end.

(** ** The two loops of the builder over the index array *)

Section IndexLoops.

(** [val i] is [data[i].freq[attr]] for the attribute drawn. *)
Variable val : Z -> Z.

(** The body of the scanning loop:
    [v = val(idx[i]); if (v < min) min = v; if (v > max) max = v;] *)
Definition scan_step (mm : Z * Z) (i : Z) : Z * Z :=
  let v := val i in
  (if v <? fst mm then v else fst mm,
   if v >? snd mm then v else snd mm).

(** [min = max = val(idx[0]); for (i = 1; i < n; i++) { ... }] *)
Definition scan_min_max (indices : list Z) : Z * Z :=
  let v0 := val (nth 0 indices 0) in
  fold_left scan_step (skipn 1 indices) (v0, v0).

(** [for (i = 0; i < n; i++) if (val(idx[i]) < split) left[lc++] = idx[i];
    else right[rc++] = idx[i];] *)
Definition split_indices (split_value : Z) (indices : list Z)
  : list Z * list Z :=
  partition (fun i => val i <? split_value) indices.

End IndexLoops.

(** All the values of a list are the same. *)
Definition all_equal (vs : list Z) : Prop :=
  forall x y, In x vs -> In y vs -> x = y.

(** The training samples that the splits of a tree send to each of its
    nodes: [reach val p indices] lists every node of [p] with the indices
    that reach it when [indices] enter at [p].  [val a i] is the value of
    attribute [a] of training sample [i]. *)
Fixpoint reach (val : Z -> Z -> Z) (p : NodePtr) (indices : list Z)
  : list (NodePtr * list Z) :=
  match p with
  | NULL => []
  | Node _ a v l r _ =>
      (p, indices)
        :: reach val l (fst (split_indices (val a) v indices))
        ++ reach val r (snd (split_indices (val a) v indices))
  end.

(** ** The documented implementation *)

Module Hids.

Definition MAX_SYSCALLS : Z := 20.
Definition NUM_TREES : Z := 10.
Definition SUBSAMPLE_SIZE : Z := 8.
Definition MAX_TREE_DEPTH : Z := 10.

(** [process_name] only serves the report and is left out; [is_anomaly] is
    an [int]. *)
Record ProcessBehavior : Type := mkProcessBehavior {
  syscall_freq : list Z;
  total_calls : Z;
  is_anomaly : Z
}.

Record IsolationTree : Type := mkIsolationTree {
  root : NodePtr;
  max_depth : Z
}.

Record IsolationForest : Type := mkIsolationForest {
  trees : list IsolationTree;
  num_trees : Z;
  subsample_size : Z
}.

(** [sample->syscall_freq[a]] *)
Definition freq_at (sample : ProcessBehavior) (a : Z) : Z :=
  nth (Z.to_nat a) (syscall_freq sample) 0.

(** [data[i].syscall_freq[a]] *)
Definition data_val (data : list ProcessBehavior) (a i : Z) : Z :=
  freq_at (nth (Z.to_nat i) data (mkProcessBehavior [] 0 0)) a.

Definition harmonic_number (n : Z) : R :=
  if n <=? 1 then 0%R else (ln (IZR n) + euler_gamma)%R.

Definition c_factor (n : Z) : R :=
  if n <=? 1 then 0%R
  else (2 * harmonic_number (n - 1) - (2 * (IZR n - 1) / IZR n))%R.

Definition random_int (min max : Z) : M Z :=
  r <- rand ;; ret (min + Z.rem r (max - min + 1)).

(** [create_node] followed by the assignments of the builder gives the
    fields of each of the three nodes below. *)
Fixpoint build_isolation_tree (fuel : nat) (data : list ProcessBehavior)
    (indices : list Z) (current_depth max_depth : Z) {struct fuel}
  : M NodePtr :=
  match fuel with
  | O => out_of_fuel
  | S fuel' =>
      let n := Z.of_nat (length indices) in
      if (current_depth >=? max_depth) || (n <=? 1) then
        ret (Node true (-1) 0 NULL NULL n)
      else
        a <- random_int 0 (MAX_SYSCALLS - 1) ;;
        let mm := scan_min_max (data_val data a) indices in
        if fst mm =? snd mm then
          ret (Node true a 0 NULL NULL n)
        else
          v <- random_int (fst mm) (snd mm) ;;
          let lr := split_indices (data_val data a) v indices in
          l <- (if Z.of_nat (length (fst lr)) >? 0
                then build_isolation_tree fuel' data (fst lr)
                       (current_depth + 1) max_depth
                else ret NULL) ;;
          r <- (if Z.of_nat (length (snd lr)) >? 0
                then build_isolation_tree fuel' data (snd lr)
                       (current_depth + 1) max_depth
                else ret NULL) ;;
          ret (Node false a v l r n)
  end.

(** The fuel that the recursion on [max_depth - current_depth] needs. *)
Definition build_fuel (current_depth max_depth : Z) : nat :=
  S (Z.to_nat (max_depth - current_depth)).

Fixpoint path_length (node : NodePtr) (sample : ProcessBehavior)
    (current_depth : Z) : R :=
  match node with
  | NULL => IZR current_depth
  | Node lf a v l r n =>
      if lf then (IZR current_depth + c_factor n)%R
      else
        let val := freq_at sample a in
        if (val <? v) && negb (is_null l) then
          path_length l sample (current_depth + 1)
        else if negb (is_null r) then
          path_length r sample (current_depth + 1)
        else IZR current_depth
  end.

(** [for (i = 0; i < subsample_size; i++) idx[i] = random_int(0, n - 1);] *)
Fixpoint draw_indices (k : nat) (n : Z) : M (list Z) :=
  match k with
  | O => ret []
  | S k' =>
      i <- random_int 0 (n - 1) ;;
      rest <- draw_indices k' n ;;
      ret (i :: rest)
  end.

(** The loop over the trees, [t] trees still to build. *)
Fixpoint train_trees (t : nat) (data : list ProcessBehavior) (ss : Z)
  : M (list IsolationTree) :=
  match t with
  | O => ret []
  | S t' =>
      idx <- draw_indices (Z.to_nat ss) (Z.of_nat (length data)) ;;
      rt <- build_isolation_tree (build_fuel 0 MAX_TREE_DEPTH) data idx 0
              MAX_TREE_DEPTH ;;
      rest <- train_trees t' data ss ;;
      ret (mkIsolationTree rt MAX_TREE_DEPTH :: rest)
  end.

Definition train_isolation_forest (training_data : list ProcessBehavior)
  : M IsolationForest :=
  let n := Z.of_nat (length training_data) in
  let ss := if SUBSAMPLE_SIZE <? n then SUBSAMPLE_SIZE else n in
  ts <- train_trees (Z.to_nat NUM_TREES) training_data ss ;;
  ret (mkIsolationForest ts NUM_TREES ss).

(** The sum of the path lengths over the first [num_trees] trees. *)
Definition sum_path_lengths (forest : IsolationForest)
    (sample : ProcessBehavior) : R :=
  fold_left (fun acc t => (acc + path_length (root t) sample 0)%R)
    (firstn (Z.to_nat (num_trees forest)) (trees forest)) 0%R.

Definition anomaly_score (forest : IsolationForest)
    (sample : ProcessBehavior) : option R :=
  match fdiv (sum_path_lengths forest sample) (IZR (num_trees forest)) with
  | None => None
  | Some avg_path_length =>
      let c := c_factor (subsample_size forest) in
      if Req_dec_T c 0 then Some 0.5%R
      else match fdiv (- avg_path_length) c with
           | None => None
           | Some e => Some (Rpower 2 e)
           end
  end.

(** ** Dataset generation, detection and [main] *)

(** The loop of [generate_normal_behavior]: [k] attributes still to fill,
    [i] the next one, [total] the running [total_calls]. *)
Fixpoint normal_freqs (k : nat) (i total : Z) : M (list Z * Z) :=
  match k with
  | O => ret ([], total)
  | S k' =>
      f <- (if i <? 5 then r <- random_int (-10) 10 ;; ret (50 + r)
            else if i <? 10 then r <- random_int (-5) 5 ;; ret (10 + r)
            else random_int 0 3) ;;
      rest <- normal_freqs k' (i + 1) (total + f) ;;
      ret (f :: fst rest, snd rest)
  end.

Definition generate_normal_behavior : M ProcessBehavior :=
  r <- normal_freqs (Z.to_nat MAX_SYSCALLS) 0 0 ;;
  ret (mkProcessBehavior (fst r) (snd r) 0).

(** The loop of [generate_anomalous_behavior]. *)
Fixpoint anomalous_freqs (k : nat) (i total : Z) : M (list Z * Z) :=
  match k with
  | O => ret ([], total)
  | S k' =>
      f <- (if i >=? 10 then r <- random_int (-5) 15 ;; ret (30 + r)
            else if i <? 5 then r <- random_int (-2) 3 ;; ret (5 + r)
            else random_int 0 10) ;;
      rest <- anomalous_freqs k' (i + 1) (total + f) ;;
      ret (f :: fst rest, snd rest)
  end.

Definition generate_anomalous_behavior : M ProcessBehavior :=
  r <- anomalous_freqs (Z.to_nat MAX_SYSCALLS) 0 0 ;;
  ret (mkProcessBehavior (fst r) (snd r) 1).

Definition ANOMALY_THRESHOLD : R := 0.6%R.

(** The four counters of [detect_intrusions]. *)
Record Confusion : Type := mkConfusion {
  true_positive : Z;
  true_negative : Z;
  false_positive : Z;
  false_negative : Z
}.

(** [(score >= ANOMALY_THRESHOLD) ? 1 : 0] *)
Definition predicted_anomaly (score : R) : bool :=
  if Rle_dec ANOMALY_THRESHOLD score then true else false.

(** The chain of [if ... else if ...] that updates the confusion matrix:
    the label is compared with 1 and with 0, and a process with any other
    label falls through the chain. *)
Definition count_outcome (c : Confusion) (predicted : bool) (actual : Z)
  : Confusion :=
  if predicted && (actual =? 1) then
    mkConfusion (true_positive c + 1) (true_negative c) (false_positive c)
      (false_negative c)
  else if negb predicted && (actual =? 0) then
    mkConfusion (true_positive c) (true_negative c + 1) (false_positive c)
      (false_negative c)
  else if predicted && (actual =? 0) then
    mkConfusion (true_positive c) (true_negative c) (false_positive c + 1)
      (false_negative c)
  else if negb predicted && (actual =? 1) then
    mkConfusion (true_positive c) (true_negative c) (false_positive c)
      (false_negative c + 1)
  else c.

(** The loop of [detect_intrusions] over the test data; [None] when a score
    has no value. *)
Fixpoint detect_loop (forest : IsolationForest)
    (test_data : list ProcessBehavior) (c : Confusion) : option Confusion :=
  match test_data with
  | [] => Some c
  | x :: rest =>
      match anomaly_score forest x with
      | None => None
      | Some score =>
          detect_loop forest rest
            (count_outcome c (predicted_anomaly score) (is_anomaly x))
      end
  end.

Definition detect_intrusions (forest : IsolationForest)
    (test_data : list ProcessBehavior) : option Confusion :=
  detect_loop forest test_data (mkConfusion 0 0 0 0).

(** [(double)(true_positive + true_negative) / n] *)
Definition accuracy (c : Confusion) (n : Z) : option R :=
  fdiv (IZR (true_positive c + true_negative c)) (IZR n).

(** [precision] and [recall] are computed and printed only under their
    guards; [None] stands for the line that is not printed. *)
Definition precision (c : Confusion) : option R :=
  if true_positive c + false_positive c >? 0
  then Some (IZR (true_positive c)
             / IZR (true_positive c + false_positive c))%R
  else None.

Definition recall (c : Confusion) : option R :=
  if true_positive c + false_negative c >? 0
  then Some (IZR (true_positive c)
             / IZR (true_positive c + false_negative c))%R
  else None.

(** [for (i = 0; i < train_size; i++) generate_normal_behavior(...)] *)
Fixpoint gen_training (k : nat) : M (list ProcessBehavior) :=
  match k with
  | O => ret []
  | S k' =>
      p <- generate_normal_behavior ;;
      rest <- gen_training k' ;;
      ret (p :: rest)
  end.

(** The test set of [main]: normal below index 6, anomalous from it on. *)
Fixpoint gen_tests (k : nat) (i : Z) : M (list ProcessBehavior) :=
  match k with
  | O => ret []
  | S k' =>
      p <- (if i <? 6 then generate_normal_behavior
            else generate_anomalous_behavior) ;;
      rest <- gen_tests k' (i + 1) ;;
      ret (p :: rest)
  end.

(** [main]: what [detect_intrusions] counts on the ten test processes. *)
Definition main : M (option Confusion) :=
  training_data <- gen_training 20 ;;
  forest <- train_isolation_forest training_data ;;
  test_data <- gen_tests 10 0 ;;
  ret (detect_intrusions forest test_data).

End Hids.

(** ** The compact implementation of [new.c] *)

Module NewC.

Definition MAX_SYSCALLS : Z := 20.
Definition NUM_TREES : Z := 10.
Definition SUBSAMPLE_SIZE : Z := 8.
Definition MAX_DEPTH : Z := 10.

Record Process : Type := mkProcess {
  freq : list Z;
  is_anomaly : bool
}.

(** [p->freq[a]] *)
Definition freq_at (p : Process) (a : Z) : Z :=
  nth (Z.to_nat a) (freq p) 0.

(** [data[i].freq[a]] *)
Definition data_val (data : list Process) (a i : Z) : Z :=
  freq_at (nth (Z.to_nat i) data (mkProcess [] false)) a.

Definition c_factor (n : Z) : R :=
  if n <=? 1 then 0%R
  else (2 * (ln (IZR (n - 1)) + euler_gamma)
        - (2 * (IZR n - 1) / IZR n))%R.

(** The node comes from [calloc]: every field the builder does not assign
    is zero. *)
Fixpoint build_tree (fuel : nat) (data : list Process) (idx : list Z)
    (depth : Z) {struct fuel} : M NodePtr :=
  match fuel with
  | O => out_of_fuel
  | S fuel' =>
      let n := Z.of_nat (length idx) in
      if (depth >=? MAX_DEPTH) || (n <=? 1) then
        ret (Node true 0 0 NULL NULL n)
      else
        r1 <- rand ;;
        let attr := Z.rem r1 MAX_SYSCALLS in
        let mm := scan_min_max (data_val data attr) idx in
        if fst mm =? snd mm then
          ret (Node true 0 0 NULL NULL n)
        else
          r2 <- rand ;;
          let split_val := fst mm + Z.rem r2 (snd mm - fst mm + 1) in
          let lr := split_indices (data_val data attr) split_val idx in
          l <- (if negb (Z.of_nat (length (fst lr)) =? 0)
                then build_tree fuel' data (fst lr) (depth + 1)
                else ret NULL) ;;
          r <- (if negb (Z.of_nat (length (snd lr)) =? 0)
                then build_tree fuel' data (snd lr) (depth + 1)
                else ret NULL) ;;
          ret (Node false attr split_val l r n)
  end.

(** The fuel that the recursion on [MAX_DEPTH - depth] needs. *)
Definition build_fuel (depth : Z) : nat := S (Z.to_nat (MAX_DEPTH - depth)).

Fixpoint get_path (node : NodePtr) (p : Process) (depth : Z) : R :=
  match node with
  | NULL => (IZR depth + c_factor 0)%R
  | Node lf a v l r n =>
      if lf then (IZR depth + c_factor n)%R
      else if freq_at p a <? v then get_path l p (depth + 1)
           else get_path r p (depth + 1)
  end.

(** [gen_data]: the twenty frequencies of a synthetic process, attribute
    [i] first. *)
Fixpoint gen_freqs (k : nat) (i : Z) (anomaly : bool) : M (list Z) :=
  match k with
  | O => ret []
  | S k' =>
      r <- rand ;;
      let f := if anomaly
               then (if i >? 10 then Z.rem r 50 else Z.rem r 5)
               else (if i <? 5 then 40 + Z.rem r 20 else Z.rem r 5) in
      rest <- gen_freqs k' (i + 1) anomaly ;;
      ret (f :: rest)
  end.

Definition gen_data (anomaly : bool) : M Process :=
  fs <- gen_freqs (Z.to_nat MAX_SYSCALLS) 0 anomaly ;;
  ret (mkProcess fs anomaly).

(** [for (i = 0; i < SUBSAMPLE_SIZE; i++) idx[i] = rand() % n_train;] *)
Fixpoint draw_idx (k : nat) (n_train : Z) : M (list Z) :=
  match k with
  | O => ret []
  | S k' =>
      r <- rand ;;
      rest <- draw_idx k' n_train ;;
      ret (Z.rem r n_train :: rest)
  end.

(** The training loop of [main], [t] trees still to build. *)
Fixpoint main_forest (t : nat) (train : list Process) : M (list NodePtr) :=
  match t with
  | O => ret []
  | S t' =>
      idx <- draw_idx (Z.to_nat SUBSAMPLE_SIZE) (Z.of_nat (length train)) ;;
      rt <- build_tree (build_fuel 0) train idx 0 ;;
      rest <- main_forest t' train ;;
      ret (rt :: rest)
  end.

Fixpoint gen_train (k : nat) : M (list Process) :=
  match k with
  | O => ret []
  | S k' => p <- gen_data false ;; rest <- gen_train k' ;; ret (p :: rest)
  end.

(** [main] up to the end of training: twenty normal processes, then the
    forest. *)
Definition main_training : M (list Process * list NodePtr) :=
  train <- gen_train 20 ;;
  forest <- main_forest (Z.to_nat NUM_TREES) train ;;
  ret (train, forest).

(** [avg_p] of [main]: the sum of the path lengths over the forest. *)
Definition sum_paths (forest : list NodePtr) (p : Process) : R :=
  fold_left (fun acc rt => (acc + get_path rt p 0)%R)
    (firstn (Z.to_nat NUM_TREES) forest) 0%R.

(** [pow(2.0, -(avg_p / NUM_TREES) / c_factor(SUBSAMPLE_SIZE))] *)
Definition main_score (forest : list NodePtr) (p : Process) : option R :=
  match fdiv (sum_paths forest p) (IZR NUM_TREES) with
  | None => None
  | Some avg =>
      match fdiv (- avg) (c_factor SUBSAMPLE_SIZE) with
      | None => None
      | Some e => Some (Rpower 2 e)
      end
  end.

Definition THRESHOLD : R := 0.6%R.

(** One line of the table that [main] prints: the score, the prediction
    [score >= THRESHOLD] and the ground truth. *)
Record Row : Type := mkRow {
  row_score : option R;
  row_alert : bool;
  row_attack : bool
}.

Definition alert (score : option R) : bool :=
  match score with
  | Some x => if Rle_dec THRESHOLD x then true else false
  | None => false
  end.

(** The evaluation loop of [main], test process [i] next. *)
Fixpoint main_rows (k : nat) (i : Z) (forest : list NodePtr)
  : M (list Row) :=
  match k with
  | O => ret []
  | S k' =>
      p <- gen_data (i >=? 6) ;;
      let score := main_score forest p in
      rest <- main_rows k' (i + 1) forest ;;
      ret (mkRow score (alert score) (is_anomaly p) :: rest)
  end.

Definition main : M (list Row) :=
  tf <- main_training ;;
  main_rows 10 0 (snd tf).

End NewC.

(** ** The toy program at the end of [new.c] *)

Module Toy.

Definition MAX_SYSCALLS : Z := 5.
Definition MAX_DEPTH : Z := 10.

(** [struct Node *] of the toy program: no size field. *)
Inductive NodePtr : Type :=
| NULL
| Node (split_attr split_val : Z) (is_leaf : bool) (left right : NodePtr).

Record Process : Type := mkProcess { freq : list Z }.

Definition freq_at (p : Process) (a : Z) : Z :=
  nth (Z.to_nat a) (freq p) 0.

(** [node->is_leaf] on a null pointer has no value: [None]. *)
Fixpoint get_path_length (node : NodePtr) (p : Process) (depth : Z)
  : option Z :=
  match node with
  | NULL => None
  | Node a v lf l r =>
      if lf || (depth >=? MAX_DEPTH) then Some depth
      else if freq_at p a <? v then get_path_length l p (depth + 1)
           else get_path_length r p (depth + 1)
  end.

(** The builder never reads [data]: it halves the count [n]. *)
Fixpoint build_tree (fuel : nat) (n depth : Z) {struct fuel} : M NodePtr :=
  match fuel with
  | O => out_of_fuel
  | S fuel' =>
      if (depth >=? MAX_DEPTH) || (n <=? 1) then
        ret (Node 0 0 true NULL NULL)
      else
        r1 <- rand ;;
        r2 <- rand ;;
        l <- build_tree fuel' (Z.quot n 2) (depth + 1) ;;
        r <- build_tree fuel' (n - Z.quot n 2) (depth + 1) ;;
        ret (Node (Z.rem r1 MAX_SYSCALLS) (Z.rem r2 100) false l r)
  end.

Definition build_fuel (depth : Z) : nat := S (Z.to_nat (MAX_DEPTH - depth)).

Fixpoint nodes (p : NodePtr) : list NodePtr :=
  match p with
  | NULL => []
  | Node _ _ _ l r => p :: nodes l ++ nodes r
  end.

Fixpoint leaves (p : NodePtr) : Z :=
  match p with
  | NULL => 0
  | Node _ _ lf l r => if lf then 1 else leaves l + leaves r
  end.

(** A tree without a null child below an internal node, with the splits in
    the ranges of the two draws. *)
Fixpoint full (p : NodePtr) : Prop :=
  match p with
  | NULL => False
  | Node a v lf l r =>
      if lf then l = NULL /\ r = NULL
      else 0 <= a < MAX_SYSCALLS /\ 0 <= v < 100 /\ full l /\ full r
  end.

End Toy.

(** ** The documented implementation over the memory of the program *)

(** The functions of the documented implementation once more, statement by
    statement, with the objects where C has them: nodes, trees, forests and
    process records live in the heap behind pointers, [rand()] draws from
    the generator of the program and [printf] appends to its output.  The
    index arrays, which their function allocates and frees itself, stay
    lists.  [malloc] never fails and returns zeroed memory. *)
Module HidsMem.

(** A pointer is an address: 0 is [NULL], and the [k]-th object allocated of
    a type has address [k]. *)
Definition ptr : Type := nat.

Record IsolationNode : Type := mkIsolationNode {
  is_leaf : Z;
  split_attribute : Z;
  split_value : Z;
  left : ptr;
  right : ptr;
  size : Z
}.

Record IsolationTree : Type := mkIsolationTree {
  root : ptr;
  max_depth : Z
}.

(** [trees] is the array [IsolationTree *trees[NUM_TREES]]. *)
Record IsolationForest : Type := mkIsolationForest {
  trees : list ptr;
  num_trees : Z;
  subsample_size : Z
}.

(** The lines that training prints. *)
Inductive Line : Type :=
| BuildingForest (trees : Z)
| TreeBuilt (t : Z)
| TrainingComplete.

Record Mem : Type := mkMem {
  node_heap : list IsolationNode;
  tree_heap : list IsolationTree;
  forest_heap : list IsolationForest;
  process_heap : list Hids.ProcessBehavior;
  generator : rng;
  printed : list Line
}.

(** The object behind a pointer, if the pointer is valid. *)
Definition deref {A : Type} (heap : list A) (p : ptr) : option A :=
  match p with
  | O => None
  | S i => nth_error heap i
  end.

(** The element [base[i]] of an array, if it lies in the heap. *)
Definition deref_at {A : Type} (heap : list A) (base : ptr) (i : Z)
  : option A :=
  match base with
  | O => None
  | S b => if i <? 0 then None else nth_error heap (b + Z.to_nat i)
  end.

Fixpoint update {A : Type} (i : nat) (x : A) (l : list A) : list A :=
  match l, i with
  | [], _ => []
  | _ :: rest, O => x :: rest
  | y :: rest, S i' => y :: update i' x rest
  end.

(** A statement of the program: it runs on a memory and either faults (a
    wild pointer, an index outside its array, a division by zero, no fuel
    left) or returns a value and the memory it leaves. *)
Definition Prog (A : Type) : Type := Mem -> option (A * Mem).

Definition pret {A : Type} (a : A) : Prog A := fun m => Some (a, m).

Definition pbind {A B : Type} (c : Prog A) (k : A -> Prog B) : Prog B :=
  fun m => match c m with
           | Some (a, m') => k a m'
           | None => None
           end.

Definition fault {A : Type} : Prog A := fun _ => None.

Notation "x <~ c ;; k" := (pbind c (fun x => k))
  (at level 61, c at next level, right associativity).

Notation "c ;;; k" := (pbind c (fun _ => k))
  (at level 61, right associativity).

(** Reading: the memory stays as it is. *)
Definition read {A : Type} (get : Mem -> option A) : Prog A :=
  fun m => match get m with
           | Some a => Some (a, m)
           | None => None
           end.

Definition load_node (p : ptr) : Prog IsolationNode :=
  read (fun m => deref (node_heap m) p).

Definition load_tree (p : ptr) : Prog IsolationTree :=
  read (fun m => deref (tree_heap m) p).

Definition load_forest (p : ptr) : Prog IsolationForest :=
  read (fun m => deref (forest_heap m) p).

(** [forest->trees[t]] *)
Definition load_tree_ptr (forest : ptr) (t : Z) : Prog ptr :=
  read (fun m => match deref (forest_heap m) forest with
                 | Some f => if t <? 0 then None
                             else nth_error (trees f) (Z.to_nat t)
                 | None => None
                 end).

(** [data[i].syscall_freq[a]]; [sample->syscall_freq[a]] is the case
    [i = 0]. *)
Definition load_freq (data : ptr) (i a : Z) : Prog Z :=
  read (fun m => if (0 <=? a) && (a <? Hids.MAX_SYSCALLS) then
                   option_map (fun pb => Hids.freq_at pb a)
                     (deref_at (process_heap m) data i)
                 else None).

(** Writing through a pointer. *)
Definition store_node (p : ptr) (nd : IsolationNode) : Prog unit :=
  fun m => match deref (node_heap m) p with
           | Some _ =>
               Some (tt, mkMem (update (pred p) nd (node_heap m))
                           (tree_heap m) (forest_heap m) (process_heap m)
                           (generator m) (printed m))
           | None => None
           end.

Definition store_tree (p : ptr) (tr : IsolationTree) : Prog unit :=
  fun m => match deref (tree_heap m) p with
           | Some _ =>
               Some (tt, mkMem (node_heap m)
                           (update (pred p) tr (tree_heap m))
                           (forest_heap m) (process_heap m)
                           (generator m) (printed m))
           | None => None
           end.

Definition store_forest (p : ptr) (f : IsolationForest) : Prog unit :=
  fun m => match deref (forest_heap m) p with
           | Some _ =>
               Some (tt, mkMem (node_heap m) (tree_heap m)
                           (update (pred p) f (forest_heap m))
                           (process_heap m) (generator m) (printed m))
           | None => None
           end.

(** [malloc(sizeof(...))] *)
Definition malloc_node : Prog ptr :=
  fun m => Some (S (length (node_heap m)),
                 mkMem (node_heap m ++ [mkIsolationNode 0 0 0 O O 0])
                   (tree_heap m) (forest_heap m) (process_heap m)
                   (generator m) (printed m)).

Definition malloc_tree : Prog ptr :=
  fun m => Some (S (length (tree_heap m)),
                 mkMem (node_heap m) (tree_heap m ++ [mkIsolationTree O 0])
                   (forest_heap m) (process_heap m)
                   (generator m) (printed m)).

Definition malloc_forest : Prog ptr :=
  fun m => Some (S (length (forest_heap m)),
                 mkMem (node_heap m) (tree_heap m)
                   (forest_heap m
                    ++ [mkIsolationForest
                          (repeat O (Z.to_nat Hids.NUM_TREES)) 0 0])
                   (process_heap m) (generator m) (printed m)).

(** A function that calls [rand()] and touches nothing else. *)
Definition draw {A : Type} (c : M A) : Prog A :=
  fun m => match c (generator m) with
           | Some (a, s') =>
               Some (a, mkMem (node_heap m) (tree_heap m) (forest_heap m)
                          (process_heap m) s' (printed m))
           | None => None
           end.

Definition printf (l : Line) : Prog unit :=
  fun m => Some (tt, mkMem (node_heap m) (tree_heap m) (forest_heap m)
                       (process_heap m) (generator m) (printed m ++ [l])).

(** [p->field = v] *)
Definition assign_node (p : ptr) (f : IsolationNode -> IsolationNode)
  : Prog unit :=
  nd <~ load_node p ;; store_node p (f nd).

Definition assign_tree (p : ptr) (f : IsolationTree -> IsolationTree)
  : Prog unit :=
  tr <~ load_tree p ;; store_tree p (f tr).

Definition assign_forest (p : ptr) (f : IsolationForest -> IsolationForest)
  : Prog unit :=
  fr <~ load_forest p ;; store_forest p (f fr).

Definition set_is_leaf (v : Z) (nd : IsolationNode) : IsolationNode :=
  mkIsolationNode v (split_attribute nd) (split_value nd) (left nd)
    (right nd) (size nd).

Definition set_split_attribute (v : Z) (nd : IsolationNode) : IsolationNode :=
  mkIsolationNode (is_leaf nd) v (split_value nd) (left nd) (right nd)
    (size nd).

Definition set_split_value (v : Z) (nd : IsolationNode) : IsolationNode :=
  mkIsolationNode (is_leaf nd) (split_attribute nd) v (left nd) (right nd)
    (size nd).

Definition set_left (v : ptr) (nd : IsolationNode) : IsolationNode :=
  mkIsolationNode (is_leaf nd) (split_attribute nd) (split_value nd) v
    (right nd) (size nd).

Definition set_right (v : ptr) (nd : IsolationNode) : IsolationNode :=
  mkIsolationNode (is_leaf nd) (split_attribute nd) (split_value nd)
    (left nd) v (size nd).

Definition set_size (v : Z) (nd : IsolationNode) : IsolationNode :=
  mkIsolationNode (is_leaf nd) (split_attribute nd) (split_value nd)
    (left nd) (right nd) v.

Definition set_root (v : ptr) (tr : IsolationTree) : IsolationTree :=
  mkIsolationTree v (max_depth tr).

Definition set_max_depth (v : Z) (tr : IsolationTree) : IsolationTree :=
  mkIsolationTree (root tr) v.

Definition set_num_trees (v : Z) (f : IsolationForest) : IsolationForest :=
  mkIsolationForest (trees f) v (subsample_size f).

Definition set_subsample_size (v : Z) (f : IsolationForest)
  : IsolationForest :=
  mkIsolationForest (trees f) (num_trees f) v.

(** [forest->trees[t] = v]; the array has [NUM_TREES] elements. *)
Definition assign_tree_ptr (forest : ptr) (t : Z) (v : ptr) : Prog unit :=
  fr <~ load_forest forest ;;
  if (0 <=? t) && (Z.to_nat t <? length (trees fr))%nat then
    store_forest forest
      (mkIsolationForest (update (Z.to_nat t) v (trees fr)) (num_trees fr)
         (subsample_size fr))
  else fault.

Definition create_node : Prog ptr :=
  node <~ malloc_node ;;
  assign_node node (set_is_leaf 0) ;;;
  assign_node node (set_split_attribute (-1)) ;;;
  assign_node node (set_split_value 0) ;;;
  assign_node node (set_left O) ;;;
  assign_node node (set_right O) ;;;
  assign_node node (set_size 0) ;;;
  pret node.

(** The scanning loop of the builder, from the second index on. *)
Fixpoint scan_loop (data : ptr) (a : Z) (rest : list Z) (mm : Z * Z)
  : Prog (Z * Z) :=
  match rest with
  | [] => pret mm
  | i :: rest' =>
      val <~ load_freq data i a ;;
      scan_loop data a rest'
        (if val <? fst mm then val else fst mm,
         if val >? snd mm then val else snd mm)
  end.

Definition scan_min_max (data : ptr) (a : Z) (indices : list Z)
  : Prog (Z * Z) :=
  min_val <~ load_freq data (nth 0 indices 0) a ;;
  scan_loop data a (skipn 1 indices) (min_val, min_val).

(** The partitioning loop of the builder. *)
Fixpoint split_indices (data : ptr) (a v : Z) (indices : list Z)
  : Prog (list Z * list Z) :=
  match indices with
  | [] => pret ([], [])
  | i :: rest =>
      val <~ load_freq data i a ;;
      lr <~ split_indices data a v rest ;;
      pret (if val <? v then (i :: fst lr, snd lr)
            else (fst lr, i :: snd lr))
  end.

Fixpoint build_isolation_tree (fuel : nat) (data : ptr) (indices : list Z)
    (current_depth max_depth : Z) {struct fuel} : Prog ptr :=
  match fuel with
  | O => fault
  | S fuel' =>
      let n := Z.of_nat (length indices) in
      node <~ create_node ;;
      assign_node node (set_size n) ;;;
      if (current_depth >=? max_depth) || (n <=? 1) then
        assign_node node (set_is_leaf 1) ;;;
        pret node
      else
        a <~ draw (Hids.random_int 0 (Hids.MAX_SYSCALLS - 1)) ;;
        assign_node node (set_split_attribute a) ;;;
        mm <~ scan_min_max data a indices ;;
        if fst mm =? snd mm then
          assign_node node (set_is_leaf 1) ;;;
          pret node
        else
          v <~ draw (Hids.random_int (fst mm) (snd mm)) ;;
          assign_node node (set_split_value v) ;;;
          lr <~ split_indices data a v indices ;;
          (if Z.of_nat (length (fst lr)) >? 0 then
             l <~ build_isolation_tree fuel' data (fst lr)
                    (current_depth + 1) max_depth ;;
             assign_node node (set_left l)
           else pret tt) ;;;
          (if Z.of_nat (length (snd lr)) >? 0 then
             r <~ build_isolation_tree fuel' data (snd lr)
                    (current_depth + 1) max_depth ;;
             assign_node node (set_right r)
           else pret tt) ;;;
          pret node
  end.

Fixpoint path_length (fuel : nat) (node sample : ptr) (current_depth : Z)
    {struct fuel} : Prog R :=
  match fuel with
  | O => fault
  | S fuel' =>
      if (node =? O)%nat then pret (IZR current_depth)
      else
        nd <~ load_node node ;;
        if negb (is_leaf nd =? 0) then
          pret (IZR current_depth + Hids.c_factor (size nd))%R
        else
          val <~ load_freq sample 0 (split_attribute nd) ;;
          if (val <? split_value nd) && negb (left nd =? O)%nat then
            path_length fuel' (left nd) sample (current_depth + 1)
          else if negb (right nd =? O)%nat then
            path_length fuel' (right nd) sample (current_depth + 1)
          else pret (IZR current_depth)
  end.

(** The loop of [train_isolation_forest], [k] trees still to build.  The
    array of indices carries its length, [forest->subsample_size]. *)
Fixpoint train_loop (k : nat) (forest training_data : ptr) (n t : Z)
  : Prog unit :=
  match k with
  | O => pret tt
  | S k' =>
      fr <~ load_forest forest ;;
      subsample_indices
        <~ draw (Hids.draw_indices (Z.to_nat (subsample_size fr)) n) ;;
      tree <~ malloc_tree ;;
      assign_tree_ptr forest t tree ;;;
      tp <~ load_tree_ptr forest t ;;
      assign_tree tp (set_max_depth Hids.MAX_TREE_DEPTH) ;;;
      rt <~ build_isolation_tree
              (Hids.build_fuel 0 Hids.MAX_TREE_DEPTH) training_data
              subsample_indices 0 Hids.MAX_TREE_DEPTH ;;
      tp' <~ load_tree_ptr forest t ;;
      assign_tree tp' (set_root rt) ;;;
      printf (TreeBuilt (t + 1)) ;;;
      train_loop k' forest training_data n (t + 1)
  end.

Definition train_isolation_forest (training_data : ptr) (n : Z) : Prog ptr :=
  forest <~ malloc_forest ;;
  assign_forest forest (set_num_trees Hids.NUM_TREES) ;;;
  assign_forest forest
    (set_subsample_size
       (if Hids.SUBSAMPLE_SIZE <? n then Hids.SUBSAMPLE_SIZE else n)) ;;;
  printf (BuildingForest Hids.NUM_TREES) ;;;
  train_loop (Z.to_nat Hids.NUM_TREES) forest training_data n 0 ;;;
  printf TrainingComplete ;;;
  pret forest.

(** The loop of [anomaly_score]: [forest->num_trees] is read at every
    test.  [fuel] bounds the iterations, [depth] the recursion of
    [path_length]. *)
Fixpoint score_loop (fuel depth : nat) (forest sample : ptr) (t : Z)
    (avg_path_length : R) {struct fuel} : Prog R :=
  match fuel with
  | O => fault
  | S fuel' =>
      fr <~ load_forest forest ;;
      if t <? num_trees fr then
        tp <~ load_tree_ptr forest t ;;
        tr <~ load_tree tp ;;
        len <~ path_length depth (root tr) sample 0 ;;
        score_loop fuel' depth forest sample (t + 1)
          (avg_path_length + len)%R
      else pret avg_path_length
  end.

Definition divide (x y : R) : Prog R :=
  match fdiv x y with
  | Some q => pret q
  | None => fault
  end.

Definition anomaly_score (fuel : nat) (forest sample : ptr) : Prog R :=
  total <~ score_loop fuel fuel forest sample 0 0%R ;;
  fr <~ load_forest forest ;;
  avg_path_length <~ divide total (IZR (num_trees fr)) ;;
  fr' <~ load_forest forest ;;
  let c := Hids.c_factor (subsample_size fr') in
  if Req_dec_T c 0 then pret 0.5%R
  else
    e <~ divide (- avg_path_length) c ;;
    pret (Rpower 2 e).

(** A statement that leaves every memory it runs on as it found it. *)
Definition reads_only {A : Type} (c : Prog A) : Prop :=
  forall (m : Mem) (a : A) (m' : Mem), c m = Some (a, m') -> m' = m.

End HidsMem.

(** A pointer into the heap of nodes stands for a tree: the pointer is null
    for the absent tree, and otherwise points above [lo] at a node that
    holds the fields of the root and pointers standing for the two
    children. *)
Fixpoint repr (h : list HidsMem.IsolationNode) (lo : nat) (p : HidsMem.ptr)
    (t : NodePtr) : Prop :=
  match t with
  | NULL => p = O
  | Node lf a v l r n =>
      (lo < p)%nat /\
      exists nd,
        HidsMem.deref h p = Some nd /\
        HidsMem.is_leaf nd = (if lf then 1 else 0) /\
        HidsMem.split_attribute nd = a /\
        HidsMem.split_value nd = v /\
        HidsMem.size nd = n /\
        repr h lo (HidsMem.left nd) l /\
        repr h lo (HidsMem.right nd) r
  end.

(** A pointer to a tree record stands for a tree of the forest. *)
Definition repr_tree (m : HidsMem.Mem) (tp : HidsMem.ptr)
    (tr : Hids.IsolationTree) : Prop :=
  exists tc,
    HidsMem.deref (HidsMem.tree_heap m) tp = Some tc /\
    HidsMem.max_depth tc = Hids.max_depth tr /\
    repr (HidsMem.node_heap m) 0 (HidsMem.root tc) (Hids.root tr).

Definition repr_forest (m : HidsMem.Mem) (fp : HidsMem.ptr)
    (f : Hids.IsolationForest) : Prop :=
  exists fc,
    HidsMem.deref (HidsMem.forest_heap m) fp = Some fc /\
    HidsMem.num_trees fc = Hids.num_trees f /\
    HidsMem.subsample_size fc = Hids.subsample_size f /\
    Forall2 (repr_tree m) (HidsMem.trees fc) (Hids.trees f).

(** Every internal node of the tree splits on an attribute of the
    vectors. *)
Definition attributes_in_range (t : NodePtr) : Prop :=
  forall nd, In nd (nodes t) -> node_is_leaf nd = false ->
             0 <= node_split_attribute nd < Hids.MAX_SYSCALLS.

(** ** What a tree of the builder looks like *)

(** [built val maxd d idx p]: [p] is a node that the builder can return for
    the index array [idx] at depth [d] under the maximum depth [maxd],
    whatever the generator draws.  Both builders produce such trees. *)
Fixpoint built (val : Z -> Z -> Z) (maxd d : Z) (idx : list Z) (p : NodePtr)
    {struct p} : Prop :=
  match p with
  | NULL => False
  | Node lf a v l r n =>
      n = Z.of_nat (length idx) /\
      if lf then l = NULL /\ r = NULL
      else
        d < maxd /\ 1 < n /\
        fst (scan_min_max (val a) idx) <= v <= snd (scan_min_max (val a) idx) /\
        match l with
        | NULL => fst (split_indices (val a) v idx) = []
        | Node _ _ _ _ _ _ =>
            fst (split_indices (val a) v idx) <> [] /\
            built val maxd (d + 1) (fst (split_indices (val a) v idx)) l
        end /\
        match r with
        | NULL => snd (split_indices (val a) v idx) = []
        | Node _ _ _ _ _ _ =>
            snd (split_indices (val a) v idx) <> [] /\
            built val maxd (d + 1) (snd (split_indices (val a) v idx)) r
        end
  end.

(** What a trained tree is: the root that the builder returns at depth 0 for
    some array of [ss] indices, under [MAX_TREE_DEPTH]. *)
Definition hids_trained_tree (data : list Hids.ProcessBehavior) (ss : Z)
    (tr : Hids.IsolationTree) : Prop :=
  Hids.max_depth tr = Hids.MAX_TREE_DEPTH /\
  exists idx, Z.of_nat (length idx) = ss /\
              built (Hids.data_val data) Hids.MAX_TREE_DEPTH 0 idx (Hids.root tr).

(** A tree of the forest of [main] in [new.c]: the root that the builder
    returns at depth 0 for some array of [SUBSAMPLE_SIZE] indices. *)
Definition newc_trained_tree (train : list NewC.Process) (rt : NodePtr)
  : Prop :=
  exists idx, Z.of_nat (length idx) = NewC.SUBSAMPLE_SIZE /\
              built (NewC.data_val train) NewC.MAX_DEPTH 0 idx rt.

(** The attribute that each builder draws first from generator [s]. *)
Definition hids_first_attribute (s : rng) : Z :=
  match Hids.random_int 0 (Hids.MAX_SYSCALLS - 1) s with
  | Some (a, _) => a
  | None => 0
  end.

Definition newc_first_attribute (s : rng) : Z :=
  match rand s with
  | Some (r, _) => Z.rem r NewC.MAX_SYSCALLS
  | None => 0
  end.

(** The same process for the builder of [new.c]. *)
Definition to_process (pb : Hids.ProcessBehavior) : NewC.Process :=
  NewC.mkProcess (Hids.syscall_freq pb) (negb (Hids.is_anomaly pb =? 0)).

(** A tree of the documented builder as [new.c] stores it: the leaves of
    [new.c] keep the attribute field that [calloc] zeroed. *)
Fixpoint zero_leaf_attribute (p : NodePtr) : NodePtr :=
  match p with
  | NULL => NULL
  | Node lf a v l r n =>
      Node lf (if lf then 0 else a) v (zero_leaf_attribute l)
        (zero_leaf_attribute r) n
  end.

(** The number of internal nodes of a tree. *)
Fixpoint internal_count (p : NodePtr) : nat :=
  match p with
  | NULL => O
  | Node lf _ _ l r _ =>
      if lf then O else S (internal_count l + internal_count r)
  end.

(** The sum of a list of frequencies. *)
Definition sum_freqs (fs : list Z) : Z := fold_right Z.add 0 fs.

(** The number of test processes labelled anomalous (1), and labelled
    normal (0). *)
Definition anomalous_count (ps : list Hids.ProcessBehavior) : Z :=
  Z.of_nat (length (filter (fun p => Hids.is_anomaly p =? 1) ps)).

Definition normal_count (ps : list Hids.ProcessBehavior) : Z :=
  Z.of_nat (length (filter (fun p => Hids.is_anomaly p =? 0) ps)).

(** Unfolds the fields of a memory given by its six components. *)
Ltac mem_simpl :=
  cbv beta iota delta
    [HidsMem.node_heap HidsMem.tree_heap HidsMem.forest_heap
     HidsMem.process_heap HidsMem.generator HidsMem.printed
     HidsMem.deref Nat.pred].

(** ** The walk of the evaluator *)

(** Where a walk of [path_length] ends, one case for each of the three
    [return] statements of the function, with the depth reached: at an
    absent node, at a Leaf, or at an internal node without the child to go
    to. *)
Inductive WalkEnd : Type :=
| AtNull (depth : Z)
| AtLeaf (leaf : NodePtr) (depth : Z)
| AtFallback (node : NodePtr) (depth : Z).

(** The walk of [Hids.path_length], test for test. *)
Fixpoint hids_walk (node : NodePtr) (sample : Hids.ProcessBehavior)
    (current_depth : Z) : WalkEnd :=
  match node with
  | NULL => AtNull current_depth
  | Node lf a v l r n =>
      if lf then AtLeaf node current_depth
      else
        let val := Hids.freq_at sample a in
        if (val <? v) && negb (is_null l) then
          hids_walk l sample (current_depth + 1)
        else if negb (is_null r) then
          hids_walk r sample (current_depth + 1)
        else AtFallback node current_depth
  end.

(** What [path_length] returns at the end of a walk. *)
Definition walk_value (w : WalkEnd) : R :=
  match w with
  | AtNull d => IZR d
  | AtLeaf leaf d => (IZR d + Hids.c_factor (node_size leaf))%R
  | AtFallback _ d => IZR d
  end.

(** [at_depth t k p]: the node [p] lies [k] levels below the root of
    [t]. *)
Fixpoint at_depth (t : NodePtr) (k : nat) (p : NodePtr) : Prop :=
  match k with
  | O => t = p /\ p <> NULL
  | S k' =>
      match t with
      | NULL => False
      | Node _ _ _ l r _ => at_depth l k' p \/ at_depth r k' p
      end
  end.

(** ** Inputs of the examples *)

(** Three generators: one that always draws 0, one that draws 0, 1, 0, 1, ...
    and one that draws 1 at its fourth call only. *)
Definition zero_rng : rng := fun _ => 0%N.

Definition alternating_rng : rng := fun i => if Nat.odd i then 1%N else 0%N.

Definition fourth_rng : rng := fun i => if Nat.eqb i 3 then 1%N else 0%N.

(** A process whose twenty frequencies are all [k]. *)
Definition hids_flat (k : Z) : Hids.ProcessBehavior :=
  Hids.mkProcessBehavior (repeat k 20) (20 * k) 0.

Definition newc_flat (k : Z) : NewC.Process :=
  NewC.mkProcess (repeat k 20) false.

(** A training set of two processes. *)
Definition hids_two_samples : list Hids.ProcessBehavior :=
  [hids_flat 1; hids_flat 2].

Definition newc_two_samples : list NewC.Process :=
  [newc_flat 1; newc_flat 2].

(** The root splits the two samples apart. *)
Definition hids_split_tree : NodePtr :=
  Node false 0 2 (Node true (-1) 0 NULL NULL 1) (Node true (-1) 0 NULL NULL 1) 2.

(** The root draws the minimum as threshold: its left side is empty. *)
Definition hids_lopsided_tree : NodePtr :=
  Node false 0 1 NULL hids_split_tree 2.

Definition newc_lopsided_tree : NodePtr :=
  Node false 0 1 NULL
    (Node false 0 2 (Node true 0 0 NULL NULL 1) (Node true 0 0 NULL NULL 1) 2) 2.

(** The forest trained on the two samples under [alternating_rng]. *)
Definition hids_two_forest : Hids.IsolationForest :=
  Hids.mkIsolationForest
    (repeat (Hids.mkIsolationTree hids_split_tree Hids.MAX_TREE_DEPTH) 10)
    Hids.NUM_TREES 2.

(** The forest trained on no sample at all. *)
Definition hids_empty_forest : Hids.IsolationForest :=
  Hids.mkIsolationForest
    (repeat (Hids.mkIsolationTree (Node true (-1) 0 NULL NULL 0)
               Hids.MAX_TREE_DEPTH) 10)
    Hids.NUM_TREES 0.

(** Three training vectors with the same frequencies, and the forest that
    training returns for them under [zero_rng]. *)
Definition hids_three_samples : list Hids.ProcessBehavior :=
  [hids_flat 1; hids_flat 1; hids_flat 1].

Definition hids_leaf_forest : Hids.IsolationForest :=
  Hids.mkIsolationForest
    (repeat (Hids.mkIsolationTree (Node true 0 0 NULL NULL 3)
               Hids.MAX_TREE_DEPTH) 10)
    Hids.NUM_TREES 3.

(** The number of test processes labelled 0 or 1 that a forest scores at
    or above the threshold. *)
Definition alert_count (f : Hids.IsolationForest)
    (ps : list Hids.ProcessBehavior) : Z :=
  Z.of_nat (length (filter
    (fun x => match Hids.anomaly_score f x with
              | Some score =>
                  Hids.predicted_anomaly score
                  && ((Hids.is_anomaly x =? 0) || (Hids.is_anomaly x =? 1))
              | None => false
              end) ps)).

(** ** The monad *)

Lemma bind_Some {A B : Type} (c : M A) (k : A -> M B) (s : rng) (x : B * rng) :
  bind c k s = Some x <->
  exists a s1, c s = Some (a, s1) /\ k a s1 = Some x.
Proof.
  unfold bind. split.
  - destruct (c s) as [[a s1]|] eqn:E; [|discriminate].
    intros H. now exists a, s1.
  - intros (a & s1 & -> & H). exact H.
Qed.

Lemma ret_Some {A : Type} (a : A) (s : rng) (x : A * rng) :
  ret a s = Some x <-> x = (a, s).
Proof. unfold ret. split; intros H; [now inversion H | now subst]. Qed.

(** ** The loops over the index array *)

Section IndexLoopFacts.

Variable val : Z -> Z.

Lemma scan_fold_bounds (l : list Z) (a b : Z) :
  let mm := fold_left (scan_step val) l (a, b) in
  fst mm <= a /\ b <= snd mm /\
  (forall i, In i l -> fst mm <= val i <= snd mm) /\
  (fst mm = a \/ exists i, In i l /\ val i = fst mm) /\
  (snd mm = b \/ exists i, In i l /\ val i = snd mm).
Proof.
  revert a b. induction l as [|j l IH]; intros a b; cbn [fold_left].
  - cbn. repeat split; try lia; auto; intros i [].
  - unfold scan_step at 2. cbv zeta. cbn [fst snd].
    specialize (IH (if val j <? a then val j else a)
                   (if val j >? b then val j else b)).
    cbv zeta in IH.
    set (mm := fold_left (scan_step val) l _) in *.
    destruct IH as (Ha & Hb & Hin & Hmn & Hmx).
    destruct (Z.ltb_spec (val j) a), (Z.gtb_spec (val j) b).
    all: split; [lia | split; [lia | split; [ | split ] ] ].
    all: try (intros i [<-|Hi]; [lia | apply Hin, Hi]).
    all: try (destruct Hmn as [Hmn|(i & Hi & E)];
              [ first [ left; lia | right; exists j; split; [now left | lia] ]
              | right; exists i; split; [now right | exact E] ]).
    all: try (destruct Hmx as [Hmx|(i & Hi & E)];
              [ first [ left; lia | right; exists j; split; [now left | lia] ]
              | right; exists i; split; [now right | exact E] ]).
Qed.

Lemma scan_min_max_cons (i0 : Z) (rest : list Z) :
  scan_min_max val (i0 :: rest) =
  fold_left (scan_step val) rest (val i0, val i0).
Proof. reflexivity. Qed.

(** Every value lies between the minimum and the maximum found. *)
Lemma scan_min_max_bounds (indices : list Z) (i : Z) :
  In i indices ->
  fst (scan_min_max val indices) <= val i <= snd (scan_min_max val indices).
Proof.
  destruct indices as [|i0 rest]; [intros []|].
  rewrite scan_min_max_cons.
  destruct (scan_fold_bounds rest (val i0) (val i0)) as (Ha & Hb & Hin & _).
  intros [<-|Hi]; [lia | apply Hin, Hi].
Qed.

(** The minimum and the maximum are values of the array. *)
Lemma scan_min_max_attained (indices : list Z) :
  indices <> [] ->
  (exists i, In i indices /\ val i = fst (scan_min_max val indices)) /\
  (exists i, In i indices /\ val i = snd (scan_min_max val indices)).
Proof.
  destruct indices as [|i0 rest]; [congruence|]. intros _.
  rewrite scan_min_max_cons.
  destruct (scan_fold_bounds rest (val i0) (val i0))
    as (Ha & Hb & Hin & Hmn & Hmx).
  split.
  - destruct Hmn as [E|(i & Hi & E)].
    + exists i0. split; [now left | now rewrite E].
    + exists i. split; [now right | exact E].
  - destruct Hmx as [E|(i & Hi & E)].
    + exists i0. split; [now left | now rewrite E].
    + exists i. split; [now right | exact E].
Qed.

Lemma scan_min_max_le (indices : list Z) :
  fst (scan_min_max val indices) <= snd (scan_min_max val indices).
Proof.
  destruct indices as [|i0 rest]; [cbn; lia|].
  rewrite scan_min_max_cons.
  destruct (scan_fold_bounds rest (val i0) (val i0)) as (Ha & Hb & _).
  lia.
Qed.

(** The test [min == max] of the builder: all the values are equal. *)
Lemma scan_min_max_equal (indices : list Z) :
  fst (scan_min_max val indices) = snd (scan_min_max val indices) <->
  all_equal (map val indices).
Proof.
  split.
  - intros E x y Hx Hy.
    apply in_map_iff in Hx as (i & <- & Hi).
    apply in_map_iff in Hy as (j & <- & Hj).
    pose proof (scan_min_max_bounds indices i Hi).
    pose proof (scan_min_max_bounds indices j Hj). lia.
  - intros H. destruct indices as [|i0 rest]; [reflexivity|].
    destruct (scan_min_max_attained (i0 :: rest)) as ((i & Hi & Ei) & (j & Hj & Ej));
      [discriminate|].
    rewrite <- Ei, <- Ej. apply H; apply in_map; assumption.
Qed.

Lemma split_indices_filter (v : Z) (indices : list Z) :
  split_indices val v indices =
  (filter (fun i => val i <? v) indices,
   filter (fun i => negb (val i <? v)) indices).
Proof.
  unfold split_indices. induction indices as [|i l IH]; [reflexivity|].
  cbn. rewrite IH. destruct (val i <? v); reflexivity.
Qed.

Lemma split_indices_length (v : Z) (indices : list Z) :
  (length (fst (split_indices val v indices))
   + length (snd (split_indices val v indices)) = length indices)%nat.
Proof.
  rewrite split_indices_filter. cbn [fst snd].
  induction indices as [|i l IH]; [reflexivity|].
  cbn. destruct (val i <? v); cbn; lia.
Qed.

(** A threshold that is at most the maximum leaves the sample of maximal
    value on the right. *)
Lemma split_indices_right_max (v : Z) (indices : list Z) :
  indices <> [] ->
  v <= snd (scan_min_max val indices) ->
  exists j, In j (snd (split_indices val v indices)) /\
            val j = snd (scan_min_max val indices).
Proof.
  intros Hne Hv.
  destruct (scan_min_max_attained indices Hne) as (_ & (j & Hj & Ej)).
  exists j. split; [|exact Ej].
  rewrite split_indices_filter. cbn [snd].
  apply filter_In. split; [exact Hj|].
  destruct (Z.ltb_spec (val j) v); [lia | reflexivity].
Qed.

Lemma split_indices_right_nonempty (v : Z) (indices : list Z) :
  indices <> [] ->
  v <= snd (scan_min_max val indices) ->
  snd (split_indices val v indices) <> [].
Proof.
  intros Hne Hv E.
  destruct (split_indices_right_max v indices Hne Hv) as (j & Hj & _).
  rewrite E in Hj. exact Hj.
Qed.

(** The left side is empty exactly when no value is below the threshold;
    a threshold equal to the minimum is such a one. *)
Lemma split_indices_left_empty (v : Z) (indices : list Z) :
  fst (split_indices val v indices) = [] <->
  forall i, In i indices -> v <= val i.
Proof.
  rewrite split_indices_filter. cbn [fst]. split.
  - intros E i Hi. destruct (Z.ltb_spec (val i) v) as [Hlt|]; [|lia].
    assert (Hin : In i (filter (fun i => val i <? v) indices)).
    { apply filter_In. split; [exact Hi|]. now apply Z.ltb_lt. }
    rewrite E in Hin. destruct Hin.
  - intros H. induction indices as [|i l IH]; [reflexivity|].
    cbn. destruct (Z.ltb_spec (val i) v) as [Hlt|].
    + specialize (H i (or_introl eq_refl)). lia.
    + apply IH. intros k Hk. apply H. now right.
Qed.

End IndexLoopFacts.

(** How the builder fills a child pointer: absent for an empty side, built
    one level down otherwise. *)
Lemma built_child (val : Z -> Z -> Z) (maxd d : Z) (side : list Z)
    (c : NodePtr) :
  (side = [] /\ c = NULL) \/ (side <> [] /\ built val maxd d side c) ->
  match c with
  | NULL => side = []
  | Node _ _ _ _ _ _ => side <> [] /\ built val maxd d side c
  end.
Proof.
  intros [[-> ->]|[Hne Hb]]; [reflexivity|].
  destruct c; [destruct Hb | now split].
Qed.

Lemma length_pos_nonempty {A : Type} (l : list A) :
  (Z.of_nat (length l) >? 0) = true <-> l <> [].
Proof.
  destruct l; cbn [length]; split; intros H; try congruence; try discriminate.
  apply Z.gtb_lt. lia.
Qed.

Lemma length_not_pos_empty {A : Type} (l : list A) :
  (Z.of_nat (length l) >? 0) = false -> l = [].
Proof.
  destruct l; [reflexivity|]. cbn [length]. intros H.
  assert (E : (Z.of_nat (S (length l)) >? 0) = true) by (apply Z.gtb_lt; lia).
  congruence.
Qed.

(** ** The documented builder *)

Lemma hids_random_int_total (lo hi : Z) (s : rng) :
  Hids.random_int lo hi s =
  Some (lo + Z.rem (Z.of_N (s O)) (hi - lo + 1), fun i => s (S i)).
Proof. reflexivity. Qed.

(** [random_int(min, max)] stays in [[min, max]]. *)
Lemma hids_random_int_range (lo hi : Z) (s : rng) (v : Z) (s' : rng) :
  lo <= hi ->
  Hids.random_int lo hi s = Some (v, s') ->
  lo <= v <= hi.
Proof.
  intros Hle. rewrite hids_random_int_total. intros H. inversion H; subst.
  pose proof (Z.rem_bound_pos (Z.of_N (s O)) (hi - lo + 1)
                (N2Z.is_nonneg _) ltac:(lia)). lia.
Qed.

Lemma hids_build_step (fuel : nat) (data : list Hids.ProcessBehavior)
    (indices : list Z) (current_depth max_depth : Z) :
  Hids.build_isolation_tree (S fuel) data indices current_depth max_depth =
  let n := Z.of_nat (length indices) in
  if (current_depth >=? max_depth) || (n <=? 1) then
    ret (Node true (-1) 0 NULL NULL n)
  else
    a <- Hids.random_int 0 (Hids.MAX_SYSCALLS - 1) ;;
    let mm := scan_min_max (Hids.data_val data a) indices in
    if fst mm =? snd mm then ret (Node true a 0 NULL NULL n)
    else
      v <- Hids.random_int (fst mm) (snd mm) ;;
      let lr := split_indices (Hids.data_val data a) v indices in
      l <- (if Z.of_nat (length (fst lr)) >? 0
            then Hids.build_isolation_tree fuel data (fst lr)
                   (current_depth + 1) max_depth
            else ret NULL) ;;
      r <- (if Z.of_nat (length (snd lr)) >? 0
            then Hids.build_isolation_tree fuel data (snd lr)
                   (current_depth + 1) max_depth
            else ret NULL) ;;
      ret (Node false a v l r n).
Proof. reflexivity. Qed.

(** The stopping test of both builders. *)
Lemma stop_test (d maxd n : Z) :
  (d >=? maxd) || (n <=? 1) = true <-> maxd <= d \/ n <= 1.
Proof.
  rewrite orb_true_iff, Z.geb_le, Z.leb_le. reflexivity.
Qed.

Lemma stop_test_false (d maxd n : Z) :
  (d >=? maxd) || (n <=? 1) = false <-> d < maxd /\ 1 < n.
Proof.
  rewrite orb_false_iff, Z.geb_leb, !Z.leb_gt. reflexivity.
Qed.

(** Whatever the generator draws, the documented builder returns a tree of
    the shape [built]. *)
Lemma hids_build_built (fuel : nat) :
  forall (data : list Hids.ProcessBehavior) (idx : list Z) (d maxd : Z)
         (s : rng) (t : NodePtr) (s' : rng),
    Hids.build_isolation_tree fuel data idx d maxd s = Some (t, s') ->
    built (Hids.data_val data) maxd d idx t.
Proof.
  induction fuel as [|fuel IH]; intros data idx d maxd s t s' H;
    [discriminate|].
  rewrite hids_build_step in H. cbv zeta in H.
  destruct ((d >=? maxd) || (Z.of_nat (length idx) <=? 1)) eqn:Estop.
  - apply ret_Some in H. inversion H; subst. cbn. auto.
  - apply stop_test_false in Estop as [Hd Hn].
    apply bind_Some in H as (a & s1 & Ha & H).
    destruct (fst (scan_min_max (Hids.data_val data a) idx)
              =? snd (scan_min_max (Hids.data_val data a) idx)) eqn:Emm.
    + apply ret_Some in H. inversion H; subst. cbn. auto.
    + apply Z.eqb_neq in Emm.
      apply bind_Some in H as (v & s2 & Hv & H).
      apply bind_Some in H as (l & s3 & Hl & H).
      apply bind_Some in H as (r & s4 & Hr & H).
      apply ret_Some in H. inversion H; subst. clear H.
      apply hids_random_int_range in Hv; [|apply scan_min_max_le].
      cbn [built]. split; [reflexivity|].
      split; [exact Hd|]. split; [exact Hn|]. split; [exact Hv|].
      split; apply built_child.
      * destruct (Z.of_nat (length (fst (split_indices _ v idx))) >? 0) eqn:E.
        -- right. split; [now apply length_pos_nonempty | eapply IH, Hl].
        -- left. apply ret_Some in Hl. inversion Hl; subst. split; [|reflexivity].
           now apply length_not_pos_empty.
      * destruct (Z.of_nat (length (snd (split_indices _ v idx))) >? 0) eqn:E.
        -- right. split; [now apply length_pos_nonempty | eapply IH, Hr].
        -- left. apply ret_Some in Hr. inversion Hr; subst. split; [|reflexivity].
           now apply length_not_pos_empty.
Qed.

(** Fuel above [max_depth - current_depth] is enough. *)
Lemma hids_build_total (fuel : nat) :
  forall (data : list Hids.ProcessBehavior) (idx : list Z) (d maxd : Z)
         (s : rng),
    (Z.to_nat (maxd - d) < fuel)%nat ->
    exists t s', Hids.build_isolation_tree fuel data idx d maxd s = Some (t, s').
Proof.
  induction fuel as [|fuel IH]; intros data idx d maxd s Hf; [lia|].
  rewrite hids_build_step. cbv zeta.
  destruct ((d >=? maxd) || (Z.of_nat (length idx) <=? 1)) eqn:Estop.
  - eexists _, _. reflexivity.
  - apply stop_test_false in Estop as [Hd Hn].
    assert (Hf' : (Z.to_nat (maxd - (d + 1)) < fuel)%nat) by lia.
    unfold bind at 1. rewrite hids_random_int_total.
    set (a := 0 + Z.rem _ _). set (s1 := fun i => s (S i)).
    destruct (_ =? _); [eexists _, _; reflexivity|].
    unfold bind at 1. rewrite hids_random_int_total.
    set (v := _ + Z.rem _ _). set (s2 := fun i => s1 (S i)).
    assert (Hchild : forall side s0, exists c s0',
      (if Z.of_nat (length side) >? 0
       then Hids.build_isolation_tree fuel data side (d + 1) maxd
       else ret NULL) s0 = Some (c, s0')).
    { intros side s0. destruct (_ >? 0); [apply IH, Hf'|].
      eexists _, _. reflexivity. }
    destruct (Hchild (fst (split_indices (Hids.data_val data a) v idx)) s2)
      as (l & s3 & El).
    destruct (Hchild (snd (split_indices (Hids.data_val data a) v idx)) s3)
      as (r & s4 & Er).
    unfold bind at 1. rewrite El. unfold bind at 1. rewrite Er.
    eexists _, _. reflexivity.
Qed.

(** More fuel does not change the result. *)
Lemma hids_build_fuel_mono (fuel : nat) :
  forall (fuel' : nat) (data : list Hids.ProcessBehavior) (idx : list Z)
         (d maxd : Z) (s : rng) (x : NodePtr * rng),
    (fuel <= fuel')%nat ->
    Hids.build_isolation_tree fuel data idx d maxd s = Some x ->
    Hids.build_isolation_tree fuel' data idx d maxd s = Some x.
Proof.
  induction fuel as [|fuel IH]; intros fuel' data idx d maxd s x Hle H;
    [discriminate|].
  destruct fuel' as [|fuel']; [lia|].
  rewrite hids_build_step in *. cbv zeta in *.
  destruct ((d >=? maxd) || (Z.of_nat (length idx) <=? 1)); [exact H|].
  apply bind_Some in H as (a & s1 & Ha & H).
  apply bind_Some. exists a, s1. split; [exact Ha|].
  destruct (_ =? _); [exact H|].
  apply bind_Some in H as (v & s2 & Hv & H).
  apply bind_Some. exists v, s2. split; [exact Hv|].
  apply bind_Some in H as (l & s3 & Hl & H).
  apply bind_Some. exists l, s3. split.
  { revert Hl. destruct (Z.of_nat (length (fst _)) >? 0); intros Hl;
      [apply IH; [lia | exact Hl] | exact Hl]. }
  apply bind_Some in H as (r & s4 & Hr & H).
  apply bind_Some. exists r, s4. split; [|exact H].
  revert Hr. destruct (Z.of_nat (length (snd _)) >? 0); intros Hr;
    [apply IH; [lia | exact Hr] | exact Hr].
Qed.

(** The attributes that the documented builder stores at internal nodes
    are attributes of the vectors. *)
Lemma hids_build_attributes (fuel : nat) :
  forall (data : list Hids.ProcessBehavior) (idx : list Z) (d maxd : Z)
         (s : rng) (t : NodePtr) (s' : rng),
    Hids.build_isolation_tree fuel data idx d maxd s = Some (t, s') ->
    forall nd, In nd (nodes t) -> node_is_leaf nd = false ->
               0 <= node_split_attribute nd < Hids.MAX_SYSCALLS.
Proof.
  induction fuel as [|fuel IH]; intros data idx d maxd s t s' H;
    [discriminate|].
  rewrite hids_build_step in H. cbv zeta in H.
  destruct ((d >=? maxd) || (Z.of_nat (length idx) <=? 1)).
  { apply ret_Some in H. inversion H; subst.
    intros nd [<-|[]]. discriminate. }
  apply bind_Some in H as (a & s1 & Ha & H).
  apply hids_random_int_range in Ha; [|unfold Hids.MAX_SYSCALLS; lia].
  destruct (_ =? _).
  { apply ret_Some in H. inversion H; subst.
    intros nd [<-|[]]. discriminate. }
  apply bind_Some in H as (v & s2 & _ & H).
  apply bind_Some in H as (l & s3 & Hl & H).
  apply bind_Some in H as (r & s4 & Hr & H).
  apply ret_Some in H. inversion H; subst t s'. clear H.
  assert (Hchild : forall side s0 c s0',
    (if Z.of_nat (length side) >? 0
     then Hids.build_isolation_tree fuel data side (d + 1) maxd
     else ret NULL) s0 = Some (c, s0') ->
    forall nd, In nd (nodes c) -> node_is_leaf nd = false ->
               0 <= node_split_attribute nd < Hids.MAX_SYSCALLS).
  { intros side s0 c s0'. destruct (Z.of_nat (length side) >? 0);
      [apply IH|].
    intros E. apply ret_Some in E. inversion E; subst. intros nd []. }
  intros nd Hin Hleaf. cbn [nodes] in Hin. destruct Hin as [<-|Hin].
  - cbn. unfold Hids.MAX_SYSCALLS in *. lia.
  - apply in_app_or in Hin as [Hin|Hin].
    + eapply Hchild; [exact Hl | exact Hin | exact Hleaf].
    + eapply Hchild; [exact Hr | exact Hin | exact Hleaf].
Qed.

(** ** The builder of [new.c] *)

Lemma length_nonzero_nonempty {A : Type} (l : list A) :
  negb (Z.of_nat (length l) =? 0) = true <-> l <> [].
Proof.
  destruct l; cbn [length]; split; intros H; try congruence; try discriminate.
  apply negb_true_iff, Z.eqb_neq. lia.
Qed.

Lemma length_zero_empty {A : Type} (l : list A) :
  negb (Z.of_nat (length l) =? 0) = false -> l = [].
Proof.
  destruct l; [reflexivity|]. intros H.
  assert (E : negb (Z.of_nat (length (a :: l)) =? 0) = true)
    by (now apply length_nonzero_nonempty).
  congruence.
Qed.

Lemma newc_build_step (fuel : nat) (data : list NewC.Process) (idx : list Z)
    (depth : Z) :
  NewC.build_tree (S fuel) data idx depth =
  let n := Z.of_nat (length idx) in
  if (depth >=? NewC.MAX_DEPTH) || (n <=? 1) then
    ret (Node true 0 0 NULL NULL n)
  else
    r1 <- rand ;;
    let attr := Z.rem r1 NewC.MAX_SYSCALLS in
    let mm := scan_min_max (NewC.data_val data attr) idx in
    if fst mm =? snd mm then ret (Node true 0 0 NULL NULL n)
    else
      r2 <- rand ;;
      let split_val := fst mm + Z.rem r2 (snd mm - fst mm + 1) in
      let lr := split_indices (NewC.data_val data attr) split_val idx in
      l <- (if negb (Z.of_nat (length (fst lr)) =? 0)
            then NewC.build_tree fuel data (fst lr) (depth + 1)
            else ret NULL) ;;
      r <- (if negb (Z.of_nat (length (snd lr)) =? 0)
            then NewC.build_tree fuel data (snd lr) (depth + 1)
            else ret NULL) ;;
      ret (Node false attr split_val l r n).
Proof. reflexivity. Qed.

(** [min + rand() % (max - min + 1)] stays in [[min, max]]. *)
Lemma newc_split_val_range (lo hi : Z) (s : rng) (r : Z) (s' : rng) :
  lo <= hi ->
  rand s = Some (r, s') ->
  lo <= lo + Z.rem r (hi - lo + 1) <= hi.
Proof.
  intros Hle H. inversion H; subst.
  pose proof (Z.rem_bound_pos (Z.of_N (s O)) (hi - lo + 1)
                (N2Z.is_nonneg _) ltac:(lia)). lia.
Qed.

(** Whatever the generator draws, the builder of [new.c] returns a tree of
    the shape [built]. *)
Lemma newc_build_built (fuel : nat) :
  forall (data : list NewC.Process) (idx : list Z) (d : Z)
         (s : rng) (t : NodePtr) (s' : rng),
    NewC.build_tree fuel data idx d s = Some (t, s') ->
    built (NewC.data_val data) NewC.MAX_DEPTH d idx t.
Proof.
  induction fuel as [|fuel IH]; intros data idx d s t s' H; [discriminate|].
  rewrite newc_build_step in H. cbv zeta in H.
  destruct ((d >=? NewC.MAX_DEPTH) || (Z.of_nat (length idx) <=? 1)) eqn:Estop.
  - apply ret_Some in H. inversion H; subst. cbn. auto.
  - apply stop_test_false in Estop as [Hd Hn].
    apply bind_Some in H as (r1 & s1 & Hr1 & H).
    set (attr := Z.rem r1 NewC.MAX_SYSCALLS) in *.
    destruct (fst (scan_min_max (NewC.data_val data attr) idx)
              =? snd (scan_min_max (NewC.data_val data attr) idx)) eqn:Emm.
    + apply ret_Some in H. inversion H; subst. cbn. auto.
    + apply bind_Some in H as (r2 & s2 & Hr2 & H).
      apply (newc_split_val_range _ _ _ _ _
               (scan_min_max_le (NewC.data_val data attr) idx)) in Hr2.
      set (sv := _ + Z.rem r2 _) in *.
      apply bind_Some in H as (l & s3 & Hl & H).
      apply bind_Some in H as (r & s4 & Hr & H).
      apply ret_Some in H. inversion H; subst t s'. clear H.
      cbn [built]. split; [reflexivity|].
      split; [exact Hd|]. split; [exact Hn|]. split; [exact Hr2|].
      split; apply built_child.
      * revert Hl.
        destruct (negb (Z.of_nat (length (fst (split_indices _ sv idx))) =? 0))
          eqn:E; intros Hl.
        -- right. split; [now apply length_nonzero_nonempty | eapply IH, Hl].
        -- left. apply ret_Some in Hl. inversion Hl; subst.
           split; [now apply length_zero_empty | reflexivity].
      * revert Hr.
        destruct (negb (Z.of_nat (length (snd (split_indices _ sv idx))) =? 0))
          eqn:E; intros Hr.
        -- right. split; [now apply length_nonzero_nonempty | eapply IH, Hr].
        -- left. apply ret_Some in Hr. inversion Hr; subst.
           split; [now apply length_zero_empty | reflexivity].
Qed.

(** Fuel above [MAX_DEPTH - depth] is enough. *)
Lemma newc_build_total (fuel : nat) :
  forall (data : list NewC.Process) (idx : list Z) (d : Z) (s : rng),
    (Z.to_nat (NewC.MAX_DEPTH - d) < fuel)%nat ->
    exists t s', NewC.build_tree fuel data idx d s = Some (t, s').
Proof.
  induction fuel as [|fuel IH]; intros data idx d s Hf; [lia|].
  rewrite newc_build_step. cbv zeta.
  destruct ((d >=? NewC.MAX_DEPTH) || (Z.of_nat (length idx) <=? 1)) eqn:Estop.
  - eexists _, _. reflexivity.
  - apply stop_test_false in Estop as [Hd Hn].
    assert (Hf' : (Z.to_nat (NewC.MAX_DEPTH - (d + 1)) < fuel)%nat) by lia.
    unfold bind at 1. unfold rand at 1.
    set (attr := Z.rem _ NewC.MAX_SYSCALLS). set (s1 := fun i => s (S i)).
    destruct (_ =? _); [eexists _, _; reflexivity|].
    unfold bind at 1. unfold rand at 1.
    set (sv := _ + Z.rem _ _). set (s2 := fun i => s1 (S i)).
    assert (Hchild : forall side s0, exists c s0',
      (if negb (Z.of_nat (length side) =? 0)
       then NewC.build_tree fuel data side (d + 1)
       else ret NULL) s0 = Some (c, s0')).
    { intros side s0. destruct (negb _); [apply IH, Hf'|].
      eexists _, _. reflexivity. }
    destruct (Hchild (fst (split_indices (NewC.data_val data attr) sv idx)) s2)
      as (l & s3 & El).
    destruct (Hchild (snd (split_indices (NewC.data_val data attr) sv idx)) s3)
      as (r & s4 & Er).
    unfold bind at 1. rewrite El. unfold bind at 1. rewrite Er.
    eexists _, _. reflexivity.
Qed.

(** More fuel does not change the result. *)
Lemma newc_build_fuel_mono (fuel : nat) :
  forall (fuel' : nat) (data : list NewC.Process) (idx : list Z)
         (d : Z) (s : rng) (x : NodePtr * rng),
    (fuel <= fuel')%nat ->
    NewC.build_tree fuel data idx d s = Some x ->
    NewC.build_tree fuel' data idx d s = Some x.
Proof.
  induction fuel as [|fuel IH]; intros fuel' data idx d s x Hle H;
    [discriminate|].
  destruct fuel' as [|fuel']; [lia|].
  rewrite newc_build_step in *. cbv zeta in *.
  destruct ((d >=? NewC.MAX_DEPTH) || (Z.of_nat (length idx) <=? 1));
    [exact H|].
  apply bind_Some in H as (r1 & s1 & Hr1 & H).
  apply bind_Some. exists r1, s1. split; [exact Hr1|].
  destruct (_ =? _); [exact H|].
  apply bind_Some in H as (r2 & s2 & Hr2 & H).
  apply bind_Some. exists r2, s2. split; [exact Hr2|].
  apply bind_Some in H as (l & s3 & Hl & H).
  apply bind_Some. exists l, s3. split.
  { revert Hl. destruct (negb (Z.of_nat (length (fst _)) =? 0)); intros Hl;
      [apply IH; [lia | exact Hl] | exact Hl]. }
  apply bind_Some in H as (r & s4 & Hr & H).
  apply bind_Some. exists r, s4. split; [|exact H].
  revert Hr. destruct (negb (Z.of_nat (length (snd _)) =? 0)); intros Hr;
    [apply IH; [lia | exact Hr] | exact Hr].
Qed.

(** ** Consequences of the shape [built] *)

Section BuiltFacts.

Variable val : Z -> Z -> Z.
Variable maxd : Z.

Lemma built_size (d : Z) (idx : list Z) (p : NodePtr) :
  built val maxd d idx p -> node_size p = Z.of_nat (length idx).
Proof. destruct p; [intros [] | intros [H _]; exact H]. Qed.

(** An internal node: the threshold lies between the minimum and the
    maximum of its samples, the right side keeps the sample of maximal
    value, and a child is absent exactly when its side is empty. *)
Lemma built_internal (d : Z) (idx : list Z) (a v : Z) (l r : NodePtr)
    (n : Z) :
  built val maxd d idx (Node false a v l r n) ->
  d < maxd /\
  fst (scan_min_max (val a) idx) <= v <= snd (scan_min_max (val a) idx) /\
  snd (split_indices (val a) v idx) <> [] /\
  is_null r = false /\
  (is_null l = true <-> fst (split_indices (val a) v idx) = []).
Proof.
  cbn [built]. intros (Hn & Hd & Hn1 & Hv & Hl & Hr).
  assert (Hne : idx <> []).
  { intros ->. cbn in Hn. lia. }
  assert (Hright : snd (split_indices (val a) v idx) <> [])
    by (apply split_indices_right_nonempty; [exact Hne | lia]).
  repeat split; try lia; try assumption.
  - destruct r; [contradiction | reflexivity].
  - destruct l; [intros _; exact Hl | discriminate].
  - destruct l; [reflexivity | intros E; destruct Hl as [Hl _]; contradiction].
Qed.

Lemma built_internal_max (d : Z) (idx : list Z) (a v : Z) (l r : NodePtr)
    (n : Z) :
  built val maxd d idx (Node false a v l r n) ->
  exists j, In j (snd (split_indices (val a) v idx)) /\
            val a j = snd (scan_min_max (val a) idx).
Proof.
  cbn [built]. intros (Hn & Hd & Hn1 & Hv & _).
  apply split_indices_right_max; [|lia].
  intros ->. cbn in Hn. lia.
Qed.

(** Every node reached is itself a tree of the builder, for the samples
    that reach it, at a depth not above its root's. *)
Lemma built_reach (p : NodePtr) :
  forall (d : Z) (idx : list Z) (nd : NodePtr) (sub : list Z),
    built val maxd d idx p ->
    In (nd, sub) (reach val p idx) ->
    exists d', d <= d' /\ built val maxd d' sub nd.
Proof.
  induction p as [|lf a v l IHl r IHr n]; intros d idx nd sub Hb Hin;
    [destruct Hb|].
  cbn [reach] in Hin. destruct Hin as [E|Hin].
  - inversion E; subst. exists d. split; [lia | exact Hb].
  - cbn [built] in Hb. destruct Hb as (Hn & Hb). destruct lf.
    + destruct Hb as [-> ->]. destruct Hin.
    + destruct Hb as (Hd & Hn1 & Hv & Hl & Hr).
      apply in_app_or in Hin as [Hin|Hin].
      * destruct l as [|lf' a' v' l' r' n']; [destruct Hin|].
        destruct Hl as [_ Hl].
        destruct (IHl _ _ _ _ Hl Hin) as (d' & Hd' & Hb').
        exists d'. split; [lia | exact Hb'].
      * destruct r as [|lf' a' v' l' r' n']; [destruct Hin|].
        destruct Hr as [_ Hr].
        destruct (IHr _ _ _ _ Hr Hin) as (d' & Hd' & Hb').
        exists d'. split; [lia | exact Hb'].
Qed.

(** The nodes of a tree are the nodes reached. *)
Lemma nodes_reach (p : NodePtr) :
  forall (idx : list Z), map fst (reach val p idx) = nodes p.
Proof.
  induction p as [|lf a v l IHl r IHr n]; intros idx; [reflexivity|].
  cbn [reach nodes map fst]. rewrite map_app, IHl, IHr. reflexivity.
Qed.

Lemma nodes_reached (p : NodePtr) (idx : list Z) (nd : NodePtr) :
  In nd (nodes p) -> exists sub, In (nd, sub) (reach val p idx).
Proof.
  rewrite <- (nodes_reach p idx). intros H.
  apply in_map_iff in H as ([nd' sub] & E & H). cbn in E. subst nd'.
  now exists sub.
Qed.

(** The sizes of the leaves add up to the number of samples at the root. *)
Lemma built_leaf_total (p : NodePtr) :
  forall (d : Z) (idx : list Z),
    built val maxd d idx p -> leaf_total p = Z.of_nat (length idx).
Proof.
  induction p as [|lf a v l IHl r IHr n]; intros d idx Hb; [destruct Hb|].
  cbn [built] in Hb. destruct Hb as (Hn & Hb). cbn [leaf_total].
  destruct lf; [exact Hn|].
  destruct Hb as (_ & _ & _ & Hl & Hr).
  pose proof (split_indices_length (val a) v idx) as Hlen.
  assert (El : leaf_total l
               = Z.of_nat (length (fst (split_indices (val a) v idx)))).
  { destruct l; [now rewrite Hl|]. destruct Hl as [_ Hl]. eapply IHl, Hl. }
  assert (Er : leaf_total r
               = Z.of_nat (length (snd (split_indices (val a) v idx)))).
  { destruct r; [now rewrite Hr|]. destruct Hr as [_ Hr]. eapply IHr, Hr. }
  lia.
Qed.

(** The height of a tree built at depth [d] is at most
    [max_depth - d + 1] nodes. *)
Lemma built_height (p : NodePtr) :
  forall (d : Z) (idx : list Z),
    built val maxd d idx p ->
    (height p <= S (Z.to_nat (maxd - d)))%nat.
Proof.
  induction p as [|lf a v l IHl r IHr n]; intros d idx Hb; [destruct Hb|].
  cbn [built] in Hb. destruct Hb as (Hn & Hb). destruct lf.
  - destruct Hb as [-> ->]. cbn. lia.
  - destruct Hb as (Hd & Hn1 & Hv & Hl & Hr). cbn [height].
    assert (Hl' : (height l <= S (Z.to_nat (maxd - (d + 1))))%nat).
    { destruct l; [cbn; lia|]. destruct Hl as [_ Hl]. eapply IHl, Hl. }
    assert (Hr' : (height r <= S (Z.to_nat (maxd - (d + 1))))%nat).
    { destruct r; [cbn; lia|]. destruct Hr as [_ Hr]. eapply IHr, Hr. }
    lia.
Qed.

End BuiltFacts.

(** ** The normalization constant *)

Lemma ln_mono_le (x y : R) : (0 < x -> x <= y -> ln x <= ln y)%R.
Proof.
  intros Hx [Hlt| ->]; [|apply Rle_refl].
  apply Rlt_le, ln_increasing; assumption.
Qed.

Lemma ln_2_pos : (0 < ln 2)%R.
Proof. pose proof ln_lt_2. lra. Qed.

Lemma Rpower_2_nonpos (x : R) : (x <= 0 -> 0 < Rpower 2 x <= 1)%R.
Proof.
  intros Hx. unfold Rpower. split; [apply exp_pos|].
  rewrite <- exp_0. pose proof ln_2_pos as Hln.
  destruct (Req_dec_T (x * ln 2) 0) as [->|Hne]; [apply Rle_refl|].
  apply Rlt_le, exp_increasing. nra.
Qed.

Lemma euler_gamma_bounds : (577 / 1000 < euler_gamma < 578 / 1000)%R.
Proof. unfold euler_gamma. lra. Qed.

Lemma c_closed_form_2 : c_closed_form 2 = (2 * euler_gamma - 1)%R.
Proof.
  unfold c_closed_form. replace (2 - 1) with 1 by lia. rewrite ln_1. lra.
Qed.

(** From three samples on the closed form is positive. *)
Lemma c_closed_form_pos (n : Z) : 3 <= n -> (0 < c_closed_form n)%R.
Proof.
  intros Hn. unfold c_closed_form.
  assert (Hln : (ln 2 <= ln (IZR (n - 1)))%R).
  { apply ln_mono_le; [lra|]. apply IZR_le. lia. }
  assert (H3 : (3 <= IZR n)%R) by (apply IZR_le; exact Hn).
  assert (Hq : ((IZR n - 1) / IZR n < 1)%R).
  { apply Rmult_lt_reg_r with (IZR n); [lra|].
    unfold Rdiv. rewrite Rmult_assoc, Rinv_l; lra. }
  pose proof ln_lt_2. pose proof euler_gamma_bounds.
  unfold Rdiv in *. rewrite Rmult_assoc. lra.
Qed.

Lemma newc_c_factor_le_1 (n : Z) : n <= 1 -> NewC.c_factor n = 0%R.
Proof.
  intros H. unfold NewC.c_factor.
  destruct (Z.leb_spec n 1); [reflexivity | lia].
Qed.

Lemma newc_c_factor_ge_2 (n : Z) :
  2 <= n -> NewC.c_factor n = c_closed_form n.
Proof.
  intros H. unfold NewC.c_factor, c_closed_form.
  destruct (Z.leb_spec n 1); [lia | reflexivity].
Qed.

Lemma hids_c_factor_le_1 (n : Z) : n <= 1 -> Hids.c_factor n = 0%R.
Proof.
  intros H. unfold Hids.c_factor.
  destruct (Z.leb_spec n 1); [reflexivity | lia].
Qed.

Lemma hids_c_factor_ge_3 (n : Z) :
  3 <= n -> Hids.c_factor n = c_closed_form n.
Proof.
  intros H. unfold Hids.c_factor, Hids.harmonic_number, c_closed_form.
  destruct (Z.leb_spec n 1); [lia|].
  destruct (Z.leb_spec (n - 1) 1); [lia | reflexivity].
Qed.

(** For two samples [harmonic_number(1)] is [0.0], not [ln 1 + gamma]. *)
Lemma hids_c_factor_2 : Hids.c_factor 2 = (-1)%R.
Proof.
  unfold Hids.c_factor, Hids.harmonic_number. cbn. lra.
Qed.

Lemma newc_c_factor_nonneg (n : Z) : (0 <= NewC.c_factor n)%R.
Proof.
  destruct (Z.le_gt_cases n 1) as [H|H].
  - rewrite newc_c_factor_le_1 by exact H. apply Rle_refl.
  - rewrite newc_c_factor_ge_2 by lia.
    destruct (Z.eq_dec n 2) as [->|Hne].
    + rewrite c_closed_form_2. pose proof euler_gamma_bounds. lra.
    + apply Rlt_le, c_closed_form_pos. lia.
Qed.

Lemma newc_c_factor_pos (n : Z) : 2 <= n -> (0 < NewC.c_factor n)%R.
Proof.
  intros H. rewrite newc_c_factor_ge_2 by exact H.
  destruct (Z.eq_dec n 2) as [->|Hne].
  - rewrite c_closed_form_2. pose proof euler_gamma_bounds. lra.
  - apply c_closed_form_pos. lia.
Qed.

Lemma hids_c_factor_lower (n : Z) : (-1 <= Hids.c_factor n)%R.
Proof.
  destruct (Z.le_gt_cases n 1) as [H|H].
  - rewrite hids_c_factor_le_1 by exact H. lra.
  - destruct (Z.eq_dec n 2) as [->|Hne].
    + rewrite hids_c_factor_2. lra.
    + rewrite hids_c_factor_ge_3 by lia.
      pose proof (c_closed_form_pos n ltac:(lia)). lra.
Qed.

Lemma hids_c_factor_pos (n : Z) : 3 <= n -> (0 < Hids.c_factor n)%R.
Proof.
  intros H. rewrite hids_c_factor_ge_3 by exact H.
  now apply c_closed_form_pos.
Qed.

(** The normalization constant of the documented implementation vanishes
    exactly up to one sample. *)
Lemma hids_c_factor_zero (n : Z) : Hids.c_factor n = 0%R <-> n <= 1.
Proof.
  split; [|apply hids_c_factor_le_1].
  intros E. destruct (Z.le_gt_cases n 1) as [H|H]; [exact H|].
  destruct (Z.eq_dec n 2) as [->|Hne].
  - rewrite hids_c_factor_2 in E. lra.
  - pose proof (hids_c_factor_pos n ltac:(lia)). lra.
Qed.

(** ** Training *)

Lemma hids_draw_indices_total (k : nat) :
  forall (n : Z) (s : rng),
    exists idx s', Hids.draw_indices k n s = Some (idx, s') /\ length idx = k.
Proof.
  induction k as [|k IH]; intros n s.
  - exists [], s. split; reflexivity.
  - cbn [Hids.draw_indices]. unfold bind at 1. rewrite hids_random_int_total.
    destruct (IH n (fun i => s (S i))) as (idx & s' & E & Hlen).
    unfold bind at 1. rewrite E.
    eexists _, _. split; [reflexivity|]. cbn. now rewrite Hlen.
Qed.

Lemma hids_train_trees_spec (t : nat) :
  forall (data : list Hids.ProcessBehavior) (ss : Z) (s : rng),
    0 <= ss ->
    exists ts s',
      Hids.train_trees t data ss s = Some (ts, s') /\
      length ts = t /\
      Forall (hids_trained_tree data ss) ts.
Proof.
  induction t as [|t IH]; intros data ss s Hss.
  - exists [], s. repeat split. constructor.
  - cbn [Hids.train_trees].
    destruct (hids_draw_indices_total (Z.to_nat ss) (Z.of_nat (length data)) s)
      as (idx & s1 & Eidx & Hlen).
    unfold bind at 1. rewrite Eidx.
    destruct (hids_build_total (Hids.build_fuel 0 Hids.MAX_TREE_DEPTH) data idx
                0 Hids.MAX_TREE_DEPTH s1) as (rt & s2 & Ert).
    { unfold Hids.build_fuel. lia. }
    unfold bind at 1. rewrite Ert.
    destruct (IH data ss s2 Hss) as (ts & s3 & Ets & Hts & Hall).
    unfold bind at 1. rewrite Ets.
    eexists _, _. split; [reflexivity|]. split; [cbn; now rewrite Hts|].
    constructor; [|exact Hall].
    split; [reflexivity|]. exists idx. split; [lia|].
    cbn [Hids.root]. eapply hids_build_built, Ert.
Qed.

(** Training always returns a forest: [NUM_TREES] trees, each built from
    [subsample_size = min(SUBSAMPLE_SIZE, n)] indices. *)
Lemma hids_train_spec (data : list Hids.ProcessBehavior) (s : rng) :
  exists f s',
    Hids.train_isolation_forest data s = Some (f, s') /\
    Hids.num_trees f = Hids.NUM_TREES /\
    Hids.subsample_size f = Z.min Hids.SUBSAMPLE_SIZE (Z.of_nat (length data)) /\
    length (Hids.trees f) = Z.to_nat Hids.NUM_TREES /\
    Forall (hids_trained_tree data (Hids.subsample_size f)) (Hids.trees f).
Proof.
  unfold Hids.train_isolation_forest.
  set (ss := if Hids.SUBSAMPLE_SIZE <? Z.of_nat (length data)
             then Hids.SUBSAMPLE_SIZE else Z.of_nat (length data)).
  assert (Ess : ss = Z.min Hids.SUBSAMPLE_SIZE (Z.of_nat (length data))).
  { unfold ss. destruct (Z.ltb_spec Hids.SUBSAMPLE_SIZE (Z.of_nat (length data)));
      lia. }
  assert (Hss : 0 <= ss) by (rewrite Ess; unfold Hids.SUBSAMPLE_SIZE; lia).
  destruct (hids_train_trees_spec (Z.to_nat Hids.NUM_TREES) data ss s Hss)
    as (ts & s' & E & Hlen & Hall).
  unfold bind. rewrite E.
  eexists _, _. split; [reflexivity|]. cbn. repeat split; assumption.
Qed.

Lemma newc_rand_total (s : rng) :
  rand s = Some (Z.of_N (s O), fun i => s (S i)).
Proof. reflexivity. Qed.

Lemma newc_gen_freqs_total (k : nat) :
  forall (i : Z) (anomaly : bool) (s : rng),
    exists fs s', NewC.gen_freqs k i anomaly s = Some (fs, s') /\
                  length fs = k.
Proof.
  induction k as [|k IH]; intros i anomaly s.
  - exists [], s. split; reflexivity.
  - cbn [NewC.gen_freqs]. unfold bind at 1. rewrite newc_rand_total.
    destruct (IH (i + 1) anomaly (fun j => s (S j))) as (fs & s' & E & Hlen).
    unfold bind at 1. rewrite E.
    eexists _, _. split; [reflexivity|]. cbn. now rewrite Hlen.
Qed.

Lemma newc_gen_train_total (k : nat) :
  forall (s : rng),
    exists ps s', NewC.gen_train k s = Some (ps, s') /\ length ps = k.
Proof.
  induction k as [|k IH]; intros s.
  - exists [], s. split; reflexivity.
  - cbn [NewC.gen_train]. unfold NewC.gen_data.
    destruct (newc_gen_freqs_total (Z.to_nat NewC.MAX_SYSCALLS) 0 false s)
      as (fs & s1 & Efs & _).
    unfold bind at 1. unfold bind at 1. rewrite Efs. unfold ret at 1.
    destruct (IH s1) as (ps & s2 & Eps & Hlen).
    unfold bind at 1. rewrite Eps.
    eexists _, _. split; [reflexivity|]. cbn. now rewrite Hlen.
Qed.

Lemma newc_draw_idx_total (k : nat) :
  forall (n_train : Z) (s : rng),
    exists idx s', NewC.draw_idx k n_train s = Some (idx, s') /\
                   length idx = k.
Proof.
  induction k as [|k IH]; intros n_train s.
  - exists [], s. split; reflexivity.
  - cbn [NewC.draw_idx]. unfold bind at 1. rewrite newc_rand_total.
    destruct (IH n_train (fun i => s (S i))) as (idx & s' & E & Hlen).
    unfold bind at 1. rewrite E.
    eexists _, _. split; [reflexivity|]. cbn. now rewrite Hlen.
Qed.

Lemma newc_main_forest_spec (t : nat) :
  forall (train : list NewC.Process) (s : rng),
    exists forest s',
      NewC.main_forest t train s = Some (forest, s') /\
      length forest = t /\
      Forall (newc_trained_tree train) forest.
Proof.
  induction t as [|t IH]; intros train s.
  - exists [], s. repeat split. constructor.
  - cbn [NewC.main_forest].
    destruct (newc_draw_idx_total (Z.to_nat NewC.SUBSAMPLE_SIZE)
                (Z.of_nat (length train)) s) as (idx & s1 & Eidx & Hlen).
    unfold bind at 1. rewrite Eidx.
    destruct (newc_build_total (NewC.build_fuel 0) train idx 0 s1)
      as (rt & s2 & Ert).
    { unfold NewC.build_fuel. lia. }
    unfold bind at 1. rewrite Ert.
    destruct (IH train s2) as (forest & s3 & Ef & Hf & Hall).
    unfold bind at 1. rewrite Ef.
    eexists _, _. split; [reflexivity|]. split; [cbn; now rewrite Hf|].
    constructor; [|exact Hall].
    exists idx. split; [rewrite Hlen; reflexivity|].
    eapply newc_build_built, Ert.
Qed.

(** [main] of [new.c] always completes its training: twenty processes and
    [NUM_TREES] trees, each built from [SUBSAMPLE_SIZE] indices. *)
Lemma newc_main_training_spec (s : rng) :
  exists train forest s',
    NewC.main_training s = Some ((train, forest), s') /\
    length train = 20%nat /\
    length forest = Z.to_nat NewC.NUM_TREES /\
    Forall (newc_trained_tree train) forest.
Proof.
  unfold NewC.main_training.
  destruct (newc_gen_train_total 20 s) as (train & s1 & Etrain & Hlen).
  unfold bind at 1. rewrite Etrain.
  destruct (newc_main_forest_spec (Z.to_nat NewC.NUM_TREES) train s1)
    as (forest & s2 & Ef & Hf & Hall).
  unfold bind at 1. rewrite Ef.
  eexists _, _, _. split; [reflexivity|]. repeat split; assumption.
Qed.

Lemma hids_train_inv (data : list Hids.ProcessBehavior) (s : rng)
    (f : Hids.IsolationForest) (s' : rng) :
  Hids.train_isolation_forest data s = Some (f, s') ->
  Hids.num_trees f = Hids.NUM_TREES /\
  Hids.subsample_size f = Z.min Hids.SUBSAMPLE_SIZE (Z.of_nat (length data)) /\
  length (Hids.trees f) = Z.to_nat Hids.NUM_TREES /\
  Forall (hids_trained_tree data (Hids.subsample_size f)) (Hids.trees f).
Proof.
  intros H. destruct (hids_train_spec data s) as (f0 & s0 & E & Hf).
  rewrite E in H. inversion H; subst. exact Hf.
Qed.

Lemma hids_draw_indices_range (k : nat) :
  forall (n : Z) (s : rng) (idx : list Z) (s' : rng),
    1 <= n ->
    Hids.draw_indices k n s = Some (idx, s') ->
    length idx = k /\ forall i, In i idx -> 0 <= i < n.
Proof.
  induction k as [|k IH]; intros n s idx s' Hn H.
  - apply ret_Some in H. inversion H; subst. split; [reflexivity|].
    intros i [].
  - cbn [Hids.draw_indices] in H.
    apply bind_Some in H as (i0 & s1 & Hi0 & H).
    apply bind_Some in H as (rest & s2 & Hrest & H).
    apply ret_Some in H. inversion H; subst.
    apply hids_random_int_range in Hi0; [|lia].
    destruct (IH _ _ _ _ Hn Hrest) as (Hlen & Hin).
    split; [cbn; now rewrite Hlen|].
    intros i [<-|Hi]; [lia | now apply Hin].
Qed.

(** What training knows of each tree: the indices drawn, all within the
    training data, and the call of the builder that returned the root. *)
Lemma hids_train_trees_calls (t : nat) :
  forall (data : list Hids.ProcessBehavior) (ss : Z) (s : rng)
         (ts : list Hids.IsolationTree) (s' : rng),
    ss = Z.min Hids.SUBSAMPLE_SIZE (Z.of_nat (length data)) ->
    Hids.train_trees t data ss s = Some (ts, s') ->
    Forall (fun tr =>
              exists idx s1 s2,
                Z.of_nat (length idx) = ss /\
                (forall i, In i idx -> 0 <= i < Z.of_nat (length data)) /\
                Hids.build_isolation_tree
                  (Hids.build_fuel 0 Hids.MAX_TREE_DEPTH) data idx 0
                  Hids.MAX_TREE_DEPTH s1 = Some (Hids.root tr, s2)) ts.
Proof.
  induction t as [|t IH]; intros data ss s ts s' Hss H.
  - apply ret_Some in H. inversion H; subst. constructor.
  - cbn [Hids.train_trees] in H.
    apply bind_Some in H as (idx & s1 & Hidx & H).
    apply bind_Some in H as (rt & s2 & Hrt & H).
    apply bind_Some in H as (rest & s3 & Hrest & H).
    apply ret_Some in H. inversion H; subst ts s'. clear H.
    constructor; [|eapply IH; [exact Hss | exact Hrest]].
    exists idx, s1, s2. cbn [Hids.root].
    destruct (Z.le_gt_cases 1 (Z.of_nat (length data))) as [Hn|Hn].
    + destruct (hids_draw_indices_range _ _ _ _ _ Hn Hidx) as (Hlen & Hin).
      split; [rewrite Hlen; unfold Hids.SUBSAMPLE_SIZE in *; lia|].
      split; [exact Hin | exact Hrt].
    + assert (Ess : Z.to_nat ss = O)
        by (unfold Hids.SUBSAMPLE_SIZE in *; lia).
      rewrite Ess in Hidx. apply ret_Some in Hidx. inversion Hidx; subst idx s1.
      split; [cbn; unfold Hids.SUBSAMPLE_SIZE in *; lia|].
      split; [intros i [] | exact Hrt].
Qed.

Lemma hids_train_calls (data : list Hids.ProcessBehavior) (s : rng)
    (f : Hids.IsolationForest) (s' : rng) :
  Hids.train_isolation_forest data s = Some (f, s') ->
  Forall (fun tr =>
            exists idx s1 s2,
              Z.of_nat (length idx) = Hids.subsample_size f /\
              (forall i, In i idx -> 0 <= i < Z.of_nat (length data)) /\
              Hids.build_isolation_tree
                (Hids.build_fuel 0 Hids.MAX_TREE_DEPTH) data idx 0
                Hids.MAX_TREE_DEPTH s1 = Some (Hids.root tr, s2))
         (Hids.trees f).
Proof.
  intros H. pose proof (hids_train_inv _ _ _ _ H) as (_ & Hss & _).
  unfold Hids.train_isolation_forest in H.
  apply bind_Some in H as (ts & s1 & Hts & H).
  apply ret_Some in H. inversion H; subst f s'. cbn [Hids.trees].
  cbn [Hids.subsample_size] in *.
  eapply hids_train_trees_calls; [|exact Hts]. exact Hss.
Qed.

(** ** Path lengths and scores *)

Lemma in_firstn {A : Type} (k : nat) :
  forall (l : list A) (x : A), In x (firstn k l) -> In x l.
Proof.
  induction k as [|k IH]; intros [|y l] x H; cbn in H; try contradiction.
  destruct H as [->|H]; [now left | right; now apply IH].
Qed.

Lemma sum_fold_lower {A : Type} (g : A -> R) (l : list A) :
  forall (a : R),
    Forall (fun x => (0 <= g x)%R) l ->
    (a <= fold_left (fun acc x => (acc + g x)%R) l a)%R.
Proof.
  induction l as [|x l IH]; intros a H; cbn [fold_left]; [apply Rle_refl|].
  inversion H; subst. eapply Rle_trans; [|apply IH; assumption]. lra.
Qed.

Lemma sum_fold_const {A : Type} (g : A -> R) (c : R) (l : list A) :
  forall (a : R),
    Forall (fun x => g x = c) l ->
    fold_left (fun acc x => (acc + g x)%R) l a = (a + INR (length l) * c)%R.
Proof.
  induction l as [|x l IH]; intros a H.
  - cbn. lra.
  - inversion H; subst. cbn [fold_left]. rewrite IH by assumption.
    change (length (x :: l)) with (S (length l)). rewrite S_INR. lra.
Qed.

(** A path length of the documented implementation is never more than one
    below the depth at which the walk starts. *)
Lemma hids_path_length_lower (t : NodePtr) (sample : Hids.ProcessBehavior) :
  forall (d : Z), (IZR d - 1 <= Hids.path_length t sample d)%R.
Proof.
  induction t as [|lf a v l IHl r IHr n]; intros d; cbn [Hids.path_length].
  - lra.
  - destruct lf.
    + pose proof (hids_c_factor_lower n). lra.
    + assert (E : (IZR (d + 1) - 1 = IZR d)%R) by (rewrite plus_IZR; lra).
      destruct (_ && _).
      * specialize (IHl (d + 1)). lra.
      * destruct (negb _); [specialize (IHr (d + 1)) |]; lra.
Qed.

(** From the root of a tree of the builder whose subsample does not hold
    exactly two indices, path lengths are non-negative. *)
Lemma hids_root_path_nonneg (val : Z -> Z -> Z) (maxd : Z) (idx : list Z)
    (t : NodePtr) (sample : Hids.ProcessBehavior) :
  built val maxd 0 idx t ->
  Z.of_nat (length idx) <> 2 ->
  (0 <= Hids.path_length t sample 0)%R.
Proof.
  destruct t as [|lf a v l r n]; [intros []|].
  intros Hb Hlen. cbn [Hids.path_length]. destruct lf.
  - destruct Hb as [Hn _]. subst n. simpl IZR.
    destruct (Z.le_gt_cases (Z.of_nat (length idx)) 1) as [H|H].
    + rewrite hids_c_factor_le_1 by exact H. lra.
    + pose proof (hids_c_factor_pos (Z.of_nat (length idx)) ltac:(lia)). lra.
  - destruct (_ && _).
    + pose proof (hids_path_length_lower l sample (0 + 1)). simpl in *. lra.
    + destruct (negb _); [|simpl; lra].
      pose proof (hids_path_length_lower r sample (0 + 1)). simpl in *. lra.
Qed.

(** The score of a forest with at least one tree counted: the guard, then
    the power. *)
Lemma hids_anomaly_score_eq (f : Hids.IsolationForest)
    (sample : Hids.ProcessBehavior) :
  Hids.num_trees f <> 0 ->
  Hids.anomaly_score f sample =
  Some (if Req_dec_T (Hids.c_factor (Hids.subsample_size f)) 0
        then 0.5%R
        else Rpower 2 (- (Hids.sum_path_lengths f sample
                          / IZR (Hids.num_trees f))
                       / Hids.c_factor (Hids.subsample_size f))).
Proof.
  intros Hnt. unfold Hids.anomaly_score, fdiv.
  destruct (Req_dec_T (IZR (Hids.num_trees f)) 0) as [E|_];
    [apply eq_IZR_R0 in E; contradiction|].
  destruct (Req_dec_T (Hids.c_factor (Hids.subsample_size f)) 0);
    reflexivity.
Qed.

Lemma hids_trained_sum_nonneg (data : list Hids.ProcessBehavior)
    (f : Hids.IsolationForest) (sample : Hids.ProcessBehavior) :
  Forall (hids_trained_tree data (Hids.subsample_size f)) (Hids.trees f) ->
  Hids.subsample_size f <> 2 ->
  (0 <= Hids.sum_path_lengths f sample)%R.
Proof.
  intros Hall Hss. unfold Hids.sum_path_lengths.
  apply (sum_fold_lower (fun t => Hids.path_length (Hids.root t) sample 0)).
  apply Forall_forall. intros tr Hin. apply in_firstn in Hin.
  rewrite Forall_forall in Hall.
  destruct (Hall tr Hin) as (_ & idx & Hlen & Hb).
  eapply hids_root_path_nonneg; [exact Hb | lia].
Qed.

(** Trained on any number of samples other than two, the documented
    implementation scores within [(0, 1]]. *)
Lemma hids_score_in_unit_interval (data : list Hids.ProcessBehavior) (s : rng)
    (f : Hids.IsolationForest) (s' : rng) (sample : Hids.ProcessBehavior) :
  Hids.train_isolation_forest data s = Some (f, s') ->
  length data <> 2%nat ->
  exists x, Hids.anomaly_score f sample = Some x /\ (0 < x <= 1)%R.
Proof.
  intros Htrain Hlen.
  destruct (hids_train_inv _ _ _ _ Htrain) as (Hnt & Hss & _ & Hall).
  rewrite hids_anomaly_score_eq by (rewrite Hnt; discriminate).
  eexists. split; [reflexivity|].
  destruct (Req_dec_T _ 0) as [_|Hc]; [lra|].
  assert (Hss2 : Hids.subsample_size f <> 2).
  { rewrite Hss. unfold Hids.SUBSAMPLE_SIZE. lia. }
  assert (Hc0 : (0 < Hids.c_factor (Hids.subsample_size f))%R).
  { destruct (Z.le_gt_cases (Hids.subsample_size f) 1) as [H|H].
    - apply hids_c_factor_le_1 in H. contradiction.
    - apply hids_c_factor_pos. lia. }
  pose proof (hids_trained_sum_nonneg data f sample Hall Hss2) as Hsum.
  apply Rpower_2_nonpos. rewrite Hnt.
  assert (Hq : (0 <= Hids.sum_path_lengths f sample / IZR Hids.NUM_TREES)%R).
  { apply Rmult_le_pos; [exact Hsum|].
    apply Rlt_le, Rinv_0_lt_compat. unfold Hids.NUM_TREES. lra. }
  apply Rmult_le_reg_r with (Hids.c_factor (Hids.subsample_size f));
    [exact Hc0|].
  unfold Rdiv at 1. rewrite Rmult_assoc, Rinv_l by lra. lra.
Qed.

Lemma newc_get_path_lower (t : NodePtr) (p : NewC.Process) :
  forall (d : Z), (IZR d <= NewC.get_path t p d)%R.
Proof.
  induction t as [|lf a v l IHl r IHr n]; intros d; cbn [NewC.get_path].
  - pose proof (newc_c_factor_nonneg 0). lra.
  - destruct lf.
    + pose proof (newc_c_factor_nonneg n). lra.
    + assert (E : (IZR d <= IZR (d + 1))%R) by (rewrite plus_IZR; lra).
      destruct (_ <? _); [specialize (IHl (d + 1)) | specialize (IHr (d + 1))];
        lra.
Qed.

Lemma newc_main_score_eq (forest : list NodePtr) (p : NewC.Process) :
  NewC.main_score forest p =
  Some (Rpower 2 (- (NewC.sum_paths forest p / IZR NewC.NUM_TREES)
                  / NewC.c_factor NewC.SUBSAMPLE_SIZE)).
Proof.
  unfold NewC.main_score, fdiv.
  destruct (Req_dec_T (IZR NewC.NUM_TREES) 0) as [E|_];
    [apply eq_IZR_R0 in E; discriminate|].
  destruct (Req_dec_T (NewC.c_factor NewC.SUBSAMPLE_SIZE) 0) as [E|_];
    [|reflexivity].
  pose proof (newc_c_factor_pos NewC.SUBSAMPLE_SIZE ltac:(unfold NewC.SUBSAMPLE_SIZE; lia)).
  lra.
Qed.


(** ** The examples *)

Lemma hids_two_forest_trained :
  option_map fst (Hids.train_isolation_forest hids_two_samples alternating_rng)
  = Some hids_two_forest.
Proof. vm_compute. reflexivity. Qed.

Lemma hids_lopsided_tree_built :
  option_map fst
    (Hids.build_isolation_tree (Hids.build_fuel 0 Hids.MAX_TREE_DEPTH)
       hids_two_samples [0; 1] 0 Hids.MAX_TREE_DEPTH fourth_rng)
  = Some hids_lopsided_tree.
Proof. vm_compute. reflexivity. Qed.

Lemma newc_lopsided_tree_built :
  option_map fst
    (NewC.build_tree (NewC.build_fuel 0) newc_two_samples [0; 1] 0 fourth_rng)
  = Some newc_lopsided_tree.
Proof. vm_compute. reflexivity. Qed.

Lemma hids_empty_forest_trained (s : rng) :
  Hids.train_isolation_forest [] s = Some (hids_empty_forest, s).
Proof. reflexivity. Qed.

Lemma hids_split_tree_path (sample : Hids.ProcessBehavior) :
  Hids.path_length hids_split_tree sample 0 = 1%R.
Proof.
  unfold hids_split_tree. cbn [Hids.path_length is_null negb andb].
  rewrite andb_true_r.
  destruct (Hids.freq_at sample 0 <? 2);
    rewrite hids_c_factor_le_1 by lia; simpl; lra.
Qed.

Lemma hids_two_forest_sum (sample : Hids.ProcessBehavior) :
  Hids.sum_path_lengths hids_two_forest sample = 10%R.
Proof.
  unfold Hids.sum_path_lengths.
  rewrite (sum_fold_const (fun t => Hids.path_length (Hids.root t) sample 0) 1).
  - change (length (firstn _ _)) with 10%nat.
    rewrite INR_IZR_INZ. simpl Z.of_nat. lra.
  - apply Forall_forall. intros tr Hin. apply in_firstn in Hin.
    apply repeat_spec in Hin. subst tr. apply hids_split_tree_path.
Qed.

(** ** The root of a built tree *)

Lemma hids_build_returns (data : list Hids.ProcessBehavior) (idx : list Z)
    (d maxd : Z) (s : rng) (k : nat) :
  exists t s',
    Hids.build_isolation_tree (Hids.build_fuel d maxd + k) data idx d maxd s
    = Some (t, s') /\
    built (Hids.data_val data) maxd d idx t.
Proof.
  destruct (hids_build_total (Hids.build_fuel d maxd + k) data idx d maxd s)
    as (t & s' & E); [unfold Hids.build_fuel; lia|].
  exists t, s'. split; [exact E | eapply hids_build_built, E].
Qed.

Lemma newc_build_returns (data : list NewC.Process) (idx : list Z)
    (d : Z) (s : rng) (k : nat) :
  exists t s',
    NewC.build_tree (NewC.build_fuel d + k) data idx d s = Some (t, s') /\
    built (NewC.data_val data) NewC.MAX_DEPTH d idx t.
Proof.
  destruct (newc_build_total (NewC.build_fuel d + k) data idx d s)
    as (t & s' & E); [unfold NewC.build_fuel; lia|].
  exists t, s'. split; [exact E | eapply newc_build_built, E].
Qed.

Lemma hids_build_root_leaf (fuel : nat) (data : list Hids.ProcessBehavior)
    (idx : list Z) (d maxd : Z) (s : rng) (t : NodePtr) (s' : rng) :
  Hids.build_isolation_tree (S fuel) data idx d maxd s = Some (t, s') ->
  node_is_leaf t = true <->
  (maxd <= d \/ Z.of_nat (length idx) <= 1 \/
   all_equal (map (Hids.data_val data (hids_first_attribute s)) idx)).
Proof.
  rewrite hids_build_step. cbv zeta.
  destruct ((d >=? maxd) || (Z.of_nat (length idx) <=? 1)) eqn:Estop.
  - intros H. apply ret_Some in H. inversion H; subst.
    apply stop_test in Estop. cbn. intuition.
  - apply stop_test_false in Estop. intros H.
    apply bind_Some in H as (a & s1 & Ha & H).
    assert (Efirst : hids_first_attribute s = a).
    { unfold hids_first_attribute. now rewrite Ha. }
    rewrite Efirst.
    destruct (fst (scan_min_max (Hids.data_val data a) idx)
              =? snd (scan_min_max (Hids.data_val data a) idx)) eqn:Emm.
    + apply ret_Some in H. inversion H; subst. cbn.
      apply Z.eqb_eq, scan_min_max_equal in Emm. intuition.
    + apply bind_Some in H as (v & s2 & _ & H).
      apply bind_Some in H as (l & s3 & _ & H).
      apply bind_Some in H as (r & s4 & _ & H).
      apply ret_Some in H. inversion H; subst. cbn.
      apply Z.eqb_neq in Emm. rewrite scan_min_max_equal in Emm.
      split; [discriminate|]. intros [?|[?|?]]; [lia | lia | contradiction].
Qed.

Lemma newc_build_root_leaf (fuel : nat) (data : list NewC.Process)
    (idx : list Z) (d : Z) (s : rng) (t : NodePtr) (s' : rng) :
  NewC.build_tree (S fuel) data idx d s = Some (t, s') ->
  node_is_leaf t = true <->
  (NewC.MAX_DEPTH <= d \/ Z.of_nat (length idx) <= 1 \/
   all_equal (map (NewC.data_val data (newc_first_attribute s)) idx)).
Proof.
  rewrite newc_build_step. cbv zeta.
  destruct ((d >=? NewC.MAX_DEPTH) || (Z.of_nat (length idx) <=? 1)) eqn:Estop.
  - intros H. apply ret_Some in H. inversion H; subst.
    apply stop_test in Estop. cbn. intuition.
  - apply stop_test_false in Estop. intros H.
    apply bind_Some in H as (r1 & s1 & Hr1 & H).
    assert (Efirst : newc_first_attribute s = Z.rem r1 NewC.MAX_SYSCALLS).
    { unfold newc_first_attribute. now rewrite Hr1. }
    rewrite Efirst.
    set (attr := Z.rem r1 NewC.MAX_SYSCALLS) in *.
    destruct (fst (scan_min_max (NewC.data_val data attr) idx)
              =? snd (scan_min_max (NewC.data_val data attr) idx)) eqn:Emm.
    + apply ret_Some in H. inversion H; subst. cbn.
      apply Z.eqb_eq, scan_min_max_equal in Emm. intuition.
    + apply bind_Some in H as (r2 & s2 & _ & H).
      apply bind_Some in H as (l & s3 & _ & H).
      apply bind_Some in H as (r & s4 & _ & H).
      apply ret_Some in H. inversion H; subst. cbn.
      apply Z.eqb_neq in Emm. rewrite scan_min_max_equal in Emm.
      split; [discriminate|]. intros [?|[?|?]]; [lia | lia | contradiction].
Qed.

(** Every node reached records the number of the samples that reach it. *)
Lemma built_reach_size (val : Z -> Z -> Z) (maxd d : Z) (idx : list Z)
    (t nd : NodePtr) (sub : list Z) :
  built val maxd d idx t ->
  In (nd, sub) (reach val t idx) ->
  node_size nd = Z.of_nat (length sub).
Proof.
  intros Hb Hin.
  destruct (built_reach val maxd t d idx nd sub Hb Hin) as (d' & _ & Hb').
  eapply built_size, Hb'.
Qed.

(** At every internal node reached: the threshold lies between the minimum
    and the maximum of the node's samples, a sample of maximal value goes
    right, the right child is present, and the left child is absent exactly
    when no sample is below the threshold. *)
Lemma built_reach_internal (val : Z -> Z -> Z) (maxd d : Z) (idx : list Z)
    (t nd : NodePtr) (sub : list Z) :
  built val maxd d idx t ->
  In (nd, sub) (reach val t idx) ->
  node_is_leaf nd = false ->
  let a := node_split_attribute nd in
  let v := node_split_value nd in
  fst (scan_min_max (val a) sub) <= v <= snd (scan_min_max (val a) sub) /\
  (exists j, In j (snd (split_indices (val a) v sub)) /\
             val a j = snd (scan_min_max (val a) sub)) /\
  is_null (node_right nd) = false /\
  (is_null (node_left nd) = true <-> forall i, In i sub -> v <= val a i).
Proof.
  intros Hb Hin Hleaf.
  destruct (built_reach val maxd t d idx nd sub Hb Hin) as (d' & _ & Hb').
  destruct nd as [|lf a v l r n]; [destruct Hb'|].
  cbn in Hleaf. subst lf. cbn [node_split_attribute node_split_value
    node_right node_left]. cbv zeta.
  pose proof (built_internal_max val maxd d' sub a v l r n Hb') as Hmax.
  destruct (built_internal val maxd d' sub a v l r n Hb')
    as (_ & Hv & _ & Hr & Hl).
  rewrite <- split_indices_left_empty. auto.
Qed.

(** ** The normalization constant: the two implementations at [n = 2] *)

(** C1. For two samples the documented [c_factor] does not return the closed
    form [2 * (ln (n - 1) + 0.5772156649) - 2 * (n - 1) / n]: its
    [harmonic_number(1)] is [0.0], so [c_factor(2)] is [-1], while the
    [c_factor] of [new.c] returns the closed form, [2 * 0.5772156649 - 1]. *)
Theorem c_factor_two_samples :
  Hids.c_factor 2 = (-1)%R /\
  NewC.c_factor 2 = c_closed_form 2 /\
  c_closed_form 2 = (2 * euler_gamma - 1)%R /\
  Hids.c_factor 2 <> c_closed_form 2.
Proof.
  split; [apply hids_c_factor_2|].
  split; [apply newc_c_factor_ge_2; lia|].
  split; [apply c_closed_form_2|].
  rewrite hids_c_factor_2, c_closed_form_2.
  pose proof euler_gamma_bounds. lra.
Qed.

(** Everywhere else both implementations follow the closed form: 0 up to one
    sample, the closed form from two samples on in [new.c] and from three
    samples on in the documented implementation. *)
Lemma c_factor_elsewhere (n : Z) :
  (n <= 1 -> Hids.c_factor n = 0%R /\ NewC.c_factor n = 0%R) /\
  (2 <= n -> NewC.c_factor n = c_closed_form n) /\
  (3 <= n -> Hids.c_factor n = c_closed_form n).
Proof.
  split; [intros H; split; [now apply hids_c_factor_le_1
                           | now apply newc_c_factor_le_1]|].
  split; [apply newc_c_factor_ge_2 | apply hids_c_factor_ge_3].
Qed.

(** ** The score of a forest trained on two samples *)

(** C2. Trained on the two samples of [hids_two_samples] under the generator
    [alternating_rng], the documented implementation has
    [subsample_size = 2 > 1] and gives every vector the score 2, outside
    [[0, 1]]. *)
Theorem hids_score_two_samples :
  option_map fst (Hids.train_isolation_forest hids_two_samples alternating_rng)
  = Some hids_two_forest /\
  Hids.subsample_size hids_two_forest = 2 /\
  forall sample : Hids.ProcessBehavior,
    Hids.anomaly_score hids_two_forest sample = Some 2%R /\
    ~ (0 <= 2 <= 1)%R.
Proof.
  split; [apply hids_two_forest_trained|]. split; [reflexivity|].
  intros sample. split; [|lra].
  rewrite hids_anomaly_score_eq by discriminate.
  rewrite hids_two_forest_sum.
  change (Hids.subsample_size hids_two_forest) with 2.
  change (Hids.num_trees hids_two_forest) with 10.
  rewrite hids_c_factor_2.
  destruct (Req_dec_T (-1) 0) as [E|_]; [lra|].
  replace (- (10 / 10) / -1)%R with 1%R by (field; lra).
  rewrite Rpower_1 by lra. reflexivity.
Qed.

(** ** The leaf condition and the sizes *)

(** C3. For every index set, depth and generator, each builder returns a
    node that is a Leaf if and only if [depth >= maxDepth], or the set holds
    at most one sample, or all the values of the attribute drawn are equal
    among the samples; and every node of the tree, so every Leaf, stores as
    its size the number of the samples that reached it. *)
Theorem build_leaf_condition_and_sizes
    (hdata : list Hids.ProcessBehavior) (ndata : list NewC.Process)
    (idx : list Z) (d maxd : Z) (s : rng) :
  (exists t s',
      Hids.build_isolation_tree (Hids.build_fuel d maxd) hdata idx d maxd s
      = Some (t, s') /\
      (node_is_leaf t = true <->
       (maxd <= d \/ Z.of_nat (length idx) <= 1 \/
        all_equal (map (Hids.data_val hdata (hids_first_attribute s)) idx))) /\
      (forall nd sub,
          In (nd, sub) (reach (Hids.data_val hdata) t idx) ->
          node_size nd = Z.of_nat (length sub)))
  /\
  (exists t s',
      NewC.build_tree (NewC.build_fuel d) ndata idx d s = Some (t, s') /\
      (node_is_leaf t = true <->
       (NewC.MAX_DEPTH <= d \/ Z.of_nat (length idx) <= 1 \/
        all_equal (map (NewC.data_val ndata (newc_first_attribute s)) idx))) /\
      (forall nd sub,
          In (nd, sub) (reach (NewC.data_val ndata) t idx) ->
          node_size nd = Z.of_nat (length sub))).
Proof.
  split.
  - destruct (hids_build_returns hdata idx d maxd s 0) as (t & s' & E & Hb).
    rewrite Nat.add_0_r in E. exists t, s'. split; [exact E|]. split.
    + eapply hids_build_root_leaf, E.
    + intros nd sub. eapply built_reach_size, Hb.
  - destruct (newc_build_returns ndata idx d s 0) as (t & s' & E & Hb).
    rewrite Nat.add_0_r in E. exists t, s'. split; [exact E|]. split.
    + eapply newc_build_root_leaf, E.
    + intros nd sub. eapply built_reach_size, Hb.
Qed.

(** ** Absent nodes during the evaluation *)

(** C4, as stated, fails: at the root of [hids_lopsided_tree], a tree of the
    documented builder, the comparison of the all-zero vector selects the
    absent left child, and the path length is 2, not the current depth 0;
    on the same tree of [new.c], [get_path] returns 1. *)
Lemma absent_left_child_is_not_terminal :
  option_map fst
    (Hids.build_isolation_tree (Hids.build_fuel 0 Hids.MAX_TREE_DEPTH)
       hids_two_samples [0; 1] 0 Hids.MAX_TREE_DEPTH fourth_rng)
  = Some hids_lopsided_tree /\
  option_map fst
    (NewC.build_tree (NewC.build_fuel 0) newc_two_samples [0; 1] 0 fourth_rng)
  = Some newc_lopsided_tree /\
  (Hids.freq_at (hids_flat 0) (node_split_attribute hids_lopsided_tree)
   <? node_split_value hids_lopsided_tree) = true /\
  node_left hids_lopsided_tree = NULL /\
  Hids.path_length hids_lopsided_tree (hids_flat 0) 0 = 2%R /\
  Hids.path_length hids_lopsided_tree (hids_flat 0) 0 <> IZR 0 /\
  NewC.get_path newc_lopsided_tree (newc_flat 0) 0 = 1%R /\
  NewC.get_path newc_lopsided_tree (newc_flat 0) 0 <> IZR 0.
Proof.
  assert (Eh : Hids.path_length hids_lopsided_tree (hids_flat 0) 0 = 2%R).
  { cbn -[Hids.c_factor]. rewrite hids_c_factor_le_1 by lia. lra. }
  assert (En : NewC.get_path newc_lopsided_tree (newc_flat 0) 0 = 1%R).
  { cbn -[NewC.c_factor]. rewrite newc_c_factor_le_1 by lia. lra. }
  split; [apply hids_lopsided_tree_built|].
  split; [apply newc_lopsided_tree_built|].
  rewrite Eh, En. repeat split; try reflexivity; lra.
Qed.

(** C4, amended.  An absent node yields [depth + c_factor(0)], which is
    [depth].  At an Internal node whose comparison selects an absent child,
    [get_path] of [new.c] returns [depth + 1].  [path_length] of the
    documented implementation walks into the right child at [depth + 1]
    whenever the left child is absent and the right one present, whatever
    the comparison says, and returns the current depth only when the right
    child is absent and the left child is absent or not selected. *)
Theorem absent_nodes_in_evaluation
    (a v n d : Z) (l r : NodePtr)
    (sample : Hids.ProcessBehavior) (p : NewC.Process) :
  Hids.path_length NULL sample d = (IZR d + Hids.c_factor 0)%R /\
  NewC.get_path NULL p d = (IZR d + NewC.c_factor 0)%R /\
  NewC.get_path NULL p d = IZR d /\
  NewC.get_path (Node false a v NULL r n) p d =
    (if NewC.freq_at p a <? v then IZR (d + 1)
     else NewC.get_path r p (d + 1)) /\
  NewC.get_path (Node false a v l NULL n) p d =
    (if NewC.freq_at p a <? v then NewC.get_path l p (d + 1)
     else IZR (d + 1)) /\
  Hids.path_length (Node false a v NULL r n) sample d =
    (if is_null r then IZR d else Hids.path_length r sample (d + 1)) /\
  Hids.path_length (Node false a v l NULL n) sample d =
    (if (Hids.freq_at sample a <? v) && negb (is_null l)
     then Hids.path_length l sample (d + 1) else IZR d).
Proof.
  assert (En0 : forall k, NewC.get_path NULL p k = IZR k).
  { intros k. cbn -[NewC.c_factor]. rewrite newc_c_factor_le_1 by lia. lra. }
  split; [cbn -[Hids.c_factor]; rewrite hids_c_factor_le_1 by lia; lra|].
  split; [reflexivity|]. split; [apply En0|].
  split; [cbn [NewC.get_path]; destruct (_ <? _); [apply En0 | reflexivity]|].
  split; [cbn [NewC.get_path]; destruct (_ <? _); [reflexivity | apply En0]|].
  split.
  - cbn [Hids.path_length is_null negb]. rewrite andb_false_r.
    destruct (is_null r); reflexivity.
  - cbn [Hids.path_length is_null negb]. reflexivity.
Qed.

(** ** The children of internal nodes *)

(** C5, as stated, fails: the documented builder returns
    [hids_lopsided_tree] for the two samples under [fourth_rng], and the
    root of that tree is an Internal node without a left child. *)
Lemma lopsided_root_lacks_left_child :
  option_map fst
    (Hids.build_isolation_tree (Hids.build_fuel 0 Hids.MAX_TREE_DEPTH)
       hids_two_samples [0; 1] 0 Hids.MAX_TREE_DEPTH fourth_rng)
  = Some hids_lopsided_tree /\
  ~ (forall nd,
        In nd (nodes hids_lopsided_tree) ->
        node_is_leaf nd = false ->
        is_null (node_left nd) = false /\ is_null (node_right nd) = false).
Proof.
  split; [apply hids_lopsided_tree_built|]. intros H.
  destruct (H hids_lopsided_tree (or_introl eq_refl) eq_refl) as [E _].
  discriminate E.
Qed.

(** C5, amended.  In every tree that a builder returns, every Internal node
    has its right child; its left child is absent exactly when none of the
    samples that reach the node has a value of the split attribute strictly
    below the threshold, and present otherwise. *)
Theorem internal_node_children
    (hdata : list Hids.ProcessBehavior) (ndata : list NewC.Process)
    (idx : list Z) (d maxd : Z) (s : rng) :
  (exists t s',
      Hids.build_isolation_tree (Hids.build_fuel d maxd) hdata idx d maxd s
      = Some (t, s') /\
      forall nd sub,
        In (nd, sub) (reach (Hids.data_val hdata) t idx) ->
        node_is_leaf nd = false ->
        is_null (node_right nd) = false /\
        (is_null (node_left nd) = true <->
         forall i, In i sub ->
           node_split_value nd
           <= Hids.data_val hdata (node_split_attribute nd) i))
  /\
  (exists t s',
      NewC.build_tree (NewC.build_fuel d) ndata idx d s = Some (t, s') /\
      forall nd sub,
        In (nd, sub) (reach (NewC.data_val ndata) t idx) ->
        node_is_leaf nd = false ->
        is_null (node_right nd) = false /\
        (is_null (node_left nd) = true <->
         forall i, In i sub ->
           node_split_value nd
           <= NewC.data_val ndata (node_split_attribute nd) i)).
Proof.
  split.
  - destruct (hids_build_returns hdata idx d maxd s 0) as (t & s' & E & Hb).
    rewrite Nat.add_0_r in E. exists t, s'. split; [exact E|].
    intros nd sub Hin Hleaf.
    destruct (built_reach_internal _ _ _ _ _ _ _ Hb Hin Hleaf)
      as (_ & _ & Hr & Hl).
    split; assumption.
  - destruct (newc_build_returns ndata idx d s 0) as (t & s' & E & Hb).
    rewrite Nat.add_0_r in E. exists t, s'. split; [exact E|].
    intros nd sub Hin Hleaf.
    destruct (built_reach_internal _ _ _ _ _ _ _ Hb Hin Hleaf)
      as (_ & _ & Hr & Hl).
    split; assumption.
Qed.

(** C9. In every tree that a builder returns, every Internal node has a
    non-null right child: the threshold lies between the minimum and the
    maximum of the split attribute over the samples of the node, so a sample
    that attains the maximum is sent right. *)
Theorem right_child_never_absent
    (hdata : list Hids.ProcessBehavior) (ndata : list NewC.Process)
    (idx : list Z) (d maxd : Z) (s : rng) :
  (exists t s',
      Hids.build_isolation_tree (Hids.build_fuel d maxd) hdata idx d maxd s
      = Some (t, s') /\
      (forall nd, In nd (nodes t) -> node_is_leaf nd = false ->
                  is_null (node_right nd) = false) /\
      (forall nd sub,
          In (nd, sub) (reach (Hids.data_val hdata) t idx) ->
          node_is_leaf nd = false ->
          let val := Hids.data_val hdata (node_split_attribute nd) in
          fst (scan_min_max val sub) <= node_split_value nd
            <= snd (scan_min_max val sub) /\
          exists j, In j (snd (split_indices val (node_split_value nd) sub)) /\
                    val j = snd (scan_min_max val sub)))
  /\
  (exists t s',
      NewC.build_tree (NewC.build_fuel d) ndata idx d s = Some (t, s') /\
      (forall nd, In nd (nodes t) -> node_is_leaf nd = false ->
                  is_null (node_right nd) = false) /\
      (forall nd sub,
          In (nd, sub) (reach (NewC.data_val ndata) t idx) ->
          node_is_leaf nd = false ->
          let val := NewC.data_val ndata (node_split_attribute nd) in
          fst (scan_min_max val sub) <= node_split_value nd
            <= snd (scan_min_max val sub) /\
          exists j, In j (snd (split_indices val (node_split_value nd) sub)) /\
                    val j = snd (scan_min_max val sub))).
Proof.
  split.
  - destruct (hids_build_returns hdata idx d maxd s 0) as (t & s' & E & Hb).
    rewrite Nat.add_0_r in E. exists t, s'. split; [exact E|]. split.
    + intros nd Hin Hleaf.
      destruct (nodes_reached (Hids.data_val hdata) t idx nd Hin) as (sub & Hsub).
      now destruct (built_reach_internal _ _ _ _ _ _ _ Hb Hsub Hleaf)
        as (_ & _ & Hr & _).
    + intros nd sub Hin Hleaf.
      destruct (built_reach_internal _ _ _ _ _ _ _ Hb Hin Hleaf)
        as (Hv & Hmax & _). cbv zeta. split; assumption.
  - destruct (newc_build_returns ndata idx d s 0) as (t & s' & E & Hb).
    rewrite Nat.add_0_r in E. exists t, s'. split; [exact E|]. split.
    + intros nd Hin Hleaf.
      destruct (nodes_reached (NewC.data_val ndata) t idx nd Hin) as (sub & Hsub).
      now destruct (built_reach_internal _ _ _ _ _ _ _ Hb Hsub Hleaf)
        as (_ & _ & Hr & _).
    + intros nd sub Hin Hleaf.
      destruct (built_reach_internal _ _ _ _ _ _ _ Hb Hin Hleaf)
        as (Hv & Hmax & _). cbv zeta. split; assumption.
Qed.

(** ** Termination of the builders *)

(** C10. Each builder terminates for every sample set, depth and maximum
    depth: fuel [maxDepth - depth + 1] gives a tree, more fuel gives the
    same tree, the tree is at most [maxDepth - depth + 1] nodes high, and a
    call at [depth >= maxDepth] returns a Leaf at once, without a draw. *)
Theorem build_terminates
    (hdata : list Hids.ProcessBehavior) (ndata : list NewC.Process)
    (idx : list Z) (d maxd : Z) (s : rng) :
  (exists t s',
      (forall k,
          Hids.build_isolation_tree (Hids.build_fuel d maxd + k) hdata idx d
            maxd s = Some (t, s')) /\
      (height t <= Hids.build_fuel d maxd)%nat) /\
  (forall fuel j,
      Hids.build_isolation_tree (S fuel) hdata idx (maxd + Z.of_nat j) maxd s
      = Some (Node true (-1) 0 NULL NULL (Z.of_nat (length idx)), s)) /\
  (exists t s',
      (forall k,
          NewC.build_tree (NewC.build_fuel d + k) ndata idx d s
          = Some (t, s')) /\
      (height t <= NewC.build_fuel d)%nat) /\
  (forall fuel j,
      NewC.build_tree (S fuel) ndata idx (NewC.MAX_DEPTH + Z.of_nat j) s
      = Some (Node true 0 0 NULL NULL (Z.of_nat (length idx)), s)).
Proof.
  split; [|split; [|split]].
  - destruct (hids_build_returns hdata idx d maxd s 0) as (t & s' & E & Hb).
    exists t, s'. split.
    + intros k. eapply hids_build_fuel_mono; [|exact E]. lia.
    + eapply built_height, Hb.
  - intros fuel j. rewrite hids_build_step. cbv zeta.
    assert (E : (maxd + Z.of_nat j >=? maxd) = true) by (apply Z.geb_le; lia).
    rewrite E. reflexivity.
  - destruct (newc_build_returns ndata idx d s 0) as (t & s' & E & Hb).
    exists t, s'. split.
    + intros k. eapply newc_build_fuel_mono; [|exact E]. lia.
    + eapply built_height, Hb.
  - intros fuel j. rewrite newc_build_step. cbv zeta.
    assert (E : (NewC.MAX_DEPTH + Z.of_nat j >=? NewC.MAX_DEPTH) = true)
      by (apply Z.geb_le; lia).
    rewrite E. reflexivity.
Qed.

(** ** Training on an empty set *)

(** C6, as stated, fails: for an empty training set
    [train_isolation_forest] returns a forest, with its ten trees built. *)
Lemma empty_training_set_is_accepted :
  Hids.train_isolation_forest [] zero_rng = Some (hids_empty_forest, zero_rng)
  /\ length (Hids.trees hids_empty_forest) = 10%nat
  /\ Hids.train_isolation_forest [] zero_rng <> None.
Proof.
  split; [reflexivity|]. split; [reflexivity | discriminate].
Qed.

(** C6, amended.  Training does not reject an empty training set: it
    returns a complete forest of [NUM_TREES] trees, each one a single Leaf of
    size 0, with [subsample_size = 0], and draws nothing from the generator;
    every vector then scores the fallback 0.5. *)
Theorem train_on_empty_set (s : rng) (sample : Hids.ProcessBehavior) :
  Hids.train_isolation_forest [] s = Some (hids_empty_forest, s) /\
  Hids.num_trees hids_empty_forest = Hids.NUM_TREES /\
  length (Hids.trees hids_empty_forest) = Z.to_nat Hids.NUM_TREES /\
  Hids.subsample_size hids_empty_forest = 0 /\
  Forall (fun tr => Hids.root tr = Node true (-1) 0 NULL NULL 0)
         (Hids.trees hids_empty_forest) /\
  Hids.anomaly_score hids_empty_forest sample = Some 0.5%R.
Proof.
  split; [apply hids_empty_forest_trained|].
  split; [reflexivity|]. split; [reflexivity|]. split; [reflexivity|].
  split.
  - apply Forall_forall. intros tr Hin. apply repeat_spec in Hin.
    subst tr. reflexivity.
  - rewrite hids_anomaly_score_eq by discriminate.
    destruct (Req_dec_T _ 0) as [_|Hc]; [reflexivity|].
    exfalso. apply Hc. apply hids_c_factor_le_1. cbn. lia.
Qed.

(** ** The guard of the score *)

(** C7. For every trained forest and every vector, when
    [c_factor(subsample_size)] is 0, which is the case exactly when
    [subsample_size <= 1], [anomaly_score] returns the fallback 0.5 and the
    division by [c] is not taken; in every case the score has a value, no
    division being by zero.  In [new.c] the divisor
    [c_factor(SUBSAMPLE_SIZE)] is a non-zero constant and the score always
    has a value. *)
Theorem score_division_guarded
    (data : list Hids.ProcessBehavior) (s : rng)
    (f : Hids.IsolationForest) (s' : rng) (sample : Hids.ProcessBehavior) :
  Hids.train_isolation_forest data s = Some (f, s') ->
  Hids.c_factor (Hids.subsample_size f) = 0%R ->
  Hids.anomaly_score f sample = Some 0.5%R /\
  Hids.subsample_size f <= 1 /\
  (forall (data' : list Hids.ProcessBehavior) (s0 : rng)
          (f' : Hids.IsolationForest) (s0' : rng) (v : Hids.ProcessBehavior),
      Hids.train_isolation_forest data' s0 = Some (f', s0') ->
      Hids.anomaly_score f' v <> None) /\
  NewC.c_factor NewC.SUBSAMPLE_SIZE <> 0%R /\
  (forall (forest : list NodePtr) (p : NewC.Process),
      NewC.main_score forest p <> None).
Proof.
  intros Htrain Hc.
  destruct (hids_train_inv _ _ _ _ Htrain) as (Hnt & _).
  split.
  { rewrite hids_anomaly_score_eq by (rewrite Hnt; discriminate).
    destruct (Req_dec_T _ 0) as [_|Hne]; [reflexivity | contradiction]. }
  split; [now apply hids_c_factor_zero|].
  split.
  { intros data' s0 f' s0' v Htrain'.
    destruct (hids_train_inv _ _ _ _ Htrain') as (Hnt' & _).
    rewrite hids_anomaly_score_eq by (rewrite Hnt'; discriminate).
    discriminate. }
  split.
  { pose proof (newc_c_factor_pos NewC.SUBSAMPLE_SIZE
                  ltac:(unfold NewC.SUBSAMPLE_SIZE; lia)). lra. }
  intros forest p. rewrite newc_main_score_eq. discriminate.
Qed.

Lemma score_division_guarded_witness :
  Hids.train_isolation_forest [] zero_rng = Some (hids_empty_forest, zero_rng)
  /\ Hids.c_factor (Hids.subsample_size hids_empty_forest) = 0%R
  /\ Hids.anomaly_score hids_empty_forest (hids_flat 0) = Some 0.5%R.
Proof.
  split; [reflexivity|]. split; [reflexivity|].
  apply (score_division_guarded [] zero_rng hids_empty_forest zero_rng
           (hids_flat 0)); reflexivity.
Defined.

(** ** Scoring leaves the memory of the program alone *)

(** ** The heap *)

Lemma pbind_Some {A B : Type} (c : HidsMem.Prog A) (k : A -> HidsMem.Prog B)
    (m : HidsMem.Mem) (b : B) (m' : HidsMem.Mem) :
  HidsMem.pbind c k m = Some (b, m') ->
  exists a m1, c m = Some (a, m1) /\ k a m1 = Some (b, m').
Proof.
  unfold HidsMem.pbind. destruct (c m) as [[a m1]|]; [|discriminate].
  intros H. now exists a, m1.
Qed.

Lemma pbind_eval {A B : Type} (c : HidsMem.Prog A) (k : A -> HidsMem.Prog B)
    (m : HidsMem.Mem) (a : A) (m1 : HidsMem.Mem) :
  c m = Some (a, m1) -> HidsMem.pbind c k m = k a m1.
Proof. unfold HidsMem.pbind. now intros ->. Qed.

Lemma nth_error_app_here {A : Type} (l : list A) (y : A) (r : list A) :
  nth_error (l ++ y :: r) (length l) = Some y.
Proof. induction l as [|x l IH]; [reflexivity | exact IH]. Qed.

Lemma update_app_here {A : Type} (l : list A) (x y : A) (r : list A) :
  HidsMem.update (length l) x (l ++ y :: r) = l ++ x :: r.
Proof.
  induction l as [|z l IH]; [reflexivity|]. cbn. now rewrite IH.
Qed.

Lemma nth_error_app_above {A : Type} (l : list A) (x y : A) (r : list A)
    (i : nat) :
  (length l < i)%nat ->
  nth_error (l ++ x :: r) i = nth_error (l ++ y :: r) i.
Proof.
  revert i. induction l as [|z l IH]; intros [|i] H; cbn in *; try lia.
  - reflexivity.
  - apply IH. lia.
Qed.

Lemma deref_app {A : Type} (h ext : list A) (p : HidsMem.ptr) (x : A) :
  HidsMem.deref h p = Some x -> HidsMem.deref (h ++ ext) p = Some x.
Proof.
  destruct p as [|i]; [discriminate|]. cbn. intros H.
  rewrite nth_error_app1; [exact H|]. apply nth_error_Some. congruence.
Qed.

Lemma deref_update_same {A : Type} (h : list A) (p : HidsMem.ptr) (x y : A) :
  HidsMem.deref h p = Some x ->
  HidsMem.deref (HidsMem.update (pred p) y h) p = Some y.
Proof.
  destruct p as [|i]; [discriminate|]. cbn. revert i.
  induction h as [|z h IH]; intros [|i] H; cbn in *; try discriminate.
  - reflexivity.
  - now apply IH.
Qed.

Lemma nth_error_update_other {A : Type} (h : list A) (i j : nat) (y : A) :
  i <> j -> nth_error (HidsMem.update i y h) j = nth_error h j.
Proof.
  revert i j. induction h as [|z h IH]; intros [|i] [|j] H; cbn;
    try reflexivity; try congruence.
  apply IH. congruence.
Qed.

Lemma nth_error_update_same {A : Type} (h : list A) (i : nat) (y : A) :
  (i < length h)%nat -> nth_error (HidsMem.update i y h) i = Some y.
Proof.
  revert i. induction h as [|z h IH]; intros [|i] H; cbn in *; try lia.
  - reflexivity.
  - apply IH. lia.
Qed.

Lemma length_update {A : Type} (h : list A) (i : nat) (y : A) :
  length (HidsMem.update i y h) = length h.
Proof.
  revert i. induction h as [|z h IH]; intros [|i]; cbn; try reflexivity.
  now rewrite IH.
Qed.

(** An assignment to a field of the node allocated last but [r]. *)
Lemma assign_node_here (h : list HidsMem.IsolationNode)
    (nd : HidsMem.IsolationNode) (r : list HidsMem.IsolationNode)
    (f : HidsMem.IsolationNode -> HidsMem.IsolationNode)
    (th : list HidsMem.IsolationTree) (fh : list HidsMem.IsolationForest)
    (ph : list Hids.ProcessBehavior) (s : rng) (o : list HidsMem.Line) :
  HidsMem.assign_node (S (length h)) f
    (HidsMem.mkMem (h ++ nd :: r) th fh ph s o)
  = Some (tt, HidsMem.mkMem (h ++ f nd :: r) th fh ph s o).
Proof.
  unfold HidsMem.assign_node, HidsMem.pbind, HidsMem.load_node, HidsMem.read,
    HidsMem.store_node.
  mem_simpl. rewrite nth_error_app_here. mem_simpl.
  rewrite nth_error_app_here, update_app_here. reflexivity.
Qed.

Lemma create_node_spec (h : list HidsMem.IsolationNode)
    (th : list HidsMem.IsolationTree) (fh : list HidsMem.IsolationForest)
    (ph : list Hids.ProcessBehavior) (s : rng) (o : list HidsMem.Line) :
  HidsMem.create_node (HidsMem.mkMem h th fh ph s o)
  = Some (S (length h),
          HidsMem.mkMem (h ++ [HidsMem.mkIsolationNode 0 (-1) 0 O O 0])
            th fh ph s o).
Proof.
  unfold HidsMem.create_node.
  rewrite (pbind_eval _ _ _ (S (length h))
             (HidsMem.mkMem (h ++ [HidsMem.mkIsolationNode 0 0 0 O O 0])
                th fh ph s o)) by reflexivity.
  repeat (rewrite (pbind_eval _ _ _ _ _ (assign_node_here _ _ _ _ _ _ _ _ _))).
  reflexivity.
Qed.

Lemma draw_spec {A : Type} (c : M A) (a : A) (s s' : rng)
    (h : list HidsMem.IsolationNode)
    (th : list HidsMem.IsolationTree) (fh : list HidsMem.IsolationForest)
    (ph : list Hids.ProcessBehavior) (o : list HidsMem.Line) :
  c s = Some (a, s') ->
  HidsMem.draw c (HidsMem.mkMem h th fh ph s o)
  = Some (a, HidsMem.mkMem h th fh ph s' o).
Proof. unfold HidsMem.draw. cbn. now intros ->. Qed.

(** Reading the training data where the array lies in the heap. *)
Lemma load_freq_data (pre ds post : list Hids.ProcessBehavior) (i a : Z)
    (m : HidsMem.Mem) :
  HidsMem.process_heap m = pre ++ ds ++ post ->
  0 <= i < Z.of_nat (length ds) ->
  0 <= a < Hids.MAX_SYSCALLS ->
  HidsMem.load_freq (S (length pre)) i a m = Some (Hids.data_val ds a i, m).
Proof.
  intros Hm Hi Ha. unfold HidsMem.load_freq, HidsMem.read.
  destruct (Z.leb_spec 0 a); [|lia].
  destruct (Z.ltb_spec a Hids.MAX_SYSCALLS); [|lia].
  cbn [andb HidsMem.deref_at]. destruct (Z.ltb_spec i 0); [lia|].
  rewrite Hm, nth_error_app2 by lia.
  replace (length pre + Z.to_nat i - length pre)%nat with (Z.to_nat i) by lia.
  rewrite nth_error_app1 by lia.
  rewrite (nth_error_nth' ds (Hids.mkProcessBehavior [] 0 0)) by lia.
  reflexivity.
Qed.

Lemma scan_loop_spec (pre ds post : list Hids.ProcessBehavior) (a : Z)
    (m : HidsMem.Mem) (rest : list Z) :
  HidsMem.process_heap m = pre ++ ds ++ post ->
  0 <= a < Hids.MAX_SYSCALLS ->
  (forall i, In i rest -> 0 <= i < Z.of_nat (length ds)) ->
  forall mm,
    HidsMem.scan_loop (S (length pre)) a rest mm m
    = Some (fold_left (scan_step (Hids.data_val ds a)) rest mm, m).
Proof.
  intros Hm Ha. induction rest as [|i rest IH]; intros Hin mm.
  - reflexivity.
  - cbn [HidsMem.scan_loop fold_left].
    rewrite (pbind_eval _ _ _ _ _
               (load_freq_data pre ds post i a m Hm
                  (Hin i (or_introl eq_refl)) Ha)).
    apply IH. intros j Hj. apply Hin. now right.
Qed.

Lemma scan_min_max_spec (pre ds post : list Hids.ProcessBehavior) (a : Z)
    (m : HidsMem.Mem) (indices : list Z) :
  HidsMem.process_heap m = pre ++ ds ++ post ->
  0 <= a < Hids.MAX_SYSCALLS ->
  indices <> [] ->
  (forall i, In i indices -> 0 <= i < Z.of_nat (length ds)) ->
  HidsMem.scan_min_max (S (length pre)) a indices m
  = Some (scan_min_max (Hids.data_val ds a) indices, m).
Proof.
  intros Hm Ha Hne Hin. unfold HidsMem.scan_min_max, scan_min_max.
  destruct indices as [|i0 rest]; [congruence|].
  cbn [nth skipn].
  rewrite (pbind_eval _ _ _ _ _
             (load_freq_data pre ds post i0 a m Hm
                (Hin i0 (or_introl eq_refl)) Ha)).
  apply (scan_loop_spec pre ds post a m rest Hm Ha).
  intros j Hj. apply Hin. now right.
Qed.

Lemma split_indices_spec (pre ds post : list Hids.ProcessBehavior) (a v : Z)
    (m : HidsMem.Mem) (indices : list Z) :
  HidsMem.process_heap m = pre ++ ds ++ post ->
  0 <= a < Hids.MAX_SYSCALLS ->
  (forall i, In i indices -> 0 <= i < Z.of_nat (length ds)) ->
  HidsMem.split_indices (S (length pre)) a v indices m
  = Some (split_indices (Hids.data_val ds a) v indices, m).
Proof.
  intros Hm Ha. induction indices as [|i rest IH]; intros Hin.
  - reflexivity.
  - cbn [HidsMem.split_indices].
    rewrite (pbind_eval _ _ _ _ _
               (load_freq_data pre ds post i a m Hm
                  (Hin i (or_introl eq_refl)) Ha)).
    rewrite (pbind_eval _ _ _ _ _
               (IH (fun j Hj => Hin j (or_intror Hj)))).
    unfold HidsMem.pret, split_indices. cbn [partition].
    fold (split_indices (Hids.data_val ds a) v rest).
    destruct (split_indices (Hids.data_val ds a) v rest) as [g d].
    destruct (Hids.data_val ds a i <? v); reflexivity.
Qed.

(** ** Trees in the heap *)

Lemma repr_agree (h h' : list HidsMem.IsolationNode) (lo : nat)
    (t : NodePtr) :
  (forall i nd, (lo <= i)%nat -> nth_error h i = Some nd ->
                nth_error h' i = Some nd) ->
  forall p, repr h lo p t -> repr h' lo p t.
Proof.
  intros Hag. induction t as [|lf a v l IHl r IHr n]; intros p H.
  - exact H.
  - cbn [repr] in *.
    destruct H as (Hlo & nd & Hd & H1 & H2 & H3 & H4 & Hl & Hr).
    split; [exact Hlo|]. exists nd. split.
    { destruct p as [|i]; [lia|]. cbn in *. apply Hag; [lia | exact Hd]. }
    repeat (split; [assumption|]). split; [apply IHl | apply IHr]; assumption.
Qed.

Lemma repr_lower (h : list HidsMem.IsolationNode) (lo lo' : nat)
    (t : NodePtr) :
  (lo' <= lo)%nat -> forall p, repr h lo p t -> repr h lo' p t.
Proof.
  intros Hle. induction t as [|lf a v l IHl r IHr n]; intros p H.
  - exact H.
  - cbn [repr] in *.
    destruct H as (Hlo & nd & Hd & H1 & H2 & H3 & H4 & Hl & Hr).
    split; [lia|]. exists nd.
    repeat (split; [assumption|]). split; [apply IHl | apply IHr]; assumption.
Qed.

Lemma repr_app (h ext : list HidsMem.IsolationNode) (lo : nat) (t : NodePtr)
    (p : HidsMem.ptr) :
  repr h lo p t -> repr (h ++ ext) lo p t.
Proof.
  apply repr_agree. intros i nd _ H.
  rewrite nth_error_app1; [exact H|]. apply nth_error_Some. congruence.
Qed.

(** The nodes above a node do not depend on what the node holds. *)
Lemma repr_above (h : list HidsMem.IsolationNode)
    (x y : HidsMem.IsolationNode) (r : list HidsMem.IsolationNode)
    (lo : nat) (t : NodePtr) (p : HidsMem.ptr) :
  (length h < lo)%nat ->
  repr (h ++ x :: r) lo p t -> repr (h ++ y :: r) lo p t.
Proof.
  intros Hlo. apply repr_agree. intros i nd Hi H.
  rewrite (nth_error_app_above h y x r i) by lia. exact H.
Qed.

Lemma heap_build_step (fuel : nat) (data : HidsMem.ptr) (indices : list Z)
    (current_depth max_depth : Z) :
  HidsMem.build_isolation_tree (S fuel) data indices current_depth max_depth
  = let n := Z.of_nat (length indices) in
    HidsMem.pbind HidsMem.create_node (fun node =>
    HidsMem.pbind (HidsMem.assign_node node (HidsMem.set_size n)) (fun _ =>
    if (current_depth >=? max_depth) || (n <=? 1) then
      HidsMem.pbind (HidsMem.assign_node node (HidsMem.set_is_leaf 1))
        (fun _ => HidsMem.pret node)
    else
      HidsMem.pbind
        (HidsMem.draw (Hids.random_int 0 (Hids.MAX_SYSCALLS - 1))) (fun a =>
      HidsMem.pbind
        (HidsMem.assign_node node (HidsMem.set_split_attribute a)) (fun _ =>
      HidsMem.pbind (HidsMem.scan_min_max data a indices) (fun mm =>
      if fst mm =? snd mm then
        HidsMem.pbind (HidsMem.assign_node node (HidsMem.set_is_leaf 1))
          (fun _ => HidsMem.pret node)
      else
        HidsMem.pbind (HidsMem.draw (Hids.random_int (fst mm) (snd mm)))
          (fun v =>
        HidsMem.pbind
          (HidsMem.assign_node node (HidsMem.set_split_value v)) (fun _ =>
        HidsMem.pbind (HidsMem.split_indices data a v indices) (fun lr =>
        HidsMem.pbind
          (if Z.of_nat (length (fst lr)) >? 0 then
             HidsMem.pbind
               (HidsMem.build_isolation_tree fuel data (fst lr)
                  (current_depth + 1) max_depth)
               (fun l => HidsMem.assign_node node (HidsMem.set_left l))
           else HidsMem.pret tt) (fun _ =>
        HidsMem.pbind
          (if Z.of_nat (length (snd lr)) >? 0 then
             HidsMem.pbind
               (HidsMem.build_isolation_tree fuel data (snd lr)
                  (current_depth + 1) max_depth)
               (fun r => HidsMem.assign_node node (HidsMem.set_right r))
           else HidsMem.pret tt) (fun _ =>
        HidsMem.pret node)))))))))).
Proof. reflexivity. Qed.

(** The builder over the heap allocates the tree that the builder of
    module [Hids] returns, above everything allocated before, and leaves
    the rest of the memory as it was; it draws from the generator what that
    builder draws. *)
Lemma build_refines (fuel : nat) :
  forall (ds : list Hids.ProcessBehavior) (idx : list Z) (d maxd : Z)
         (s : rng) (t : NodePtr) (s' : rng)
         (pre post : list Hids.ProcessBehavior)
         (h : list HidsMem.IsolationNode)
         (th : list HidsMem.IsolationTree)
         (fh : list HidsMem.IsolationForest) (o : list HidsMem.Line),
    Hids.build_isolation_tree fuel ds idx d maxd s = Some (t, s') ->
    (forall i, In i idx -> 0 <= i < Z.of_nat (length ds)) ->
    exists nd ext,
      HidsMem.build_isolation_tree fuel (S (length pre)) idx d maxd
        (HidsMem.mkMem h th fh (pre ++ ds ++ post) s o)
      = Some (S (length h),
              HidsMem.mkMem (h ++ nd :: ext) th fh (pre ++ ds ++ post) s' o)
      /\ repr (h ++ nd :: ext) (length h) (S (length h)) t.
Proof.
  induction fuel as [|fuel IH];
    intros ds idx d maxd s t s' pre post h th fh o H Hin; [discriminate|].
  rewrite hids_build_step in H. cbv zeta in H.
  rewrite heap_build_step. cbv zeta.
  rewrite (pbind_eval _ _ _ _ _ (create_node_spec h th fh _ s o)).
  rewrite (pbind_eval _ _ _ _ _ (assign_node_here h _ [] _ th fh _ s o)).
  set (n := Z.of_nat (length idx)) in *.
  destruct ((d >=? maxd) || (n <=? 1)) eqn:Estop.
  { apply ret_Some in H. inversion H; subst t s'. clear H.
    rewrite (pbind_eval _ _ _ _ _ (assign_node_here h _ [] _ th fh _ s o)).
    eexists _, []. split; [reflexivity|].
    cbn [repr]. split; [lia|]. eexists. split.
    { cbn [HidsMem.deref]. apply nth_error_app_here. }
    cbn. repeat split. }
  apply bind_Some in H as (a & s1 & Ha & H).
  assert (Harange : 0 <= a < Hids.MAX_SYSCALLS).
  { apply hids_random_int_range in Ha; unfold Hids.MAX_SYSCALLS in *; lia. }
  assert (Hne : idx <> []).
  { intros ->. apply orb_false_iff in Estop as [_ E].
    apply Z.leb_gt in E. subst n. cbn in E. lia. }
  rewrite (pbind_eval _ _ _ _ _ (draw_spec _ _ _ _ _ th fh _ o Ha)).
  rewrite (pbind_eval _ _ _ _ _ (assign_node_here h _ [] _ th fh _ s1 o)).
  rewrite (pbind_eval _ _ _ _ _
             (scan_min_max_spec pre ds post a
                (HidsMem.mkMem _ th fh (pre ++ ds ++ post) s1 o) idx eq_refl
                Harange Hne Hin)).
  destruct (fst (scan_min_max (Hids.data_val ds a) idx)
            =? snd (scan_min_max (Hids.data_val ds a) idx)).
  { apply ret_Some in H. inversion H; subst t s'. clear H.
    rewrite (pbind_eval _ _ _ _ _ (assign_node_here h _ [] _ th fh _ s1 o)).
    eexists _, []. split; [reflexivity|].
    cbn [repr]. split; [lia|]. eexists. split.
    { cbn [HidsMem.deref]. apply nth_error_app_here. }
    cbn. repeat split. }
  apply bind_Some in H as (v & s2 & Hv & H).
  rewrite (pbind_eval _ _ _ _ _ (draw_spec _ _ _ _ _ th fh _ o Hv)).
  rewrite (pbind_eval _ _ _ _ _ (assign_node_here h _ [] _ th fh _ s2 o)).
  rewrite (pbind_eval _ _ _ _ _
             (split_indices_spec pre ds post a v
                (HidsMem.mkMem _ th fh (pre ++ ds ++ post) s2 o) idx eq_refl
                Harange Hin)).
  pose proof (split_indices_filter (Hids.data_val ds a) v idx) as Elr.
  set (lr := split_indices (Hids.data_val ds a) v idx) in *.
  assert (Hinl : forall i, In i (fst lr) -> 0 <= i < Z.of_nat (length ds)).
  { intros i Hi. rewrite Elr in Hi. apply filter_In in Hi as [Hi _].
    now apply Hin. }
  assert (Hinr : forall i, In i (snd lr) -> 0 <= i < Z.of_nat (length ds)).
  { intros i Hi. rewrite Elr in Hi. apply filter_In in Hi as [Hi _].
    now apply Hin. }
  clear Elr.
  apply bind_Some in H as (l & s3 & Hl & H).
  apply bind_Some in H as (r & s4 & Hr & H).
  apply ret_Some in H. inversion H; subst t s'. clear H.
  set (nd0 := HidsMem.set_split_value v _).
  (* the left child *)
  assert (Hleft : exists ndl rl,
    (if Z.of_nat (length (fst lr)) >? 0 then
       HidsMem.pbind
         (HidsMem.build_isolation_tree fuel (S (length pre)) (fst lr)
            (d + 1) maxd)
         (fun l => HidsMem.assign_node (S (length h)) (HidsMem.set_left l))
     else HidsMem.pret tt)
      (HidsMem.mkMem (h ++ [nd0]) th fh (pre ++ ds ++ post) s2 o)
    = Some (tt, HidsMem.mkMem (h ++ ndl :: rl) th fh (pre ++ ds ++ post)
                  s3 o) /\
    HidsMem.is_leaf ndl = 0 /\ HidsMem.split_attribute ndl = a /\
    HidsMem.split_value ndl = v /\ HidsMem.size ndl = n /\
    HidsMem.right ndl = O /\
    repr (h ++ ndl :: rl) (S (length h)) (HidsMem.left ndl) l).
  { destruct (Z.of_nat (length (fst lr)) >? 0).
    - destruct (IH ds (fst lr) (d + 1) maxd s2 l s3 pre post (h ++ [nd0])
                  th fh o Hl Hinl) as (ndc & extc & Ec & Hc).
      rewrite length_app in Ec, Hc. cbn [length] in Ec, Hc.
      rewrite Nat.add_1_r in Ec, Hc.
      rewrite <- app_assoc in Ec, Hc. cbn [app] in Ec, Hc.
      exists (HidsMem.set_left (S (S (length h))) nd0), (ndc :: extc).
      split.
      { rewrite (pbind_eval _ _ _ _ _ Ec). apply assign_node_here. }
      cbn. repeat split.
      eapply repr_above; [lia | exact Hc].
    - apply ret_Some in Hl. inversion Hl; subst l s3.
      exists nd0, []. split; [reflexivity|]. cbn. repeat split. }
  destruct Hleft as (ndl & rl & El & Hf1 & Hf2 & Hf3 & Hf4 & Hf5 & Hreprl).
  rewrite (pbind_eval _ _ _ _ _ El).
  (* the right child *)
  assert (Hright : exists ndr rr,
    (if Z.of_nat (length (snd lr)) >? 0 then
       HidsMem.pbind
         (HidsMem.build_isolation_tree fuel (S (length pre)) (snd lr)
            (d + 1) maxd)
         (fun r => HidsMem.assign_node (S (length h)) (HidsMem.set_right r))
     else HidsMem.pret tt)
      (HidsMem.mkMem (h ++ ndl :: rl) th fh (pre ++ ds ++ post) s3 o)
    = Some (tt, HidsMem.mkMem (h ++ ndr :: rr) th fh (pre ++ ds ++ post)
                  s4 o) /\
    HidsMem.is_leaf ndr = 0 /\ HidsMem.split_attribute ndr = a /\
    HidsMem.split_value ndr = v /\ HidsMem.size ndr = n /\
    repr (h ++ ndr :: rr) (S (length h)) (HidsMem.left ndr) l /\
    repr (h ++ ndr :: rr) (S (length h)) (HidsMem.right ndr) r).
  { destruct (Z.of_nat (length (snd lr)) >? 0).
    - destruct (IH ds (snd lr) (d + 1) maxd s3 r s4 pre post
                  (h ++ ndl :: rl) th fh o Hr Hinr)
        as (ndc & extc & Ec & Hc).
      rewrite <- app_assoc in Ec, Hc. cbn [app] in Ec, Hc.
      exists (HidsMem.set_right (S (length (h ++ ndl :: rl))) ndl),
        (rl ++ ndc :: extc).
      split.
      { rewrite (pbind_eval _ _ _ _ _ Ec). apply assign_node_here. }
      cbn [HidsMem.set_right HidsMem.is_leaf HidsMem.split_attribute
           HidsMem.split_value HidsMem.size HidsMem.left HidsMem.right].
      repeat (split; [assumption|]). split.
      + apply (repr_above h ndl _ (rl ++ ndc :: extc)); [lia|].
        replace (h ++ ndl :: rl ++ ndc :: extc)
          with ((h ++ ndl :: rl) ++ ndc :: extc)
          by (rewrite <- app_assoc; reflexivity).
        apply repr_app. exact Hreprl.
      + apply (repr_above h ndl _ (rl ++ ndc :: extc)); [lia|].
        eapply repr_lower; [|exact Hc]. rewrite length_app. cbn. lia.
    - apply ret_Some in Hr. inversion Hr; subst r s4.
      exists ndl, rl. split; [reflexivity|].
      repeat (split; [assumption|]). cbn [repr]. exact Hf5. }
  destruct Hright as (ndr & rr & Er & Hg1 & Hg2 & Hg3 & Hg4 & Hgl & Hgr).
  rewrite (pbind_eval _ _ _ _ _ Er).
  exists ndr, rr. split; [reflexivity|].
  cbn [repr]. split; [lia|]. exists ndr. split.
  { cbn [HidsMem.deref]. apply nth_error_app_here. }
  repeat (split; [assumption|]).
  split; (eapply repr_lower; [|eassumption]); lia.
Qed.

(** ** The evaluator over the heap *)

Lemma repr_null (h : list HidsMem.IsolationNode) (lo : nat)
    (p : HidsMem.ptr) (t : NodePtr) :
  repr h lo p t -> (p =? O)%nat = is_null t.
Proof.
  destruct t as [|lf a v l r n]; cbn [repr is_null].
  - now intros ->.
  - intros [Hlo _]. apply Nat.eqb_neq. lia.
Qed.

Lemma load_freq_sample (sp : HidsMem.ptr) (sample : Hids.ProcessBehavior)
    (a : Z) (m : HidsMem.Mem) :
  HidsMem.deref (HidsMem.process_heap m) sp = Some sample ->
  0 <= a < Hids.MAX_SYSCALLS ->
  HidsMem.load_freq sp 0 a m = Some (Hids.freq_at sample a, m).
Proof.
  intros Hs Ha. unfold HidsMem.load_freq, HidsMem.read.
  destruct (Z.leb_spec 0 a); [|lia].
  destruct (Z.ltb_spec a Hids.MAX_SYSCALLS); [|lia].
  cbn [andb]. destruct sp as [|b]; [discriminate|].
  cbn [HidsMem.deref_at HidsMem.deref Z.ltb Z.compare Z.to_nat] in *.
  rewrite Nat.add_0_r, Hs. reflexivity.
Qed.

Lemma attributes_in_range_left (lf : bool) (a v : Z) (l r : NodePtr) (n : Z) :
  attributes_in_range (Node lf a v l r n) -> attributes_in_range l.
Proof.
  intros H nd Hin. apply H. cbn [nodes]. right. apply in_or_app. now left.
Qed.

Lemma attributes_in_range_right (lf : bool) (a v : Z) (l r : NodePtr)
    (n : Z) :
  attributes_in_range (Node lf a v l r n) -> attributes_in_range r.
Proof.
  intros H nd Hin. apply H. cbn [nodes]. right. apply in_or_app. now right.
Qed.

Lemma heap_path_length_step (fuel : nat) (node sample : HidsMem.ptr)
    (current_depth : Z) :
  HidsMem.path_length (S fuel) node sample current_depth
  = if (node =? O)%nat then HidsMem.pret (IZR current_depth)
    else
      HidsMem.pbind (HidsMem.load_node node) (fun nd =>
      if negb (HidsMem.is_leaf nd =? 0) then
        HidsMem.pret
          (IZR current_depth + Hids.c_factor (HidsMem.size nd))%R
      else
        HidsMem.pbind
          (HidsMem.load_freq sample 0 (HidsMem.split_attribute nd))
          (fun val =>
        if (val <? HidsMem.split_value nd)
           && negb (HidsMem.left nd =? O)%nat then
          HidsMem.path_length fuel (HidsMem.left nd) sample
            (current_depth + 1)
        else if negb (HidsMem.right nd =? O)%nat then
          HidsMem.path_length fuel (HidsMem.right nd) sample
            (current_depth + 1)
        else HidsMem.pret (IZR current_depth))).
Proof. reflexivity. Qed.

(** On a tree of the heap the evaluator returns what [Hids.path_length]
    returns on the tree, as soon as the fuel exceeds the height. *)
Lemma path_length_refines (m : HidsMem.Mem) (sp : HidsMem.ptr)
    (sample : Hids.ProcessBehavior) (lo : nat) (t : NodePtr) :
  HidsMem.deref (HidsMem.process_heap m) sp = Some sample ->
  forall (p : HidsMem.ptr) (d : Z) (fuel : nat),
    repr (HidsMem.node_heap m) lo p t ->
    attributes_in_range t ->
    (height t < fuel)%nat ->
    HidsMem.path_length fuel p sp d m
    = Some (Hids.path_length t sample d, m).
Proof.
  intros Hs. induction t as [|lf a v l IHl r IHr n];
    intros p d fuel Hrepr Hattr Hfuel;
    (destruct fuel as [|fuel]; [lia|]); rewrite heap_path_length_step;
    rewrite (repr_null _ _ _ _ Hrepr); cbn [is_null].
  - reflexivity.
  - cbn [repr] in Hrepr.
    destruct Hrepr as (Hlo & nd & Hd & H1 & H2 & H3 & H4 & Hl & Hr).
    assert (El : HidsMem.load_node p m = Some (nd, m)).
    { unfold HidsMem.load_node, HidsMem.read. now rewrite Hd. }
    rewrite (pbind_eval _ _ _ _ _ El). rewrite H1, H2, H3, H4.
    cbn [Hids.path_length height] in *. destruct lf; [reflexivity|].
    cbn [Z.eqb negb].
    assert (Ha : 0 <= a < Hids.MAX_SYSCALLS).
    { apply (Hattr (Node false a v l r n)); [now left | reflexivity]. }
    rewrite (pbind_eval _ _ _ _ _ (load_freq_sample sp sample a m Hs Ha)).
    rewrite (repr_null _ _ _ _ Hl), (repr_null _ _ _ _ Hr).
    destruct ((Hids.freq_at sample a <? v) && negb (is_null l)).
    + apply IHl; [exact Hl | eapply attributes_in_range_left, Hattr | lia].
    + destruct (negb (is_null r)); [|reflexivity].
      apply IHr; [exact Hr | eapply attributes_in_range_right, Hattr | lia].
Qed.

(** ** Statements that only read *)

Lemma reads_only_pret {A : Type} (a : A) :
  HidsMem.reads_only (HidsMem.pret a).
Proof. intros m x m' H. now inversion H. Qed.

Lemma reads_only_fault {A : Type} : HidsMem.reads_only (@HidsMem.fault A).
Proof. intros m x m' H. discriminate. Qed.

Lemma reads_only_read {A : Type} (get : HidsMem.Mem -> option A) :
  HidsMem.reads_only (HidsMem.read get).
Proof.
  intros m x m'. unfold HidsMem.read. destruct (get m); [|discriminate].
  intros H. now inversion H.
Qed.

Lemma reads_only_pbind {A B : Type} (c : HidsMem.Prog A)
    (k : A -> HidsMem.Prog B) :
  HidsMem.reads_only c -> (forall a, HidsMem.reads_only (k a)) ->
  HidsMem.reads_only (HidsMem.pbind c k).
Proof.
  intros Hc Hk m b m' H. apply pbind_Some in H as (a & m1 & H1 & H2).
  apply Hc in H1. subst m1. now apply Hk in H2.
Qed.

Lemma reads_only_divide (x y : R) : HidsMem.reads_only (HidsMem.divide x y).
Proof.
  unfold HidsMem.divide. destruct (fdiv x y);
    [apply reads_only_pret | apply reads_only_fault].
Qed.

Lemma reads_only_path_length (fuel : nat) :
  forall (node sample : HidsMem.ptr) (d : Z),
    HidsMem.reads_only (HidsMem.path_length fuel node sample d).
Proof.
  induction fuel as [|fuel IH]; intros node sample d;
    [apply reads_only_fault|].
  rewrite heap_path_length_step.
  destruct (node =? O)%nat; [apply reads_only_pret|].
  apply reads_only_pbind; [apply reads_only_read|]. intros nd.
  destruct (negb (HidsMem.is_leaf nd =? 0)); [apply reads_only_pret|].
  apply reads_only_pbind; [apply reads_only_read|]. intros val.
  destruct (_ && _); [apply IH|].
  destruct (negb _); [apply IH | apply reads_only_pret].
Qed.

Lemma reads_only_score_loop (fuel : nat) :
  forall (depth : nat) (forest sample : HidsMem.ptr) (t : Z) (acc : R),
    HidsMem.reads_only (HidsMem.score_loop fuel depth forest sample t acc).
Proof.
  induction fuel as [|fuel IH]; intros depth forest sample t acc;
    [apply reads_only_fault|].
  cbn [HidsMem.score_loop].
  apply reads_only_pbind; [apply reads_only_read|]. intros fr.
  destruct (t <? HidsMem.num_trees fr); [|apply reads_only_pret].
  apply reads_only_pbind; [apply reads_only_read|]. intros tp.
  apply reads_only_pbind; [apply reads_only_read|]. intros tr.
  apply reads_only_pbind; [apply reads_only_path_length|]. intros len.
  apply IH.
Qed.

Lemma reads_only_anomaly_score (fuel : nat) (forest sample : HidsMem.ptr) :
  HidsMem.reads_only (HidsMem.anomaly_score fuel forest sample).
Proof.
  unfold HidsMem.anomaly_score.
  apply reads_only_pbind; [apply reads_only_score_loop|]. intros total.
  apply reads_only_pbind; [apply reads_only_read|]. intros fr.
  apply reads_only_pbind; [apply reads_only_divide|]. intros avg.
  apply reads_only_pbind; [apply reads_only_read|]. intros fr'.
  cbv zeta. destruct (Req_dec_T _ 0); [apply reads_only_pret|].
  apply reads_only_pbind; [apply reads_only_divide|]. intros e.
  apply reads_only_pret.
Qed.

(** ** Training over the heap *)

Lemma load_forest_here (fh0 : list HidsMem.IsolationForest)
    (fc : HidsMem.IsolationForest) (fh1 : list HidsMem.IsolationForest)
    (h : list HidsMem.IsolationNode) (th : list HidsMem.IsolationTree)
    (ph : list Hids.ProcessBehavior) (s : rng) (o : list HidsMem.Line) :
  HidsMem.load_forest (S (length fh0))
    (HidsMem.mkMem h th (fh0 ++ fc :: fh1) ph s o)
  = Some (fc, HidsMem.mkMem h th (fh0 ++ fc :: fh1) ph s o).
Proof.
  unfold HidsMem.load_forest, HidsMem.read. mem_simpl.
  now rewrite nth_error_app_here.
Qed.

Lemma assign_forest_here (fh0 : list HidsMem.IsolationForest)
    (fc : HidsMem.IsolationForest) (fh1 : list HidsMem.IsolationForest)
    (f : HidsMem.IsolationForest -> HidsMem.IsolationForest)
    (h : list HidsMem.IsolationNode) (th : list HidsMem.IsolationTree)
    (ph : list Hids.ProcessBehavior) (s : rng) (o : list HidsMem.Line) :
  HidsMem.assign_forest (S (length fh0)) f
    (HidsMem.mkMem h th (fh0 ++ fc :: fh1) ph s o)
  = Some (tt, HidsMem.mkMem h th (fh0 ++ f fc :: fh1) ph s o).
Proof.
  unfold HidsMem.assign_forest.
  rewrite (pbind_eval _ _ _ _ _ (load_forest_here _ _ _ _ _ _ _ _)).
  unfold HidsMem.store_forest. mem_simpl.
  rewrite nth_error_app_here, update_app_here. reflexivity.
Qed.

Lemma assign_tree_here (th : list HidsMem.IsolationTree)
    (tc : HidsMem.IsolationTree) (r : list HidsMem.IsolationTree)
    (f : HidsMem.IsolationTree -> HidsMem.IsolationTree)
    (h : list HidsMem.IsolationNode) (fh : list HidsMem.IsolationForest)
    (ph : list Hids.ProcessBehavior) (s : rng) (o : list HidsMem.Line) :
  HidsMem.assign_tree (S (length th)) f
    (HidsMem.mkMem h (th ++ tc :: r) fh ph s o)
  = Some (tt, HidsMem.mkMem h (th ++ f tc :: r) fh ph s o).
Proof.
  unfold HidsMem.assign_tree, HidsMem.pbind, HidsMem.load_tree, HidsMem.read,
    HidsMem.store_tree.
  mem_simpl. rewrite nth_error_app_here. mem_simpl.
  rewrite nth_error_app_here, update_app_here. reflexivity.
Qed.

Lemma load_tree_ptr_here (fh0 : list HidsMem.IsolationForest)
    (done : list HidsMem.ptr) (x : HidsMem.ptr) (todo : list HidsMem.ptr)
    (nt ss : Z) (fh1 : list HidsMem.IsolationForest)
    (h : list HidsMem.IsolationNode) (th : list HidsMem.IsolationTree)
    (ph : list Hids.ProcessBehavior) (s : rng) (o : list HidsMem.Line) :
  let m := HidsMem.mkMem h th
             (fh0 ++ HidsMem.mkIsolationForest (done ++ x :: todo) nt ss
                  :: fh1) ph s o in
  HidsMem.load_tree_ptr (S (length fh0)) (Z.of_nat (length done)) m
  = Some (x, m).
Proof.
  cbv zeta. unfold HidsMem.load_tree_ptr, HidsMem.read. mem_simpl.
  rewrite nth_error_app_here. cbn [HidsMem.trees].
  destruct (Z.ltb_spec (Z.of_nat (length done)) 0); [lia|].
  rewrite Nat2Z.id, nth_error_app_here. reflexivity.
Qed.

Lemma assign_tree_ptr_here (fh0 : list HidsMem.IsolationForest)
    (done : list HidsMem.ptr) (x v : HidsMem.ptr) (todo : list HidsMem.ptr)
    (nt ss : Z) (fh1 : list HidsMem.IsolationForest)
    (h : list HidsMem.IsolationNode) (th : list HidsMem.IsolationTree)
    (ph : list Hids.ProcessBehavior) (s : rng) (o : list HidsMem.Line) :
  HidsMem.assign_tree_ptr (S (length fh0)) (Z.of_nat (length done)) v
    (HidsMem.mkMem h th
       (fh0 ++ HidsMem.mkIsolationForest (done ++ x :: todo) nt ss :: fh1)
       ph s o)
  = Some (tt,
          HidsMem.mkMem h th
            (fh0 ++ HidsMem.mkIsolationForest (done ++ v :: todo) nt ss
                 :: fh1) ph s o).
Proof.
  unfold HidsMem.assign_tree_ptr.
  rewrite (pbind_eval _ _ _ _ _ (load_forest_here _ _ _ _ _ _ _ _)).
  cbn [HidsMem.trees HidsMem.num_trees HidsMem.subsample_size].
  destruct (Z.leb_spec 0 (Z.of_nat (length done))); [|lia].
  rewrite Nat2Z.id.
  assert (E : (length done <? length (done ++ x :: todo))%nat = true).
  { apply Nat.ltb_lt. rewrite length_app. cbn. lia. }
  rewrite E. cbn [andb]. unfold HidsMem.store_forest. mem_simpl.
  rewrite nth_error_app_here, !update_app_here. reflexivity.
Qed.

(** The loop of training over the heap builds the trees that
    [Hids.train_trees] returns: it fills the rest of the array of the forest
    with pointers to new tree records, allocates the nodes above everything
    allocated before, and touches nothing else but the generator and the
    output. *)
Lemma train_loop_refines (k : nat) :
  forall (ds : list Hids.ProcessBehavior) (ss : Z) (s : rng)
         (ts : list Hids.IsolationTree) (s' : rng)
         (pre post : list Hids.ProcessBehavior)
         (h : list HidsMem.IsolationNode) (th : list HidsMem.IsolationTree)
         (fh0 fh1 : list HidsMem.IsolationForest)
         (done todo : list HidsMem.ptr) (nt : Z) (o : list HidsMem.Line),
    Hids.train_trees k ds ss s = Some (ts, s') ->
    0 <= ss <= Z.of_nat (length ds) ->
    length todo = k ->
    exists ext text ptrs lines,
      HidsMem.train_loop k (S (length fh0)) (S (length pre))
        (Z.of_nat (length ds)) (Z.of_nat (length done))
        (HidsMem.mkMem h th
           (fh0 ++ HidsMem.mkIsolationForest (done ++ todo) nt ss :: fh1)
           (pre ++ ds ++ post) s o)
      = Some (tt,
              HidsMem.mkMem (h ++ ext) (th ++ text)
                (fh0 ++ HidsMem.mkIsolationForest (done ++ ptrs) nt ss
                     :: fh1)
                (pre ++ ds ++ post) s' (o ++ lines)) /\
      length lines = k /\
      Forall2
        (fun tp tr =>
           exists tc,
             HidsMem.deref (th ++ text) tp = Some tc /\
             HidsMem.max_depth tc = Hids.max_depth tr /\
             repr (h ++ ext) 0 (HidsMem.root tc) (Hids.root tr))
        ptrs ts.
Proof.
  induction k as [|k IH];
    intros ds ss s ts s' pre post h th fh0 fh1 done todo nt o H Hss Hlen.
  - apply ret_Some in H. inversion H; subst ts s'.
    destruct todo; [|discriminate].
    exists [], [], [], []. rewrite !app_nil_r.
    split; [reflexivity|]. split; [reflexivity | constructor].
  - destruct todo as [|x todo]; [discriminate|].
    cbn [Hids.train_trees] in H.
    apply bind_Some in H as (idx & s1 & Hidx & H).
    apply bind_Some in H as (rt & s2 & Hrt & H).
    apply bind_Some in H as (rest & s3 & Hrest & H).
    apply ret_Some in H. inversion H; subst ts s'. clear H.
    assert (Hin : forall i, In i idx -> 0 <= i < Z.of_nat (length ds)).
    { destruct (Z.le_gt_cases 1 (Z.of_nat (length ds))) as [Hn|Hn].
      - now destruct (hids_draw_indices_range _ _ _ _ _ Hn Hidx).
      - replace (Z.to_nat ss) with O in Hidx by lia.
        apply ret_Some in Hidx. inversion Hidx; subst. intros i []. }
    cbn [HidsMem.train_loop].
    rewrite (pbind_eval _ _ _ _ _ (load_forest_here _ _ _ _ _ _ _ _)).
    cbn [HidsMem.subsample_size].
    rewrite (pbind_eval _ _ _ _ _ (draw_spec _ _ _ _ _ _ _ _ _ Hidx)).
    rewrite (pbind_eval _ _ _ (S (length th))
               (HidsMem.mkMem h (th ++ [HidsMem.mkIsolationTree O 0])
                  (fh0 ++ HidsMem.mkIsolationForest (done ++ x :: todo) nt ss
                       :: fh1) (pre ++ ds ++ post) s1 o)) by reflexivity.
    rewrite (pbind_eval _ _ _ _ _
               (assign_tree_ptr_here _ _ _ _ _ _ _ _ _ _ _ _ _)).
    rewrite (pbind_eval _ _ _ _ _
               (load_tree_ptr_here _ _ _ _ _ _ _ _ _ _ _ _)).
    rewrite (pbind_eval _ _ _ _ _ (assign_tree_here _ _ [] _ _ _ _ _ _)).
    destruct (build_refines _ _ _ _ _ _ _ _ pre post h
                (th ++ [HidsMem.set_max_depth Hids.MAX_TREE_DEPTH
                          (HidsMem.mkIsolationTree O 0)])
                (fh0 ++ HidsMem.mkIsolationForest
                          (done ++ S (length th) :: todo) nt ss :: fh1)
                o Hrt Hin) as (nd & ext & Eb & Hb).
    rewrite (pbind_eval _ _ _ _ _ Eb).
    rewrite (pbind_eval _ _ _ _ _
               (load_tree_ptr_here _ _ _ _ _ _ _ _ _ _ _ _)).
    rewrite (pbind_eval _ _ _ _ _ (assign_tree_here _ _ [] _ _ _ _ _ _)).
    unfold HidsMem.printf at 1. unfold HidsMem.pbind at 1. mem_simpl.
    cbv beta iota delta [HidsMem.set_root HidsMem.set_max_depth HidsMem.root
                         HidsMem.max_depth].
    destruct (IH ds ss s2 rest s3 pre post (h ++ nd :: ext)
                (th ++ [HidsMem.mkIsolationTree (S (length h))
                          Hids.MAX_TREE_DEPTH])
                fh0 fh1 (done ++ [S (length th)]) todo nt
                (o ++ [HidsMem.TreeBuilt (Z.of_nat (length done) + 1)])
                Hrest Hss ltac:(cbn in Hlen; lia))
      as (ext' & text' & ptrs & lines & El & Hlines & Hall).
    rewrite length_app, Nat2Z.inj_add in El. cbn [length Z.of_nat] in El.
    change (Z.pos (Pos.of_succ_nat 0)) with 1 in El.
    repeat rewrite <- app_assoc in El. cbn [app] in El.
    rewrite El.
    exists (nd :: ext ++ ext'),
      (HidsMem.mkIsolationTree (S (length h)) Hids.MAX_TREE_DEPTH :: text'),
      (S (length th) :: ptrs),
      (HidsMem.TreeBuilt (Z.of_nat (length done) + 1) :: lines).
    split; [reflexivity|].
    split; [cbn; lia|].
    repeat rewrite <- app_assoc in Hall. cbn [app] in Hall.
    constructor; [|exact Hall].
    exists (HidsMem.mkIsolationTree (S (length h)) Hids.MAX_TREE_DEPTH).
    split; [cbn [HidsMem.deref]; apply nth_error_app_here|].
    split; [reflexivity|].
    cbn [HidsMem.root Hids.root].
    change (h ++ nd :: ext ++ ext') with (h ++ (nd :: ext) ++ ext').
    rewrite app_assoc. apply repr_app.
    eapply repr_lower; [|exact Hb]. lia.
Qed.

Lemma train_refines (ds : list Hids.ProcessBehavior) (s : rng)
    (f : Hids.IsolationForest) (s' : rng)
    (pre post : list Hids.ProcessBehavior)
    (h : list HidsMem.IsolationNode) (th : list HidsMem.IsolationTree)
    (fh : list HidsMem.IsolationForest) (o : list HidsMem.Line) :
  Hids.train_isolation_forest ds s = Some (f, s') ->
  exists ext text ptrs lines,
    let m1 := HidsMem.mkMem (h ++ ext) (th ++ text)
                (fh ++ [HidsMem.mkIsolationForest ptrs Hids.NUM_TREES
                          (Hids.subsample_size f)])
                (pre ++ ds ++ post) s' (o ++ lines) in
    HidsMem.train_isolation_forest (S (length pre)) (Z.of_nat (length ds))
      (HidsMem.mkMem h th fh (pre ++ ds ++ post) s o)
    = Some (S (length fh), m1) /\
    lines <> [] /\
    repr_forest m1 (S (length fh)) f.
Proof.
  intros H. unfold Hids.train_isolation_forest in H. cbv zeta in H.
  apply bind_Some in H as (ts & s1 & Hts & H).
  apply ret_Some in H. inversion H; subst f s'. clear H.
  set (ss := if Hids.SUBSAMPLE_SIZE <? Z.of_nat (length ds)
             then Hids.SUBSAMPLE_SIZE else Z.of_nat (length ds)) in *.
  assert (Hss : 0 <= ss <= Z.of_nat (length ds)).
  { subst ss. unfold Hids.SUBSAMPLE_SIZE.
    destruct (Z.ltb_spec 8 (Z.of_nat (length ds))); lia. }
  unfold HidsMem.train_isolation_forest.
  rewrite (pbind_eval _ _ _ (S (length fh))
             (HidsMem.mkMem h th
                (fh ++ [HidsMem.mkIsolationForest
                          (repeat O (Z.to_nat Hids.NUM_TREES)) 0 0])
                (pre ++ ds ++ post) s o)) by reflexivity.
  rewrite (pbind_eval _ _ _ _ _ (assign_forest_here _ _ [] _ _ _ _ _ _)).
  rewrite (pbind_eval _ _ _ _ _ (assign_forest_here _ _ [] _ _ _ _ _ _)).
  unfold HidsMem.printf at 1. unfold HidsMem.pbind at 1. mem_simpl.
  cbn [HidsMem.set_num_trees HidsMem.set_subsample_size HidsMem.trees
       HidsMem.num_trees HidsMem.subsample_size].
  fold ss.
  destruct (train_loop_refines (Z.to_nat Hids.NUM_TREES) ds ss s ts s1
              pre post h th fh [] [] (repeat O (Z.to_nat Hids.NUM_TREES))
              Hids.NUM_TREES (o ++ [HidsMem.BuildingForest Hids.NUM_TREES])
              Hts Hss (repeat_length _ _))
    as (ext & text & ptrs & lines & El & Hlines & Hall).
  cbn [app length Z.of_nat] in El.
  rewrite (pbind_eval _ _ _ _ _ El).
  exists ext, text, ptrs,
    (HidsMem.BuildingForest Hids.NUM_TREES :: lines
       ++ [HidsMem.TrainingComplete]).
  cbv zeta. cbn [Hids.subsample_size]. split.
  { unfold HidsMem.printf, HidsMem.pbind, HidsMem.pret. mem_simpl.
    repeat rewrite <- app_assoc. reflexivity. }
  split; [discriminate|].
  eexists. split.
  { cbn [HidsMem.deref HidsMem.forest_heap]. apply nth_error_app_here. }
  cbn [HidsMem.num_trees HidsMem.subsample_size HidsMem.trees
       Hids.num_trees Hids.subsample_size Hids.trees].
  split; [reflexivity|]. split; [reflexivity|].
  unfold repr_tree. cbn [HidsMem.tree_heap HidsMem.node_heap]. exact Hall.
Qed.

(** ** The score over the heap *)

Lemma score_loop_refines (m : HidsMem.Mem) (fp sp : HidsMem.ptr)
    (fc : HidsMem.IsolationForest) (sample : Hids.ProcessBehavior)
    (depth : nat) :
  HidsMem.deref (HidsMem.forest_heap m) fp = Some fc ->
  HidsMem.deref (HidsMem.process_heap m) sp = Some sample ->
  HidsMem.num_trees fc = Z.of_nat (length (HidsMem.trees fc)) ->
  forall (todo : list HidsMem.ptr) (ts : list Hids.IsolationTree)
         (done : list HidsMem.ptr) (fuel : nat) (acc : R),
    HidsMem.trees fc = done ++ todo ->
    Forall2 (repr_tree m) todo ts ->
    Forall (fun tr => attributes_in_range (Hids.root tr) /\
                      (height (Hids.root tr) < depth)%nat) ts ->
    (length todo < fuel)%nat ->
    HidsMem.score_loop fuel depth fp sp (Z.of_nat (length done)) acc m
    = Some (fold_left
              (fun a tr => (a + Hids.path_length (Hids.root tr) sample 0)%R)
              ts acc, m).
Proof.
  intros Hf Hs Hnt.
  assert (Elf : HidsMem.load_forest fp m = Some (fc, m)).
  { unfold HidsMem.load_forest, HidsMem.read. now rewrite Hf. }
  induction todo as [|tp todo IH];
    intros ts done fuel acc Htrees Hall Hok Hfuel;
    (destruct fuel as [|fuel]; [cbn in Hfuel; lia|]);
    cbn [HidsMem.score_loop]; rewrite (pbind_eval _ _ _ _ _ Elf);
    rewrite Hnt, Htrees, length_app.
  - inversion Hall; subst ts. cbn [length].
    destruct (Z.ltb_spec (Z.of_nat (length done))
                (Z.of_nat (length done + 0))); [lia | reflexivity].
  - inversion Hall as [|? tr ? rest Htp Hrest]; subst ts.
    inversion Hok as [|? ? [Hattr Hheight] Hok']; subst.
    cbn [length fold_left].
    destruct (Z.ltb_spec (Z.of_nat (length done))
                (Z.of_nat (length done + S (length todo)))); [|lia].
    assert (Etp : HidsMem.load_tree_ptr fp (Z.of_nat (length done)) m
                  = Some (tp, m)).
    { unfold HidsMem.load_tree_ptr, HidsMem.read. rewrite Hf, Htrees.
      destruct (Z.ltb_spec (Z.of_nat (length done)) 0); [lia|].
      now rewrite Nat2Z.id, nth_error_app_here. }
    rewrite (pbind_eval _ _ _ _ _ Etp).
    destruct Htp as (tc & Htc & _ & Hrepr).
    assert (Etc : HidsMem.load_tree tp m = Some (tc, m)).
    { unfold HidsMem.load_tree, HidsMem.read. now rewrite Htc. }
    rewrite (pbind_eval _ _ _ _ _ Etc).
    rewrite (pbind_eval _ _ _ _ _
               (path_length_refines m sp sample 0 _ Hs _ 0 depth Hrepr
                  Hattr Hheight)).
    replace (Z.of_nat (length done) + 1)
      with (Z.of_nat (length (done ++ [tp])))
      by (rewrite length_app; cbn; lia).
    apply IH; try assumption; [|cbn in Hfuel; lia].
    rewrite Htrees, <- app_assoc. reflexivity.
Qed.

(** On a forest of the heap whose array is full the score over the heap is
    the score of [Hids.anomaly_score]. *)
Lemma anomaly_score_refines (m : HidsMem.Mem) (fp sp : HidsMem.ptr)
    (f : Hids.IsolationForest) (sample : Hids.ProcessBehavior)
    (fuel : nat) :
  repr_forest m fp f ->
  HidsMem.deref (HidsMem.process_heap m) sp = Some sample ->
  Hids.num_trees f = Z.of_nat (length (Hids.trees f)) ->
  Forall (fun tr => attributes_in_range (Hids.root tr) /\
                    (height (Hids.root tr) < fuel)%nat) (Hids.trees f) ->
  (length (Hids.trees f) < fuel)%nat ->
  HidsMem.anomaly_score fuel fp sp m
  = option_map (fun x => (x, m)) (Hids.anomaly_score f sample).
Proof.
  intros (fc & Hf & Hnt & Hss & Hall) Hs Hlen Hok Hfuel.
  assert (Elf : HidsMem.load_forest fp m = Some (fc, m)).
  { unfold HidsMem.load_forest, HidsMem.read. now rewrite Hf. }
  pose proof (Forall2_length Hall) as Hl.
  unfold HidsMem.anomaly_score.
  rewrite (pbind_eval _ _ _ _ _
             (score_loop_refines m fp sp fc sample fuel Hf Hs
                ltac:(rewrite Hnt, Hlen, Hl; reflexivity)
                (HidsMem.trees fc) (Hids.trees f) [] fuel 0%R eq_refl Hall
                Hok ltac:(rewrite Hl; exact Hfuel))).
  rewrite (pbind_eval _ _ _ _ _ Elf).
  unfold Hids.anomaly_score, Hids.sum_path_lengths.
  rewrite Hnt, Hlen, Nat2Z.id, firstn_all.
  unfold HidsMem.divide.
  destruct (fdiv _ (IZR (Z.of_nat (length (Hids.trees f))))) as [avg|];
    [|reflexivity].
  unfold HidsMem.pret at 1. unfold HidsMem.pbind at 1.
  rewrite (pbind_eval _ _ _ _ _ Elf). rewrite Hss.
  destruct (Req_dec_T _ 0); [reflexivity|].
  destruct (fdiv (- avg) _); reflexivity.
Qed.

Lemma hids_trained_tree_shape (data : list Hids.ProcessBehavior) (s : rng)
    (f : Hids.IsolationForest) (s' : rng) :
  Hids.train_isolation_forest data s = Some (f, s') ->
  Forall (fun tr => attributes_in_range (Hids.root tr) /\
                    (height (Hids.root tr) <= 11)%nat) (Hids.trees f).
Proof.
  intros Htrain.
  pose proof (hids_train_calls _ _ _ _ Htrain) as Hcalls.
  destruct (hids_train_inv _ _ _ _ Htrain) as (_ & _ & _ & Hall).
  rewrite Forall_forall in *. intros tr Hin. split.
  - destruct (Hcalls tr Hin) as (idx & s1 & s2 & _ & _ & Hb).
    intros nd. eapply hids_build_attributes, Hb.
  - destruct (Hall tr Hin) as (_ & idx & _ & Hb).
    apply built_height in Hb. exact Hb.
Qed.

(** C8. Scoring is deterministic and effect-free.  Over the memory of the
    program (the heaps of nodes, trees, forests and process records, the
    generator behind [rand()] and the output), [anomaly_score] leaves
    every memory on which it returns exactly as it found it.  And it does
    return on a trained forest: whatever the memory that holds the training
    data, [train_isolation_forest] returns a forest and changes the memory,
    and from then on every call of [anomaly_score] on the forest and a
    process record of the heap returns the score that [Hids.anomaly_score]
    gives on the trained forest and leaves the memory as it was, so that a
    second call returns the same score. *)
Theorem scoring_is_effect_free :
  (forall (fuel : nat) (forest sample : HidsMem.ptr) (m : HidsMem.Mem)
          (x : R) (m' : HidsMem.Mem),
      HidsMem.anomaly_score fuel forest sample m = Some (x, m') -> m' = m) /\
  (forall (node_heap : list HidsMem.IsolationNode)
          (tree_heap : list HidsMem.IsolationTree)
          (forest_heap : list HidsMem.IsolationForest)
          (before data after : list Hids.ProcessBehavior)
          (s : rng) (printed : list HidsMem.Line),
      let m0 := HidsMem.mkMem node_heap tree_heap forest_heap
                  (before ++ data ++ after) s printed in
      exists forest m1 f,
        HidsMem.train_isolation_forest (S (length before))
          (Z.of_nat (length data)) m0 = Some (forest, m1) /\
        Hids.train_isolation_forest data s
        = Some (f, HidsMem.generator m1) /\
        m1 <> m0 /\
        forall (fuel : nat) (sp : HidsMem.ptr)
               (sample : Hids.ProcessBehavior),
          (11 < fuel)%nat ->
          HidsMem.deref (HidsMem.process_heap m1) sp = Some sample ->
          exists x,
            Hids.anomaly_score f sample = Some x /\
            HidsMem.anomaly_score fuel forest sp m1 = Some (x, m1) /\
            HidsMem.pbind (HidsMem.anomaly_score fuel forest sp)
              (fun x1 =>
                 HidsMem.pbind (HidsMem.anomaly_score fuel forest sp)
                   (fun x2 => HidsMem.pret (x1, x2))) m1
            = Some ((x, x), m1)).
Proof.
  split.
  { intros fuel forest sample. apply reads_only_anomaly_score. }
  intros h th fh pre ds post s o m0.
  destruct (hids_train_spec ds s) as (f & s' & Htrain & _).
  destruct (train_refines ds s f s' pre post h th fh o Htrain)
    as (ext & text & ptrs & lines & Em & Hlines & Hrepr).
  cbv zeta in Em, Hrepr. eexists _, _, f.
  split; [exact Em|]. split; [exact Htrain|]. split.
  { subst m0. intros E. apply (f_equal HidsMem.printed) in E. cbn in E.
    apply Hlines. apply (app_inv_head o). rewrite app_nil_r. exact E. }
  intros fuel sp sample Hfuel Hs.
  destruct (hids_train_inv _ _ _ _ Htrain) as (Hnt & _ & Hlen & _).
  assert (Hx : exists x, Hids.anomaly_score f sample = Some x).
  { rewrite hids_anomaly_score_eq by (rewrite Hnt; discriminate).
    destruct (Req_dec_T _ 0); eexists; reflexivity. }
  destruct Hx as (x & Hx). exists x. split; [exact Hx|].
  assert (E : HidsMem.anomaly_score fuel (S (length fh)) sp
                (HidsMem.mkMem (h ++ ext) (th ++ text)
                   (fh ++ [HidsMem.mkIsolationForest ptrs Hids.NUM_TREES
                             (Hids.subsample_size f)])
                   (pre ++ ds ++ post) s' (o ++ lines))
              = Some (x, HidsMem.mkMem (h ++ ext) (th ++ text)
                           (fh ++ [HidsMem.mkIsolationForest ptrs
                                     Hids.NUM_TREES (Hids.subsample_size f)])
                           (pre ++ ds ++ post) s' (o ++ lines))).
  { rewrite (anomaly_score_refines _ _ _ f sample fuel Hrepr Hs).
    - now rewrite Hx.
    - rewrite Hnt, Hlen. reflexivity.
    - eapply Forall_impl; [|exact (hids_trained_tree_shape _ _ _ _ Htrain)].
      intros tr [Ha Hh]. split; [exact Ha | lia].
    - rewrite Hlen. cbn. lia. }
  split; [exact E|].
  rewrite (pbind_eval _ _ _ _ _ E), (pbind_eval _ _ _ _ _ E). reflexivity.
Qed.

(** * Further properties of the code *)

(** ** The normalization constant grows with the number of samples *)

Lemma ln_le_minus_1 (y : R) : (0 < y -> ln y <= y - 1)%R.
Proof.
  intros Hy. pose proof (exp_ineq1_le (ln y)) as H.
  rewrite exp_ln in H by exact Hy. lra.
Qed.

Lemma c_closed_form_step (n : Z) :
  2 <= n -> (c_closed_form n < c_closed_form (n + 1))%R.
Proof.
  intros Hn. unfold c_closed_form.
  replace (n + 1 - 1) with n by lia.
  rewrite plus_IZR, minus_IZR.
  assert (HN : (2 <= IZR n)%R) by (apply IZR_le; exact Hn).
  set (N := IZR n) in *.
  assert (Hln : (ln (N - 1) - ln N <= - / N)%R).
  { pose proof (ln_le_minus_1 ((N - 1) * / N)) as H.
    rewrite ln_mult, ln_Rinv in H; try lra.
    - assert (E : ((N - 1) * / N - 1 = - / N)%R) by (field; lra).
      rewrite E in H. apply H.
      apply Rmult_lt_0_compat; [lra | apply Rinv_0_lt_compat; lra].
    - apply Rinv_0_lt_compat; lra. }
  assert (Ha : (0 < / N)%R) by (apply Rinv_0_lt_compat; lra).
  assert (Hb : (0 < / (N + 1))%R) by (apply Rinv_0_lt_compat; lra).
  assert (E1 : (2 * (N + 1 - 1) / (N + 1) = 2 - 2 * / (N + 1))%R)
    by (field; lra).
  assert (E2 : (2 * (N - 1) / N = 2 - 2 * / N)%R) by (field; lra).
  rewrite E1, E2. lra.
Qed.

Lemma c_closed_form_mono (k : nat) :
  forall (m : Z), 2 <= m ->
    (c_closed_form m <= c_closed_form (m + Z.of_nat k))%R.
Proof.
  induction k as [|k IH]; intros m Hm.
  - replace (m + Z.of_nat 0) with m by lia. apply Rle_refl.
  - replace (m + Z.of_nat (S k)) with (m + Z.of_nat k + 1) by lia.
    eapply Rle_trans; [apply IH, Hm|].
    apply Rlt_le, c_closed_form_step. lia.
Qed.

Lemma c_closed_form_le (a b : Z) :
  2 <= a -> a <= b -> (c_closed_form a <= c_closed_form b)%R.
Proof.
  intros Ha Hab. replace b with (a + Z.of_nat (Z.to_nat (b - a))) by lia.
  now apply c_closed_form_mono.
Qed.

(** From two samples on, [c_factor] never decreases when the number of
    samples grows, in both implementations. *)
Theorem c_factor_monotone (m n : Z) :
  2 <= m -> m <= n ->
  (NewC.c_factor m <= NewC.c_factor n)%R /\
  (Hids.c_factor m <= Hids.c_factor n)%R.
Proof.
  intros Hm Hmn. split.
  - rewrite !newc_c_factor_ge_2 by lia. now apply c_closed_form_le.
  - destruct (Z.eq_dec m 2) as [->|Hm2].
    + rewrite hids_c_factor_2. apply hids_c_factor_lower.
    + rewrite !hids_c_factor_ge_3 by lia. apply c_closed_form_le; lia.
Qed.

Lemma c_factor_monotone_witness :
  2 <= 3 /\ 3 <= 8 /\
  (NewC.c_factor 3 <= NewC.c_factor 8)%R /\
  (Hids.c_factor 3 <= Hids.c_factor 8)%R.
Proof.
  split; [lia|]. split; [lia|]. apply c_factor_monotone; lia.
Defined.

(** ** Training on identical vectors *)

(** On samples that agree on every attribute the documented builder stops
    at the root. *)
Lemma hids_build_identical (fuel : nat) (data : list Hids.ProcessBehavior)
    (idx : list Z) (d maxd : Z) (s : rng) (t : NodePtr) (s' : rng) :
  (forall a i j, In i idx -> In j idx ->
                 Hids.data_val data a i = Hids.data_val data a j) ->
  Hids.build_isolation_tree (S fuel) data idx d maxd s = Some (t, s') ->
  exists a, t = Node true a 0 NULL NULL (Z.of_nat (length idx)).
Proof.
  intros Hsame H. rewrite hids_build_step in H. cbv zeta in H.
  destruct ((d >=? maxd) || (Z.of_nat (length idx) <=? 1)).
  - apply ret_Some in H. inversion H; subst. now exists (-1).
  - apply bind_Some in H as (a & s1 & _ & H).
    assert (E : fst (scan_min_max (Hids.data_val data a) idx)
                = snd (scan_min_max (Hids.data_val data a) idx)).
    { apply scan_min_max_equal. intros x y Hx Hy.
      apply in_map_iff in Hx as (i & <- & Hi).
      apply in_map_iff in Hy as (j & <- & Hj). now apply Hsame. }
    apply Z.eqb_eq in E. rewrite E in H.
    apply ret_Some in H. inversion H; subst. now exists a.
Qed.

Lemma hids_data_val_identical (data : list Hids.ProcessBehavior) (a i j : Z) :
  (forall p q, In p data -> In q data ->
               Hids.syscall_freq p = Hids.syscall_freq q) ->
  0 <= i < Z.of_nat (length data) ->
  0 <= j < Z.of_nat (length data) ->
  Hids.data_val data a i = Hids.data_val data a j.
Proof.
  intros Hsame Hi Hj. unfold Hids.data_val, Hids.freq_at.
  set (dflt := Hids.mkProcessBehavior [] 0 0).
  rewrite (Hsame (nth (Z.to_nat i) data dflt) (nth (Z.to_nat j) data dflt));
    [reflexivity | apply nth_In; lia | apply nth_In; lia].
Qed.

Lemma hids_identical_roots
    (data : list Hids.ProcessBehavior) (s : rng)
    (f : Hids.IsolationForest) (s' : rng) :
  (forall p q, In p data -> In q data ->
               Hids.syscall_freq p = Hids.syscall_freq q) ->
  Hids.train_isolation_forest data s = Some (f, s') ->
  Forall (fun tr =>
            exists a, Hids.root tr
                      = Node true a 0 NULL NULL (Hids.subsample_size f))
         (Hids.trees f).
Proof.
  intros Hsame Htrain.
  pose proof (hids_train_calls _ _ _ _ Htrain) as Hcalls.
  eapply Forall_impl; [|exact Hcalls].
  intros tr (idx & s1 & s2 & Hl & Hin & Hb).
  assert (Hvals : forall a i j, In i idx -> In j idx ->
            Hids.data_val data a i = Hids.data_val data a j).
  { intros a i j Hi Hj. apply hids_data_val_identical; auto. }
  destruct (hids_build_identical _ _ _ _ _ _ _ _ Hvals Hb) as (a & E).
  exists a. now rewrite E, Hl.
Qed.

(** A forest of [NUM_TREES] single leaves, each of the subsample size,
    gives every vector the score 0.5 over the reals. *)
Lemma hids_leaf_forest_score (f : Hids.IsolationForest)
    (sample : Hids.ProcessBehavior) :
  Hids.num_trees f = Hids.NUM_TREES ->
  length (Hids.trees f) = Z.to_nat Hids.NUM_TREES ->
  Forall (fun tr =>
            exists a, Hids.root tr
                      = Node true a 0 NULL NULL (Hids.subsample_size f))
         (Hids.trees f) ->
  Hids.anomaly_score f sample = Some 0.5%R.
Proof.
  intros Hnt Hlen Hroots.
  rewrite hids_anomaly_score_eq by (rewrite Hnt; discriminate).
  destruct (Req_dec_T _ 0) as [_|Hc]; [reflexivity|].
  set (c := Hids.c_factor (Hids.subsample_size f)) in *.
  assert (Esum : Hids.sum_path_lengths f sample = (10 * c)%R).
  { unfold Hids.sum_path_lengths.
    rewrite (sum_fold_const
               (fun t => Hids.path_length (Hids.root t) sample 0) c).
    - rewrite Hnt, firstn_all2 by (rewrite Hlen; apply Nat.le_refl).
      rewrite Hlen. change (Z.to_nat Hids.NUM_TREES) with 10%nat.
      rewrite INR_IZR_INZ. simpl Z.of_nat. lra.
    - apply Forall_forall. intros tr Hin. apply in_firstn in Hin.
      rewrite Forall_forall in Hroots. destruct (Hroots tr Hin) as (a & E).
      rewrite E. cbn [Hids.path_length]. fold c. simpl IZR. lra. }
  rewrite Esum, Hnt.
  replace (- (10 * c / IZR Hids.NUM_TREES) / c)%R with (- (1))%R
    by (unfold Hids.NUM_TREES; field; exact Hc).
  rewrite Rpower_Ropp, Rpower_1 by lra. f_equal. lra.
Qed.

(** When all the training vectors carry the same frequencies, every tree of
    the forest is a single Leaf that holds the whole subsample, every
    vector has the path length [c_factor(subsample_size)] in every tree,
    and every vector scores 0.5 up to rounding.  (Over the reals the score
    is exactly 0.5; the sum of ten equal doubles divided by ten need not
    give the double back, so the statement allows the score 0.01 on either
    side.) *)
Theorem identical_training_scores_half
    (data : list Hids.ProcessBehavior) (s : rng)
    (f : Hids.IsolationForest) (s' : rng) (sample : Hids.ProcessBehavior) :
  (forall p q, In p data -> In q data ->
               Hids.syscall_freq p = Hids.syscall_freq q) ->
  Hids.train_isolation_forest data s = Some (f, s') ->
  Forall (fun tr => node_is_leaf (Hids.root tr) = true /\
                    node_size (Hids.root tr) = Hids.subsample_size f /\
                    Hids.path_length (Hids.root tr) sample 0
                    = Hids.c_factor (Hids.subsample_size f))
         (Hids.trees f) /\
  exists x, Hids.anomaly_score f sample = Some x /\
            (0.49 <= x <= 0.51)%R.
Proof.
  intros Hsame Htrain.
  pose proof (hids_identical_roots _ _ _ _ Hsame Htrain) as Hroots.
  destruct (hids_train_inv _ _ _ _ Htrain) as (Hnt & _ & Hlen & _).
  split.
  - eapply Forall_impl; [|exact Hroots]. intros tr (a & E).
    rewrite E. split; [reflexivity|]. split; [reflexivity|].
    cbn [Hids.path_length]. simpl IZR. lra.
  - exists 0.5%R. split; [now apply hids_leaf_forest_score | lra].
Qed.

Lemma identical_training_scores_half_witness :
  exists x, Hids.anomaly_score hids_leaf_forest (hids_flat 7) = Some x /\
            (0.49 <= x <= 0.51)%R.
Proof.
  refine (proj2 (identical_training_scores_half hids_three_samples zero_rng
                   hids_leaf_forest zero_rng (hids_flat 7) _ _)).
  - intros p q Hp Hq. cbn in Hp, Hq.
    destruct Hp as [<-|[<-|[<-|[]]]]; destruct Hq as [<-|[<-|[<-|[]]]];
      reflexivity.
  - vm_compute. reflexivity.
Defined.

(** ** The two builders build the same trees *)

Lemma scan_min_max_ext (f g : Z -> Z) (indices : list Z) :
  (forall i, f i = g i) -> scan_min_max f indices = scan_min_max g indices.
Proof.
  intros E. unfold scan_min_max. rewrite E.
  generalize (g (nth 0 indices 0), g (nth 0 indices 0)).
  induction (skipn 1 indices) as [|i l IH]; intros mm; [reflexivity|].
  cbn [fold_left]. unfold scan_step at 2 4. rewrite E. apply IH.
Qed.

Lemma split_indices_ext (f g : Z -> Z) (v : Z) (indices : list Z) :
  (forall i, f i = g i) -> split_indices f v indices = split_indices g v indices.
Proof.
  intros E. unfold split_indices.
  induction indices as [|i l IH]; [reflexivity|].
  cbn [partition]. rewrite IH, E. reflexivity.
Qed.

Lemma newc_data_val_to_process (data : list Hids.ProcessBehavior) (a i : Z) :
  NewC.data_val (map to_process data) a i = Hids.data_val data a i.
Proof.
  unfold NewC.data_val, Hids.data_val.
  change (NewC.mkProcess [] false)
    with (to_process (Hids.mkProcessBehavior [] 0 0)).
  rewrite map_nth. reflexivity.
Qed.

Lemma length_tests_agree {A : Type} (l : list A) :
  negb (Z.of_nat (length l) =? 0) = (Z.of_nat (length l) >? 0).
Proof. destruct l; reflexivity. Qed.

(** On the same frequencies, indices, depth and generator, the builder of
    [new.c] and the documented builder under [MAX_DEPTH] return the same
    tree, up to the attribute field of the leaves which [new.c] leaves at
    zero, and leave the generator in the same state; one runs out of fuel
    exactly when the other does. *)
Theorem builders_agree (fuel : nat) :
  forall (data : list Hids.ProcessBehavior) (idx : list Z) (d : Z) (s : rng),
    NewC.build_tree fuel (map to_process data) idx d s =
    match Hids.build_isolation_tree fuel data idx d NewC.MAX_DEPTH s with
    | Some (t, s') => Some (zero_leaf_attribute t, s')
    | None => None
    end.
Proof.
  induction fuel as [|fuel IH]; intros data idx d s; [reflexivity|].
  rewrite newc_build_step, hids_build_step. cbv zeta.
  destruct ((d >=? NewC.MAX_DEPTH) || (Z.of_nat (length idx) <=? 1));
    [reflexivity|].
  unfold bind at 1 5. rewrite newc_rand_total, hids_random_int_total.
  set (attr := Z.rem (Z.of_N (s O)) NewC.MAX_SYSCALLS).
  change (0 + Z.rem (Z.of_N (s O)) (Hids.MAX_SYSCALLS - 1 - 0 + 1)) with attr.
  set (s1 := fun i => s (S i)).
  pose proof (newc_data_val_to_process data attr) as Eval.
  rewrite (scan_min_max_ext _ _ idx Eval).
  set (mm := scan_min_max (Hids.data_val data attr) idx).
  destruct (fst mm =? snd mm); [reflexivity|].
  unfold bind at 1 4. rewrite newc_rand_total, hids_random_int_total.
  set (sv := fst mm + Z.rem (Z.of_N (s1 O)) (snd mm - fst mm + 1)).
  set (s2 := fun i => s1 (S i)).
  rewrite (split_indices_ext _ _ sv idx Eval).
  set (lr := split_indices (Hids.data_val data attr) sv idx).
  rewrite !length_tests_agree.
  unfold bind at 1 3.
  assert (Hchild : forall side s0,
    (if Z.of_nat (length side) >? 0
     then NewC.build_tree fuel (map to_process data) side (d + 1)
     else ret NULL) s0 =
    match (if Z.of_nat (length side) >? 0
           then Hids.build_isolation_tree fuel data side (d + 1) NewC.MAX_DEPTH
           else ret NULL) s0 with
    | Some (t, s') => Some (zero_leaf_attribute t, s')
    | None => None
    end).
  { intros side s0. destruct (_ >? 0); [apply IH | reflexivity]. }
  rewrite (Hchild (fst lr) s2).
  destruct ((if Z.of_nat (length (fst lr)) >? 0
             then Hids.build_isolation_tree fuel data (fst lr) (d + 1)
                    NewC.MAX_DEPTH
             else ret NULL) s2) as [[l s3]|]; [|reflexivity].
  unfold bind at 1 2. rewrite (Hchild (snd lr) s3).
  destruct ((if Z.of_nat (length (snd lr)) >? 0
             then Hids.build_isolation_tree fuel data (snd lr) (d + 1)
                    NewC.MAX_DEPTH
             else ret NULL) s3) as [[r s4]|]; reflexivity.
Qed.

(** ** What the builders read and draw *)

Lemma reach_sub (val : Z -> Z -> Z) (p : NodePtr) :
  forall (idx : list Z) (nd : NodePtr) (sub : list Z),
    In (nd, sub) (reach val p idx) ->
    incl sub idx /\ (length sub <= length idx)%nat.
Proof.
  induction p as [|lf a v l IHl r IHr n]; intros idx nd sub Hin;
    [destruct Hin|].
  cbn [reach] in Hin. destruct Hin as [E|Hin].
  - inversion E; subst. split; [apply incl_refl | apply Nat.le_refl].
  - rewrite split_indices_filter in Hin. cbn [fst snd] in Hin.
    apply in_app_or in Hin as [Hin|Hin].
    + destruct (IHl _ _ _ Hin) as (Hincl & Hlen). split.
      * intros i Hi. apply Hincl in Hi. apply filter_In in Hi. tauto.
      * etransitivity; [exact Hlen | apply filter_length_le].
    + destruct (IHr _ _ _ Hin) as (Hincl & Hlen). split.
      * intros i Hi. apply Hincl in Hi. apply filter_In in Hi. tauto.
      * etransitivity; [exact Hlen | apply filter_length_le].
Qed.

Lemma newc_build_attributes (fuel : nat) :
  forall (data : list NewC.Process) (idx : list Z) (d : Z)
         (s : rng) (t : NodePtr) (s' : rng),
    NewC.build_tree fuel data idx d s = Some (t, s') ->
    forall nd, In nd (nodes t) -> node_is_leaf nd = false ->
               0 <= node_split_attribute nd < NewC.MAX_SYSCALLS.
Proof.
  induction fuel as [|fuel IH]; intros data idx d s t s' H; [discriminate|].
  rewrite newc_build_step in H. cbv zeta in H.
  destruct ((d >=? NewC.MAX_DEPTH) || (Z.of_nat (length idx) <=? 1)).
  { apply ret_Some in H. inversion H; subst.
    intros nd [<-|[]]. discriminate. }
  apply bind_Some in H as (r1 & s1 & Hr1 & H).
  assert (Hattr : 0 <= Z.rem r1 NewC.MAX_SYSCALLS < NewC.MAX_SYSCALLS).
  { inversion Hr1; subst. apply Z.rem_bound_pos;
      [apply N2Z.is_nonneg | reflexivity]. }
  destruct (_ =? _).
  { apply ret_Some in H. inversion H; subst.
    intros nd [<-|[]]. discriminate. }
  apply bind_Some in H as (r2 & s2 & _ & H).
  apply bind_Some in H as (l & s3 & Hl & H).
  apply bind_Some in H as (r & s4 & Hr & H).
  apply ret_Some in H. inversion H; subst t s'. clear H.
  assert (Hchild : forall side s0 c s0',
    (if negb (Z.of_nat (length side) =? 0)
     then NewC.build_tree fuel data side (d + 1)
     else ret NULL) s0 = Some (c, s0') ->
    forall nd, In nd (nodes c) -> node_is_leaf nd = false ->
               0 <= node_split_attribute nd < NewC.MAX_SYSCALLS).
  { intros side s0 c s0'. destruct (negb (Z.of_nat (length side) =? 0));
      [apply IH|].
    intros E. apply ret_Some in E. inversion E; subst. intros nd []. }
  intros nd Hin Hleaf. cbn [nodes] in Hin. destruct Hin as [<-|Hin].
  - cbn. exact Hattr.
  - apply in_app_or in Hin as [Hin|Hin].
    + eapply Hchild; [exact Hl | exact Hin | exact Hleaf].
    + eapply Hchild; [exact Hr | exact Hin | exact Hleaf].
Qed.

(** Both builders read the data only at indices of the array they are given
    and at attributes of the vectors: every index that reaches a node is one
    of the input indices, no node receives more samples than the root, and
    every Internal node splits on an attribute in [[0, MAX_SYSCALLS)]. *)
Theorem builders_read_in_bounds
    (hdata : list Hids.ProcessBehavior) (ndata : list NewC.Process)
    (idx : list Z) (d maxd : Z) (s : rng) :
  (exists t s',
      Hids.build_isolation_tree (Hids.build_fuel d maxd) hdata idx d maxd s
      = Some (t, s') /\
      forall nd sub,
        In (nd, sub) (reach (Hids.data_val hdata) t idx) ->
        incl sub idx /\ node_size nd <= Z.of_nat (length idx) /\
        (node_is_leaf nd = false ->
         0 <= node_split_attribute nd < Hids.MAX_SYSCALLS))
  /\
  (exists t s',
      NewC.build_tree (NewC.build_fuel d) ndata idx d s = Some (t, s') /\
      forall nd sub,
        In (nd, sub) (reach (NewC.data_val ndata) t idx) ->
        incl sub idx /\ node_size nd <= Z.of_nat (length idx) /\
        (node_is_leaf nd = false ->
         0 <= node_split_attribute nd < NewC.MAX_SYSCALLS)).
Proof.
  split.
  - destruct (hids_build_returns hdata idx d maxd s 0) as (t & s' & E & Hb).
    rewrite Nat.add_0_r in E. exists t, s'. split; [exact E|].
    intros nd sub Hin. destruct (reach_sub _ _ _ _ _ Hin) as (Hincl & Hlen).
    split; [exact Hincl|]. split.
    + rewrite (built_reach_size _ _ _ _ _ _ _ Hb Hin). lia.
    + eapply hids_build_attributes; [exact E|].
      rewrite <- (nodes_reach (Hids.data_val hdata) t idx).
      apply (in_map fst) in Hin. exact Hin.
  - destruct (newc_build_returns ndata idx d s 0) as (t & s' & E & Hb).
    rewrite Nat.add_0_r in E. exists t, s'. split; [exact E|].
    intros nd sub Hin. destruct (reach_sub _ _ _ _ _ Hin) as (Hincl & Hlen).
    split; [exact Hincl|]. split.
    + rewrite (built_reach_size _ _ _ _ _ _ _ Hb Hin). lia.
    + eapply newc_build_attributes; [exact E|].
      rewrite <- (nodes_reach (NewC.data_val ndata) t idx).
      apply (in_map fst) in Hin. exact Hin.
Qed.

(** ** Where a walk of the documented evaluator ends *)

(** [hids_walk] follows [Hids.path_length]: on every tree the function
    returns the value of the end of the walk. *)
Lemma hids_path_length_walk (node : NodePtr)
    (sample : Hids.ProcessBehavior) :
  forall (d : Z),
    Hids.path_length node sample d = walk_value (hids_walk node sample d).
Proof.
  induction node as [|lf a v l IHl r IHr n]; intros d; [reflexivity|].
  cbn [Hids.path_length hids_walk]. destruct lf; [reflexivity|].
  cbv zeta. destruct (_ && _); [apply IHl|].
  destruct (negb _); [apply IHr | reflexivity].
Qed.

Lemma at_depth_nodes (t : NodePtr) :
  forall (k : nat) (p : NodePtr), at_depth t k p -> In p (nodes t).
Proof.
  induction t as [|lf a v l IHl r IHr n]; intros [|k] p H; cbn in H.
  - destruct H as [<- H]. congruence.
  - destruct H.
  - destruct H as [<- _]. now left.
  - cbn [nodes]. right. apply in_or_app.
    destruct H as [H|H]; [left; eapply IHl | right; eapply IHr]; exact H.
Qed.

Lemma hids_walk_built (val : Z -> Z -> Z) (maxd : Z) (t : NodePtr)
    (sample : Hids.ProcessBehavior) :
  forall (d : Z) (idx : list Z) (d0 : Z),
    built val maxd d idx t ->
    exists leaf k,
      hids_walk t sample d0 = AtLeaf leaf (d0 + Z.of_nat k) /\
      at_depth t k leaf /\ node_is_leaf leaf = true /\
      (S k <= height t)%nat.
Proof.
  induction t as [|lf a v l IHl r IHr n]; intros d idx d0 Hb; [destruct Hb|].
  destruct lf.
  - exists (Node true a v l r n), O. cbn [hids_walk at_depth height].
    replace (d0 + Z.of_nat 0) with d0 by lia.
    split; [reflexivity|]. split; [split; [reflexivity | discriminate]|].
    split; [reflexivity | lia].
  - destruct (built_internal _ _ _ _ _ _ _ _ _ Hb) as (_ & _ & _ & Hrn & _).
    cbn [built] in Hb. destruct Hb as (_ & _ & _ & _ & Hl & Hr).
    cbn [hids_walk height at_depth]. cbv zeta.
    destruct ((Hids.freq_at sample a <? v) && negb (is_null l)) eqn:E.
    + apply andb_true_iff in E as [_ E].
      destruct l as [|lf' a' v' l' r' n']; [discriminate|].
      destruct Hl as [_ Hl].
      destruct (IHl _ _ (d0 + 1) Hl) as (leaf & k & Hw & Hat & Hleaf & Hk).
      exists leaf, (S k). rewrite Hw.
      split; [f_equal; lia|]. split; [now left|].
      split; [exact Hleaf | lia].
    + rewrite Hrn. cbn [negb].
      destruct r as [|lf' a' v' l' r' n']; [discriminate|].
      destruct Hr as [_ Hr].
      destruct (IHr _ _ (d0 + 1) Hr) as (leaf & k & Hw & Hat & Hleaf & Hk).
      exists leaf, (S k). rewrite Hw.
      split; [f_equal; lia|]. split; [now right|].
      split; [exact Hleaf | lia].
Qed.

(** On a tree of the documented builder, [path_length] never takes its
    fallback and never meets an absent node: the walk for any vector ends
    at a Leaf of the tree, [k] levels below the root with
    [k <= max_depth - current_depth], and the function returns the depth it
    started from plus [k] plus [c_factor] of the size of that Leaf, which
    is at most the number of samples given to the builder. *)
Theorem hids_walk_ends_at_leaf
    (data : list Hids.ProcessBehavior) (idx : list Z) (d maxd : Z) (s : rng) :
  exists t s',
    Hids.build_isolation_tree (Hids.build_fuel d maxd) data idx d maxd s
    = Some (t, s') /\
    forall (sample : Hids.ProcessBehavior) (d0 : Z),
    exists leaf k,
      hids_walk t sample d0 = AtLeaf leaf (d0 + Z.of_nat k) /\
      at_depth t k leaf /\ node_is_leaf leaf = true /\
      (k <= Z.to_nat (maxd - d))%nat /\
      node_size leaf <= Z.of_nat (length idx) /\
      Hids.path_length t sample d0
      = (IZR (d0 + Z.of_nat k) + Hids.c_factor (node_size leaf))%R.
Proof.
  destruct (hids_build_returns data idx d maxd s 0) as (t & s' & E & Hb).
  rewrite Nat.add_0_r in E. exists t, s'. split; [exact E|].
  intros sample d0.
  destruct (hids_walk_built _ _ _ sample _ _ d0 Hb)
    as (leaf & k & Hw & Hat & Hleaf & Hk).
  exists leaf, k. split; [exact Hw|]. split; [exact Hat|].
  split; [exact Hleaf|].
  pose proof (built_height _ _ _ _ _ Hb) as Hh.
  split; [lia|]. split.
  - pose proof (at_depth_nodes _ _ _ Hat) as Hin.
    destruct (nodes_reached (Hids.data_val data) t idx leaf Hin)
      as (sub & Hsub).
    rewrite (built_reach_size _ _ _ _ _ _ _ Hb Hsub).
    destruct (reach_sub _ _ _ _ _ Hsub) as (_ & Hlen). lia.
  - rewrite hids_path_length_walk, Hw. reflexivity.
Qed.

(** ** The range of the score *)

Lemma hids_c_factor_le (k n : Z) :
  3 <= n -> k <= n -> (Hids.c_factor k <= Hids.c_factor n)%R.
Proof.
  intros Hn Hk. pose proof (hids_c_factor_pos n Hn) as Hpos.
  destruct (Z.le_gt_cases k 1) as [H|H].
  - rewrite (hids_c_factor_le_1 k H). lra.
  - destruct (Z.eq_dec k 2) as [->|Hk2].
    + rewrite hids_c_factor_2. lra.
    + rewrite !hids_c_factor_ge_3 by lia. apply c_closed_form_le; lia.
Qed.

Lemma sum_fold_upper {A : Type} (g : A -> R) (b : R) (l : list A) :
  forall (a : R),
    Forall (fun x => (g x <= b)%R) l ->
    (fold_left (fun acc x => (acc + g x)%R) l a <= a + INR (length l) * b)%R.
Proof.
  induction l as [|x l IH]; intros a H.
  - cbn. lra.
  - inversion H; subst. cbn [fold_left].
    eapply Rle_trans; [apply IH; assumption|].
    change (length (x :: l)) with (S (length l)). rewrite S_INR. lra.
Qed.

Lemma ln_ratio_lower (a b : R) :
  (0 < a -> 0 < b -> 1 - a / b <= ln b - ln a)%R.
Proof.
  intros Ha Hb.
  assert (Hq : (0 < a / b)%R) by (apply Rdiv_lt_0_compat; assumption).
  pose proof (ln_le_minus_1 (a / b) Hq) as H.
  unfold Rdiv in H at 1. rewrite ln_mult in H;
    [|exact Ha | apply Rinv_0_lt_compat; exact Hb].
  rewrite ln_Rinv in H by exact Hb. lra.
Qed.

(** [ln 2] is the sum of the eight steps from [ln 8] to [ln 16]. *)
Lemma ln_2_lower : (33 / 50 <= ln 2)%R.
Proof.
  assert (E : (ln 16 = ln 2 + ln 8)%R).
  { rewrite <- ln_mult by lra. f_equal; lra. }
  pose proof (ln_ratio_lower 8 9 ltac:(lra) ltac:(lra)).
  pose proof (ln_ratio_lower 9 10 ltac:(lra) ltac:(lra)).
  pose proof (ln_ratio_lower 10 11 ltac:(lra) ltac:(lra)).
  pose proof (ln_ratio_lower 11 12 ltac:(lra) ltac:(lra)).
  pose proof (ln_ratio_lower 12 13 ltac:(lra) ltac:(lra)).
  pose proof (ln_ratio_lower 13 14 ltac:(lra) ltac:(lra)).
  pose proof (ln_ratio_lower 14 15 ltac:(lra) ltac:(lra)).
  pose proof (ln_ratio_lower 15 16 ltac:(lra) ltac:(lra)).
  lra.
Qed.

(** From three samples on the normalization constant of the documented
    implementation is at least 10/9. *)
Lemma hids_c_factor_3_lower (n : Z) :
  3 <= n -> (10 / 9 <= Hids.c_factor n)%R.
Proof.
  intros Hn. rewrite hids_c_factor_ge_3 by exact Hn.
  eapply Rle_trans; [|apply (c_closed_form_le 3 n); lia].
  unfold c_closed_form. replace (3 - 1) with 2 by lia.
  pose proof ln_2_lower. pose proof euler_gamma_bounds. lra.
Qed.

Lemma Rpower_2_minus_10 : Rpower 2 (- (10)) = (/ 1024)%R.
Proof.
  rewrite Rpower_Ropp. f_equal.
  replace 10%R with (INR 10) by (simpl; lra).
  rewrite Rpower_pow by lra. simpl. lra.
Qed.

(** A forest trained on any number of vectors but two gives every vector a
    path length of at least 0 in each tree and a score between
    [2^(-MAX_TREE_DEPTH)], that is 1/1024, and 1.  (With three vectors or
    more the score stays above [2^(-(MAX_TREE_DEPTH + c) / c)] for the
    normalization constant [c >= 10/9] of the subsample size, which is more
    than 1/1024 with room to spare; with one vector or none the score is the
    fallback 0.5.) *)
Theorem hids_score_range
    (data : list Hids.ProcessBehavior) (s : rng)
    (f : Hids.IsolationForest) (s' : rng) (sample : Hids.ProcessBehavior) :
  Hids.train_isolation_forest data s = Some (f, s') ->
  length data <> 2%nat ->
  Forall (fun tr => (0 <= Hids.path_length (Hids.root tr) sample 0)%R)
         (Hids.trees f) /\
  exists x, Hids.anomaly_score f sample = Some x /\ (/ 1024 <= x <= 1)%R.
Proof.
  intros Htrain Hlen.
  destruct (hids_train_inv _ _ _ _ Htrain) as (Hnt & Hss & Hlt & Hall).
  assert (Hss2 : Hids.subsample_size f <> 2).
  { rewrite Hss. unfold Hids.SUBSAMPLE_SIZE. lia. }
  split.
  { eapply Forall_impl; [|exact Hall].
    intros tr (_ & idx & Hidx & Hb).
    eapply hids_root_path_nonneg; [exact Hb | lia]. }
  destruct (hids_score_in_unit_interval _ _ _ _ sample Htrain Hlen)
    as (x & Ex & Hx).
  exists x. split; [exact Ex|]. split; [|lra].
  rewrite hids_anomaly_score_eq in Ex by (rewrite Hnt; discriminate).
  set (c := Hids.c_factor (Hids.subsample_size f)) in *.
  destruct (Req_dec_T c 0) as [E0|Hc0]; [inversion Ex; lra|].
  assert (Hss3 : 3 <= Hids.subsample_size f).
  { destruct (Z.le_gt_cases (Hids.subsample_size f) 1) as [H|H]; [|lia].
    exfalso. apply Hc0. apply hids_c_factor_le_1, H. }
  assert (Hc : (10 / 9 <= c)%R) by (apply hids_c_factor_3_lower, Hss3).
  assert (Hpaths : Forall (fun tr =>
            (Hids.path_length (Hids.root tr) sample 0
             <= IZR Hids.MAX_TREE_DEPTH + c)%R) (Hids.trees f)).
  { eapply Forall_impl; [|exact Hall].
    intros tr (_ & idx & Hidx & Hb).
    destruct (hids_walk_built _ _ _ sample _ _ 0 Hb)
      as (leaf & k & Hw & Hat & Hleaf & Hk).
    rewrite hids_path_length_walk, Hw. cbn [walk_value].
    pose proof (built_height _ _ _ _ _ Hb) as Hh.
    assert (Hkd : (IZR (0 + Z.of_nat k) <= IZR Hids.MAX_TREE_DEPTH)%R).
    { apply IZR_le. unfold Hids.MAX_TREE_DEPTH in *. lia. }
    assert (Hsz : node_size leaf <= Hids.subsample_size f).
    { pose proof (at_depth_nodes _ _ _ Hat) as Hin.
      destruct (nodes_reached (Hids.data_val data) _ idx leaf Hin)
        as (sub & Hsub).
      rewrite (built_reach_size _ _ _ _ _ _ _ Hb Hsub).
      destruct (reach_sub _ _ _ _ _ Hsub) as (_ & Hl). lia. }
    pose proof (hids_c_factor_le _ _ Hss3 Hsz) as Hle. fold c in Hle. lra. }
  inversion Ex as [Ex']. rewrite <- Rpower_2_minus_10.
  apply Rle_Rpower; [lra|].
  assert (Hsum : (Hids.sum_path_lengths f sample
                  <= 10 * (IZR Hids.MAX_TREE_DEPTH + c))%R).
  { unfold Hids.sum_path_lengths.
    eapply Rle_trans.
    - apply (sum_fold_upper
               (fun t => Hids.path_length (Hids.root t) sample 0)
               (IZR Hids.MAX_TREE_DEPTH + c)).
      apply Forall_forall. intros tr Hin. apply in_firstn in Hin.
      rewrite Forall_forall in Hpaths. apply (Hpaths tr Hin).
    - rewrite Hnt, firstn_all2 by (rewrite Hlt; apply Nat.le_refl).
      rewrite Hlt. change (Z.to_nat Hids.NUM_TREES) with 10%nat.
      rewrite INR_IZR_INZ. simpl Z.of_nat. lra. }
  rewrite Hnt. unfold Hids.NUM_TREES, Hids.MAX_TREE_DEPTH in *.
  apply Rmult_le_reg_r with c; [lra|].
  unfold Rdiv. rewrite !Rmult_assoc, Rinv_l by lra. lra.
Qed.

Lemma hids_score_range_witness :
  exists x,
    Hids.anomaly_score hids_leaf_forest (hids_flat 7) = Some x /\
    (/ 1024 <= x <= 1)%R.
Proof.
  refine (proj2 (hids_score_range hids_three_samples zero_rng
                   hids_leaf_forest zero_rng (hids_flat 7) _ _)).
  - vm_compute. reflexivity.
  - cbn. lia.
Defined.

(** The sizes that the leaves of a built tree record add up to the number
    of samples given to the builder, in both implementations. *)
Theorem leaf_sizes_add_up
    (hdata : list Hids.ProcessBehavior) (ndata : list NewC.Process)
    (idx : list Z) (d maxd : Z) (s : rng) :
  (exists t s',
      Hids.build_isolation_tree (Hids.build_fuel d maxd) hdata idx d maxd s
      = Some (t, s') /\
      leaf_total t = Z.of_nat (length idx)) /\
  (exists t s',
      NewC.build_tree (NewC.build_fuel d) ndata idx d s = Some (t, s') /\
      leaf_total t = Z.of_nat (length idx)).
Proof.
  split.
  - destruct (hids_build_returns hdata idx d maxd s 0) as (t & s' & E & Hb).
    rewrite Nat.add_0_r in E. exists t, s'. split; [exact E|].
    eapply built_leaf_total, Hb.
  - destruct (newc_build_returns ndata idx d s 0) as (t & s' & E & Hb).
    rewrite Nat.add_0_r in E. exists t, s'. split; [exact E|].
    eapply built_leaf_total, Hb.
Qed.

(** ** Shorter paths, higher scores *)




(** ** The synthetic processes *)

Lemma hids_random_int_spec (lo hi : Z) (s : rng) :
  lo <= hi ->
  exists v, Hids.random_int lo hi s = Some (v, fun i => s (S i)) /\
            lo <= v <= hi.
Proof.
  intros Hle. eexists. split; [apply hids_random_int_total|].
  eapply hids_random_int_range; [exact Hle | apply hids_random_int_total].
Qed.

Lemma hids_normal_freqs_spec (k : nat) :
  forall (i total : Z) (s : rng),
    exists fs s',
      Hids.normal_freqs k i total s = Some ((fs, total + sum_freqs fs), s') /\
      length fs = k /\
      forall j, (j < k)%nat ->
        (i + Z.of_nat j < 5 -> 40 <= nth j fs 0 <= 60) /\
        (5 <= i + Z.of_nat j < 10 -> 5 <= nth j fs 0 <= 15) /\
        (10 <= i + Z.of_nat j -> 0 <= nth j fs 0 <= 3).
Proof.
  induction k as [|k IH]; intros i total s.
  - exists [], s. cbn. rewrite Z.add_0_r. split; [reflexivity|].
    split; [reflexivity|]. intros j Hj. lia.
  - cbn [Hids.normal_freqs].
    assert (Hdraw : exists f,
      (if i <? 5 then r <- Hids.random_int (-10) 10 ;; ret (50 + r)
       else if i <? 10 then r <- Hids.random_int (-5) 5 ;; ret (10 + r)
       else Hids.random_int 0 3) s = Some (f, fun j => s (S j)) /\
      (i < 5 -> 40 <= f <= 60) /\ (5 <= i < 10 -> 5 <= f <= 15) /\
      (10 <= i -> 0 <= f <= 3)).
    { destruct (Z.ltb_spec i 5); [|destruct (Z.ltb_spec i 10)].
      - destruct (hids_random_int_spec (-10) 10 s ltac:(lia)) as (v & E & Hv).
        exists (50 + v). unfold bind. rewrite E. split; [reflexivity|]. lia.
      - destruct (hids_random_int_spec (-5) 5 s ltac:(lia)) as (v & E & Hv).
        exists (10 + v). unfold bind. rewrite E. split; [reflexivity|]. lia.
      - destruct (hids_random_int_spec 0 3 s ltac:(lia)) as (v & E & Hv).
        exists v. split; [exact E|]. lia. }
    destruct Hdraw as (f & Ef & Hf).
    unfold bind at 1. rewrite Ef.
    destruct (IH (i + 1) (total + f) (fun j => s (S j)))
      as (fs & s' & E & Hlen & Hr).
    unfold bind at 1. rewrite E. cbn [fst snd].
    exists (f :: fs), s'. split.
    { unfold ret, sum_freqs. cbn [fold_right]. unfold sum_freqs.
      do 3 f_equal. lia. }
    split; [cbn; now rewrite Hlen|].
    intros [|j] Hj; cbn [nth].
    + rewrite Z.add_0_r. exact Hf.
    + specialize (Hr j ltac:(lia)).
      replace (i + Z.of_nat (S j)) with (i + 1 + Z.of_nat j) by lia. exact Hr.
Qed.

Lemma hids_anomalous_freqs_spec (k : nat) :
  forall (i total : Z) (s : rng),
    exists fs s',
      Hids.anomalous_freqs k i total s
      = Some ((fs, total + sum_freqs fs), s') /\
      length fs = k /\
      forall j, (j < k)%nat ->
        (i + Z.of_nat j < 5 -> 3 <= nth j fs 0 <= 8) /\
        (5 <= i + Z.of_nat j < 10 -> 0 <= nth j fs 0 <= 10) /\
        (10 <= i + Z.of_nat j -> 25 <= nth j fs 0 <= 45).
Proof.
  induction k as [|k IH]; intros i total s.
  - exists [], s. cbn. rewrite Z.add_0_r. split; [reflexivity|].
    split; [reflexivity|]. intros j Hj. lia.
  - cbn [Hids.anomalous_freqs].
    assert (Hdraw : exists f,
      (if i >=? 10 then r <- Hids.random_int (-5) 15 ;; ret (30 + r)
       else if i <? 5 then r <- Hids.random_int (-2) 3 ;; ret (5 + r)
       else Hids.random_int 0 10) s = Some (f, fun j => s (S j)) /\
      (i < 5 -> 3 <= f <= 8) /\ (5 <= i < 10 -> 0 <= f <= 10) /\
      (10 <= i -> 25 <= f <= 45)).
    { destruct (Z.geb_spec i 10); [|destruct (Z.ltb_spec i 5)].
      - destruct (hids_random_int_spec (-5) 15 s ltac:(lia)) as (v & E & Hv).
        exists (30 + v). unfold bind. rewrite E. split; [reflexivity|]. lia.
      - destruct (hids_random_int_spec (-2) 3 s ltac:(lia)) as (v & E & Hv).
        exists (5 + v). unfold bind. rewrite E. split; [reflexivity|]. lia.
      - destruct (hids_random_int_spec 0 10 s ltac:(lia)) as (v & E & Hv).
        exists v. split; [exact E|]. lia. }
    destruct Hdraw as (f & Ef & Hf).
    unfold bind at 1. rewrite Ef.
    destruct (IH (i + 1) (total + f) (fun j => s (S j)))
      as (fs & s' & E & Hlen & Hr).
    unfold bind at 1. rewrite E. cbn [fst snd].
    exists (f :: fs), s'. split.
    { unfold ret, sum_freqs. cbn [fold_right]. unfold sum_freqs.
      do 3 f_equal. lia. }
    split; [cbn; now rewrite Hlen|].
    intros [|j] Hj; cbn [nth].
    + rewrite Z.add_0_r. exact Hf.
    + specialize (Hr j ltac:(lia)).
      replace (i + Z.of_nat (S j)) with (i + 1 + Z.of_nat j) by lia. exact Hr.
Qed.

(** [generate_normal_behavior] always returns a process labelled normal,
    with twenty frequencies: 40 to 60 for the attributes below 5, 5 to 15 for
    the attributes 5 to 9, 0 to 3 from attribute 10 on; [total_calls] is
    their sum. *)
Theorem generate_normal_behavior_ranges (s : rng) :
  exists pb s',
    Hids.generate_normal_behavior s = Some (pb, s') /\
    length (Hids.syscall_freq pb) = 20%nat /\
    Hids.is_anomaly pb = 0 /\
    Hids.total_calls pb = sum_freqs (Hids.syscall_freq pb) /\
    forall i,
      (0 <= i < 5 -> 40 <= Hids.freq_at pb i <= 60) /\
      (5 <= i < 10 -> 5 <= Hids.freq_at pb i <= 15) /\
      (10 <= i < 20 -> 0 <= Hids.freq_at pb i <= 3).
Proof.
  unfold Hids.generate_normal_behavior.
  destruct (hids_normal_freqs_spec (Z.to_nat Hids.MAX_SYSCALLS) 0 0 s)
    as (fs & s' & E & Hlen & Hr).
  unfold bind. rewrite E. eexists _, _. split; [reflexivity|].
  cbn [Hids.syscall_freq Hids.is_anomaly Hids.total_calls fst snd].
  split; [exact Hlen|]. split; [reflexivity|]. split; [lia|].
  intros i. unfold Hids.freq_at. cbn [Hids.syscall_freq].
  assert (Hi : 0 <= i < 20 ->
    (0 + Z.of_nat (Z.to_nat i) = i) /\
    (Z.to_nat i < Z.to_nat Hids.MAX_SYSCALLS)%nat)
    by (unfold Hids.MAX_SYSCALLS; lia).
  split; [|split]; intros Hrange;
    destruct (Hi ltac:(lia)) as (Ei & Hlt);
    specialize (Hr _ Hlt); rewrite Ei in Hr; lia.
Qed.

(** [generate_anomalous_behavior] always returns a process labelled
    anomalous, with twenty frequencies: 3 to 8 for the attributes below 5,
    0 to 10 for the attributes 5 to 9, 25 to 45 from attribute 10 on;
    [total_calls] is their sum. *)
Theorem generate_anomalous_behavior_ranges (s : rng) :
  exists pb s',
    Hids.generate_anomalous_behavior s = Some (pb, s') /\
    length (Hids.syscall_freq pb) = 20%nat /\
    Hids.is_anomaly pb = 1 /\
    Hids.total_calls pb = sum_freqs (Hids.syscall_freq pb) /\
    forall i,
      (0 <= i < 5 -> 3 <= Hids.freq_at pb i <= 8) /\
      (5 <= i < 10 -> 0 <= Hids.freq_at pb i <= 10) /\
      (10 <= i < 20 -> 25 <= Hids.freq_at pb i <= 45).
Proof.
  unfold Hids.generate_anomalous_behavior.
  destruct (hids_anomalous_freqs_spec (Z.to_nat Hids.MAX_SYSCALLS) 0 0 s)
    as (fs & s' & E & Hlen & Hr).
  unfold bind. rewrite E. eexists _, _. split; [reflexivity|].
  cbn [Hids.syscall_freq Hids.is_anomaly Hids.total_calls fst snd].
  split; [exact Hlen|]. split; [reflexivity|]. split; [lia|].
  intros i. unfold Hids.freq_at. cbn [Hids.syscall_freq].
  assert (Hi : 0 <= i < 20 ->
    (0 + Z.of_nat (Z.to_nat i) = i) /\
    (Z.to_nat i < Z.to_nat Hids.MAX_SYSCALLS)%nat)
    by (unfold Hids.MAX_SYSCALLS; lia).
  split; [|split]; intros Hrange;
    destruct (Hi ltac:(lia)) as (Ei & Hlt);
    specialize (Hr _ Hlt); rewrite Ei in Hr; lia.
Qed.

(** The two generators never agree on a common attribute: below attribute 5
    an anomalous process is always under a normal one, and from attribute 10
    on always above. *)
Theorem generated_classes_are_separated (s1 s2 : rng) :
  exists pn s1' pa s2',
    Hids.generate_normal_behavior s1 = Some (pn, s1') /\
    Hids.generate_anomalous_behavior s2 = Some (pa, s2') /\
    forall i,
      (0 <= i < 5 -> Hids.freq_at pa i < Hids.freq_at pn i) /\
      (10 <= i < 20 -> Hids.freq_at pn i < Hids.freq_at pa i).
Proof.
  unfold Hids.generate_normal_behavior, Hids.generate_anomalous_behavior.
  destruct (hids_normal_freqs_spec (Z.to_nat Hids.MAX_SYSCALLS) 0 0 s1)
    as (fn & s1' & En & _ & Hn).
  destruct (hids_anomalous_freqs_spec (Z.to_nat Hids.MAX_SYSCALLS) 0 0 s2)
    as (fa & s2' & Ea & _ & Ha).
  unfold bind. rewrite En, Ea. eexists _, _, _, _.
  split; [reflexivity|]. split; [reflexivity|].
  intros i. unfold Hids.freq_at. cbn [Hids.syscall_freq fst].
  assert (Hi : 0 <= i < 20 ->
    (0 + Z.of_nat (Z.to_nat i) = i) /\
    (Z.to_nat i < Z.to_nat Hids.MAX_SYSCALLS)%nat)
    by (unfold Hids.MAX_SYSCALLS; lia).
  split; intros Hrange;
    destruct (Hi ltac:(lia)) as (Ei & Hlt);
    specialize (Hn _ Hlt); specialize (Ha _ Hlt);
    rewrite Ei in Hn, Ha; lia.
Qed.

Lemma newc_gen_freqs_spec (k : nat) :
  forall (i : Z) (anomaly : bool) (s : rng),
    exists fs s',
      NewC.gen_freqs k i anomaly s = Some (fs, s') /\
      length fs = k /\
      forall j, (j < k)%nat ->
        if anomaly
        then (i + Z.of_nat j <= 10 -> 0 <= nth j fs 0 <= 4) /\
             (10 < i + Z.of_nat j -> 0 <= nth j fs 0 <= 49)
        else (i + Z.of_nat j < 5 -> 40 <= nth j fs 0 <= 59) /\
             (5 <= i + Z.of_nat j -> 0 <= nth j fs 0 <= 4).
Proof.
  induction k as [|k IH]; intros i anomaly s.
  - exists [], s. split; [reflexivity|]. split; [reflexivity|].
    intros j Hj. lia.
  - cbn [NewC.gen_freqs]. unfold bind at 1. rewrite newc_rand_total.
    destruct (IH (i + 1) anomaly (fun j => s (S j)))
      as (fs & s' & E & Hlen & Hr).
    unfold bind at 1. rewrite E. eexists _, _. split; [reflexivity|].
    split; [cbn; now rewrite Hlen|].
    pose proof (N2Z.is_nonneg (s O)) as Hr0.
    pose proof (Z.rem_bound_pos (Z.of_N (s O)) 50 Hr0 ltac:(lia)).
    pose proof (Z.rem_bound_pos (Z.of_N (s O)) 5 Hr0 ltac:(lia)).
    pose proof (Z.rem_bound_pos (Z.of_N (s O)) 20 Hr0 ltac:(lia)).
    intros [|j] Hj; cbn [nth].
    + rewrite Z.add_0_r. destruct anomaly.
      * destruct (Z.gtb_spec i 10); split; lia.
      * destruct (Z.ltb_spec i 5); split; lia.
    + specialize (Hr j ltac:(lia)).
      replace (i + Z.of_nat (S j)) with (i + 1 + Z.of_nat j) by lia. exact Hr.
Qed.

(** [gen_data] of [new.c] always returns a process with the label asked for
    and twenty frequencies.  A normal process has 40 to 59 below attribute 5
    and 0 to 4 elsewhere; an anomalous one has 0 to 4 up to attribute 10
    included and 0 to 49 above it. *)
Theorem newc_gen_data_ranges (anomaly : bool) (s : rng) :
  exists p s',
    NewC.gen_data anomaly s = Some (p, s') /\
    length (NewC.freq p) = 20%nat /\
    NewC.is_anomaly p = anomaly /\
    forall i, 0 <= i < 20 ->
      if anomaly
      then (i <= 10 -> 0 <= NewC.freq_at p i <= 4) /\
           (10 < i -> 0 <= NewC.freq_at p i <= 49)
      else (i < 5 -> 40 <= NewC.freq_at p i <= 59) /\
           (5 <= i -> 0 <= NewC.freq_at p i <= 4).
Proof.
  unfold NewC.gen_data.
  destruct (newc_gen_freqs_spec (Z.to_nat NewC.MAX_SYSCALLS) 0 anomaly s)
    as (fs & s' & E & Hlen & Hr).
  unfold bind. rewrite E. eexists _, _. split; [reflexivity|].
  cbn [NewC.freq NewC.is_anomaly]. split; [exact Hlen|].
  split; [reflexivity|].
  intros i Hi. unfold NewC.freq_at. cbn [NewC.freq].
  specialize (Hr (Z.to_nat i) ltac:(unfold NewC.MAX_SYSCALLS; lia)).
  replace (0 + Z.of_nat (Z.to_nat i)) with i in Hr by lia. exact Hr.
Qed.

(** ** Detection *)

Lemma count_outcome_spec (c : Hids.Confusion) (p : bool) (a : Z) :
  Hids.true_positive (Hids.count_outcome c p a)
  = Hids.true_positive c + (if p && (a =? 1) then 1 else 0) /\
  Hids.true_negative (Hids.count_outcome c p a)
  = Hids.true_negative c + (if negb p && (a =? 0) then 1 else 0) /\
  Hids.false_positive (Hids.count_outcome c p a)
  = Hids.false_positive c + (if p && (a =? 0) then 1 else 0) /\
  Hids.false_negative (Hids.count_outcome c p a)
  = Hids.false_negative c + (if negb p && (a =? 1) then 1 else 0).
Proof.
  unfold Hids.count_outcome.
  destruct (Z.eqb_spec a 1) as [E1|E1]; destruct (Z.eqb_spec a 0) as [E0|E0];
    try lia; destruct p; cbn; repeat split; lia.
Qed.

(** No process is labelled both 0 and 1. *)
Lemma label_counts_le (ps : list Hids.ProcessBehavior) :
  0 <= anomalous_count ps /\ 0 <= normal_count ps /\
  anomalous_count ps + normal_count ps <= Z.of_nat (length ps).
Proof.
  unfold anomalous_count, normal_count.
  induction ps as [|x rest IH]; [cbn; lia|].
  cbn [filter length].
  destruct (Z.eqb_spec (Hids.is_anomaly x) 1) as [E1|E1];
    destruct (Z.eqb_spec (Hids.is_anomaly x) 0) as [E0|E0];
    try lia; cbn [length]; lia.
Qed.

Lemma hids_detect_loop_spec (f : Hids.IsolationForest)
    (test : list Hids.ProcessBehavior) :
  (forall x, Hids.anomaly_score f x <> None) ->
  forall (c : Hids.Confusion),
  exists c',
    Hids.detect_loop f test c = Some c' /\
    Hids.true_positive c <= Hids.true_positive c' /\
    Hids.true_negative c <= Hids.true_negative c' /\
    Hids.false_positive c <= Hids.false_positive c' /\
    Hids.false_negative c <= Hids.false_negative c' /\
    Hids.true_positive c' + Hids.false_negative c'
    = Hids.true_positive c + Hids.false_negative c + anomalous_count test /\
    Hids.true_negative c' + Hids.false_positive c'
    = Hids.true_negative c + Hids.false_positive c + normal_count test /\
    Hids.true_positive c' + Hids.false_positive c'
    = Hids.true_positive c + Hids.false_positive c + alert_count f test.
Proof.
  intros Hdef. induction test as [|x rest IH]; intros c.
  - exists c. unfold anomalous_count, normal_count, alert_count. cbn.
    repeat split; lia.
  - cbn [Hids.detect_loop].
    destruct (Hids.anomaly_score f x) as [score|] eqn:Ex;
      [|exfalso; now apply (Hdef x)].
    destruct (IH (Hids.count_outcome c (Hids.predicted_anomaly score)
                    (Hids.is_anomaly x)))
      as (c' & E & H1 & H2 & H3 & H4 & H5 & H6 & H7).
    exists c'. split; [exact E|].
    destruct (count_outcome_spec c (Hids.predicted_anomaly score)
                (Hids.is_anomaly x)) as (Etp & Etn & Efp & Efn).
    rewrite Etp, Etn, Efp, Efn in *.
    unfold anomalous_count, normal_count, alert_count in *.
    cbn [filter length]. rewrite Ex.
    destruct (Hids.predicted_anomaly score);
      destruct (Z.eqb_spec (Hids.is_anomaly x) 1) as [E1|E1];
      destruct (Z.eqb_spec (Hids.is_anomaly x) 0) as [E0|E0];
      try (exfalso; lia);
      cbn [andb orb negb length] in *; repeat split; lia.
Qed.

Lemma hids_trained_score_defined (data : list Hids.ProcessBehavior) (s : rng)
    (f : Hids.IsolationForest) (s' : rng) (x : Hids.ProcessBehavior) :
  Hids.train_isolation_forest data s = Some (f, s') ->
  Hids.anomaly_score f x <> None.
Proof.
  intros Htrain. destruct (hids_train_inv _ _ _ _ Htrain) as (Hnt & _).
  rewrite hids_anomaly_score_eq by (rewrite Hnt; discriminate). discriminate.
Qed.

Lemma hids_detect_spec (data : list Hids.ProcessBehavior) (s : rng)
    (f : Hids.IsolationForest) (s' : rng)
    (test : list Hids.ProcessBehavior) :
  Hids.train_isolation_forest data s = Some (f, s') ->
  exists c,
    Hids.detect_intrusions f test = Some c /\
    0 <= Hids.true_positive c /\ 0 <= Hids.true_negative c /\
    0 <= Hids.false_positive c /\ 0 <= Hids.false_negative c /\
    Hids.true_positive c + Hids.false_negative c = anomalous_count test /\
    Hids.true_negative c + Hids.false_positive c = normal_count test /\
    Hids.true_positive c + Hids.false_positive c = alert_count f test.
Proof.
  intros Htrain. unfold Hids.detect_intrusions.
  destruct (hids_detect_loop_spec f test
              (fun x => hids_trained_score_defined _ _ _ _ x Htrain)
              (Hids.mkConfusion 0 0 0 0))
    as (c & E & H1 & H2 & H3 & H4 & H5 & H6 & H7).
  cbn [Hids.true_positive Hids.true_negative Hids.false_positive
       Hids.false_negative] in *.
  exists c. repeat split; try assumption; lia.
Qed.

(** On a trained forest [detect_intrusions] counts a test process at most
    once, and exactly once when its label is 0 or 1: the four counters are
    non-negative, true positives and false negatives add up to the number of
    processes labelled 1, true negatives and false positives to the number
    labelled 0, and true and false positives to the number of processes
    labelled 0 or 1 that score at or above the threshold.  A process with
    any other label is counted nowhere, so the four counters can add up to
    less than the size of the test set. *)
Theorem detect_intrusions_counts
    (data : list Hids.ProcessBehavior) (s : rng)
    (test : list Hids.ProcessBehavior) :
  exists f s' c,
    Hids.train_isolation_forest data s = Some (f, s') /\
    Hids.detect_intrusions f test = Some c /\
    0 <= Hids.true_positive c /\ 0 <= Hids.true_negative c /\
    0 <= Hids.false_positive c /\ 0 <= Hids.false_negative c /\
    Hids.true_positive c + Hids.false_negative c = anomalous_count test /\
    Hids.true_negative c + Hids.false_positive c = normal_count test /\
    Hids.true_positive c + Hids.false_positive c = alert_count f test /\
    Hids.true_positive c + Hids.true_negative c
    + Hids.false_positive c + Hids.false_negative c
    <= Z.of_nat (length test).
Proof.
  destruct (hids_train_spec data s) as (f & s' & Htrain & _).
  destruct (hids_detect_spec _ _ _ _ test Htrain)
    as (c & Hc & Htp & Htn & Hfp & Hfn & Han & Hno & Hal).
  exists f, s', c. pose proof (label_counts_le test).
  repeat split; try assumption; lia.
Qed.

(** A process labelled 2 that scores above the threshold is flagged in the
    report and counted in none of the four counters. *)
Lemma other_label_is_not_counted :
  Hids.count_outcome (Hids.mkConfusion 0 0 0 0) true 2
  = Hids.mkConfusion 0 0 0 0.
Proof. reflexivity. Qed.

Lemma ratio_in_unit (a b : Z) :
  0 <= a -> a <= b -> 0 < b -> (0 <= IZR a / IZR b <= 1)%R.
Proof.
  intros Ha Hab Hb.
  assert (HA : (0 <= IZR a)%R) by (apply IZR_le; exact Ha).
  assert (HAB : (IZR a <= IZR b)%R) by (apply IZR_le; exact Hab).
  assert (HB : (0 < IZR b)%R) by (apply IZR_lt; exact Hb).
  split.
  - apply Rmult_le_pos; [exact HA | apply Rlt_le, Rinv_0_lt_compat, HB].
  - apply Rmult_le_reg_r with (IZR b); [exact HB|].
    unfold Rdiv. rewrite Rmult_assoc, Rinv_l by lra. lra.
Qed.

(** The metrics that [detect_intrusions] computes for a trained forest.
    The accuracy has a value exactly when the test set is not empty (for an
    empty one the division is 0 by 0); precision is computed and printed
    exactly when a process labelled 0 or 1 was flagged, recall exactly when
    the test set holds a process labelled 1; each of the three ratios, which
    the function prints as percentages, lies in [[0, 1]]. *)
Theorem detection_metrics
    (data : list Hids.ProcessBehavior) (s : rng)
    (test : list Hids.ProcessBehavior) :
  exists f s' c,
    Hids.train_isolation_forest data s = Some (f, s') /\
    Hids.detect_intrusions f test = Some c /\
    (Hids.accuracy c (Z.of_nat (length test)) = None <-> test = []) /\
    (Hids.precision c = None <-> alert_count f test = 0) /\
    (Hids.recall c = None <-> anomalous_count test = 0) /\
    (forall x, Hids.accuracy c (Z.of_nat (length test)) = Some x ->
               (0 <= x <= 1)%R) /\
    (forall x, Hids.precision c = Some x -> (0 <= x <= 1)%R) /\
    (forall x, Hids.recall c = Some x -> (0 <= x <= 1)%R).
Proof.
  destruct (hids_train_spec data s) as (f & s' & Htrain & _).
  destruct (hids_detect_spec _ _ _ _ test Htrain)
    as (c & Hc & Htp & Htn & Hfp & Hfn & Han & Hno & Hal).
  exists f, s', c. split; [exact Htrain|]. split; [exact Hc|].
  pose proof (label_counts_le test) as Hcount.
  split; [|split; [|split; [|split; [|split]]]].
  - unfold Hids.accuracy, fdiv.
    destruct (Req_dec_T (IZR (Z.of_nat (length test))) 0) as [E|E].
    + apply eq_IZR_R0 in E. split; [|reflexivity].
      intros _. destruct test; [reflexivity | cbn in E; lia].
    + split; [discriminate|]. intros ->. exfalso. apply E. reflexivity.
  - unfold Hids.precision. rewrite Hal.
    assert (0 <= alert_count f test) by (unfold alert_count; lia).
    destruct (Z.gtb_spec (alert_count f test) 0); split;
      try discriminate; try reflexivity; lia.
  - unfold Hids.recall. rewrite Han.
    destruct (Z.gtb_spec (anomalous_count test) 0); split;
      try discriminate; try reflexivity; lia.
  - intros x. unfold Hids.accuracy, fdiv.
    destruct (Req_dec_T (IZR (Z.of_nat (length test))) 0) as [E|E];
      [discriminate|].
    intros Hx. inversion Hx; subst x. apply ratio_in_unit; try lia.
    destruct test; [exfalso; apply E; reflexivity | cbn; lia].
  - intros x. unfold Hids.precision.
    destruct (Z.gtb_spec (Hids.true_positive c + Hids.false_positive c) 0);
      [|discriminate].
    intros Hx. inversion Hx; subst x. apply ratio_in_unit; lia.
  - intros x. unfold Hids.recall.
    destruct (Z.gtb_spec (Hids.true_positive c + Hids.false_negative c) 0);
      [|discriminate].
    intros Hx. inversion Hx; subst x. apply ratio_in_unit; lia.
Qed.

Lemma half_is_below_threshold : Hids.predicted_anomaly 0.5 = false.
Proof.
  unfold Hids.predicted_anomaly, Hids.ANOMALY_THRESHOLD.
  destruct (Rle_dec 0.6 0.5) as [H|_]; [lra | reflexivity].
Qed.

(** A forest trained on vectors that all carry the same frequencies flags
    nothing: whatever the test set, [detect_intrusions] counts no positive,
    every test process labelled 1 is a false negative and every one
    labelled 0 a true negative. *)
Theorem identical_training_raises_no_alert
    (data : list Hids.ProcessBehavior) (s : rng)
    (f : Hids.IsolationForest) (s' : rng)
    (test : list Hids.ProcessBehavior) :
  (forall p q, In p data -> In q data ->
               Hids.syscall_freq p = Hids.syscall_freq q) ->
  Hids.train_isolation_forest data s = Some (f, s') ->
  exists c,
    Hids.detect_intrusions f test = Some c /\
    Hids.true_positive c = 0 /\ Hids.false_positive c = 0 /\
    Hids.false_negative c = anomalous_count test /\
    Hids.true_negative c = normal_count test.
Proof.
  intros Hsame Htrain.
  destruct (hids_detect_spec _ _ _ _ test Htrain)
    as (c & Hc & Htp & Htn & Hfp & Hfn & Han & Hno & Hal).
  exists c. split; [exact Hc|].
  assert (Halert : alert_count f test = 0).
  { unfold alert_count.
    assert (E : forall x,
      match Hids.anomaly_score f x with
      | Some score =>
          Hids.predicted_anomaly score
          && ((Hids.is_anomaly x =? 0) || (Hids.is_anomaly x =? 1))
      | None => false
      end = false).
    { intros x.
      destruct (hids_train_inv _ _ _ _ Htrain) as (Hnt & _ & Hlen & _).
      rewrite (hids_leaf_forest_score f x Hnt Hlen
                 (hids_identical_roots _ _ _ _ Hsame Htrain)).
      now rewrite half_is_below_threshold. }
    clear - E. induction test as [|x rest IH]; [reflexivity|].
    cbn [filter]. rewrite E. exact IH. }
  lia.
Qed.

Lemma identical_training_raises_no_alert_witness :
  exists c,
    Hids.detect_intrusions hids_leaf_forest [hids_flat 7] = Some c /\
    Hids.true_positive c = 0 /\ Hids.false_positive c = 0 /\
    Hids.false_negative c = anomalous_count [hids_flat 7] /\
    Hids.true_negative c = normal_count [hids_flat 7].
Proof.
  refine (identical_training_raises_no_alert hids_three_samples zero_rng
            hids_leaf_forest zero_rng [hids_flat 7] _ _).
  - intros p q Hp Hq. cbn in Hp, Hq.
    destruct Hp as [<-|[<-|[<-|[]]]]; destruct Hq as [<-|[<-|[<-|[]]]];
      reflexivity.
  - vm_compute. reflexivity.
Defined.

(** ** The two [main] functions *)

Lemma hids_generate_normal_total (s : rng) :
  exists pb s', Hids.generate_normal_behavior s = Some (pb, s') /\
                Hids.is_anomaly pb = 0.
Proof.
  unfold Hids.generate_normal_behavior.
  destruct (hids_normal_freqs_spec (Z.to_nat Hids.MAX_SYSCALLS) 0 0 s)
    as (fs & s' & E & _).
  unfold bind. rewrite E. eexists _, _. split; reflexivity.
Qed.

Lemma hids_generate_anomalous_total (s : rng) :
  exists pb s', Hids.generate_anomalous_behavior s = Some (pb, s') /\
                Hids.is_anomaly pb = 1.
Proof.
  unfold Hids.generate_anomalous_behavior.
  destruct (hids_anomalous_freqs_spec (Z.to_nat Hids.MAX_SYSCALLS) 0 0 s)
    as (fs & s' & E & _).
  unfold bind. rewrite E. eexists _, _. split; reflexivity.
Qed.

Lemma hids_gen_training_total (k : nat) :
  forall (s : rng),
    exists ps s', Hids.gen_training k s = Some (ps, s') /\ length ps = k.
Proof.
  induction k as [|k IH]; intros s.
  - exists [], s. split; reflexivity.
  - cbn [Hids.gen_training].
    destruct (hids_generate_normal_total s) as (pb & s1 & E & _).
    unfold bind at 1. rewrite E.
    destruct (IH s1) as (ps & s2 & Eps & Hlen).
    unfold bind at 1. rewrite Eps.
    eexists _, _. split; [reflexivity|]. cbn. now rewrite Hlen.
Qed.

Lemma hids_gen_tests_spec (k : nat) :
  forall (i : Z) (s : rng),
    exists ps s',
      Hids.gen_tests k i s = Some (ps, s') /\ length ps = k /\
      anomalous_count ps = Z.max 0 (i + Z.of_nat k - Z.max i 6) /\
      normal_count ps = Z.of_nat k - anomalous_count ps.
Proof.
  induction k as [|k IH]; intros i s.
  - exists [], s. split; [reflexivity|]. split; [reflexivity|].
    unfold anomalous_count, normal_count. cbn. lia.
  - cbn [Hids.gen_tests].
    assert (Hp : exists pb s1,
      (if i <? 6 then Hids.generate_normal_behavior
       else Hids.generate_anomalous_behavior) s = Some (pb, s1) /\
      Hids.is_anomaly pb = (if i <? 6 then 0 else 1)).
    { destruct (i <? 6);
        [apply hids_generate_normal_total
        | apply hids_generate_anomalous_total]. }
    destruct Hp as (pb & s1 & E & Hlabel).
    unfold bind at 1. rewrite E.
    destruct (IH (i + 1) s1) as (ps & s2 & Eps & Hlen & Hcount & Hnorm).
    unfold bind at 1. rewrite Eps.
    eexists _, _. split; [reflexivity|]. split; [cbn; now rewrite Hlen|].
    unfold anomalous_count, normal_count in *. cbn [filter]. rewrite Hlabel.
    destruct (Z.ltb_spec i 6); cbn [Z.eqb Pos.eqb length]; lia.
Qed.

(** [main] of the documented implementation always runs to its end:
    training and detection complete whatever the generator draws, and of the
    ten test processes the four anomalous ones are counted as true positives
    or false negatives and the six normal ones as true negatives or false
    positives. *)
Theorem hids_main_completes (s : rng) :
  exists c s',
    Hids.main s = Some (Some c, s') /\
    0 <= Hids.true_positive c /\ 0 <= Hids.true_negative c /\
    0 <= Hids.false_positive c /\ 0 <= Hids.false_negative c /\
    Hids.true_positive c + Hids.false_negative c = 4 /\
    Hids.true_negative c + Hids.false_positive c = 6.
Proof.
  unfold Hids.main.
  destruct (hids_gen_training_total 20 s) as (training & s1 & Etr & _).
  unfold bind at 1. rewrite Etr.
  destruct (hids_train_spec training s1) as (f & s2 & Htrain & _).
  unfold bind at 1. rewrite Htrain.
  destruct (hids_gen_tests_spec 10 0 s2)
    as (test & s3 & Etest & Hlen & Hcount & Hnorm).
  unfold bind at 1. rewrite Etest.
  destruct (hids_detect_spec _ _ _ _ test Htrain)
    as (c & Hc & Htp & Htn & Hfp & Hfn & Han & Hno & _).
  exists c, s3. rewrite Hc. split; [reflexivity|]. lia.
Qed.

Lemma newc_main_rows_spec (k : nat) :
  forall (i : Z) (forest : list NodePtr) (s : rng),
    exists rows s',
      NewC.main_rows k i forest s = Some (rows, s') /\
      length rows = k /\
      forall j, (j < k)%nat ->
        let row := nth j rows (NewC.mkRow None false false) in
        NewC.row_attack row = (i + Z.of_nat j >=? 6) /\
        NewC.row_alert row = NewC.alert (NewC.row_score row) /\
        exists p, NewC.is_anomaly p = NewC.row_attack row /\
                  length (NewC.freq p) = 20%nat /\
                  NewC.row_score row = NewC.main_score forest p /\
                  NewC.row_score row <> None.
Proof.
  induction k as [|k IH]; intros i forest s.
  - exists [], s. split; [reflexivity|]. split; [reflexivity|].
    intros j Hj. lia.
  - cbn [NewC.main_rows]. unfold NewC.gen_data at 1.
    destruct (newc_gen_freqs_total (Z.to_nat NewC.MAX_SYSCALLS) 0 (i >=? 6) s)
      as (fs & s1 & Efs & Hfs).
    unfold bind at 1. unfold bind at 1. rewrite Efs. unfold ret at 1.
    destruct (IH (i + 1) forest s1) as (rows & s2 & E & Hlen & Hr).
    unfold bind at 1. rewrite E.
    eexists _, _. split; [reflexivity|]. split; [cbn; now rewrite Hlen|].
    intros [|j] Hj; cbn [nth].
    + cbv zeta. cbn [NewC.row_attack NewC.row_alert NewC.row_score
                      NewC.is_anomaly].
      rewrite Z.add_0_r. split; [reflexivity|]. split; [reflexivity|].
      exists (NewC.mkProcess fs (i >=? 6)). split; [reflexivity|].
      split; [exact Hfs|]. split; [reflexivity|].
      rewrite newc_main_score_eq. discriminate.
    + specialize (Hr j ltac:(lia)).
      replace (i + Z.of_nat (S j)) with (i + 1 + Z.of_nat j) by lia. exact Hr.
Qed.

(** [main] of [new.c] always runs to its end and prints ten rows: row [j]
    is labelled ATTACK exactly from [j = 6] on, carries the score of a
    generated process of that label against the trained forest, a score that
    always has a value, and says ALERT exactly when that score is at least
    the threshold. *)
Theorem newc_main_completes (s : rng) :
  exists rows s',
    NewC.main s = Some (rows, s') /\
    length rows = 10%nat /\
    forall j, (j < 10)%nat ->
      let row := nth j rows (NewC.mkRow None false false) in
      NewC.row_attack row = (Z.of_nat j >=? 6) /\
      exists x, NewC.row_score row = Some x /\
                (NewC.row_alert row = true <-> (NewC.THRESHOLD <= x)%R).
Proof.
  unfold NewC.main.
  destruct (newc_main_training_spec s) as (train & forest & s1 & E & _).
  unfold bind. rewrite E. cbn [snd].
  destruct (newc_main_rows_spec 10 0 forest s1) as (rows & s2 & Er & Hlen & Hr).
  exists rows, s2. split; [exact Er|]. split; [exact Hlen|].
  intros j Hj. specialize (Hr j Hj). cbv zeta in *.
  destruct Hr as (Hattack & Halert & p & _ & _ & _ & Hdef).
  rewrite Z.add_0_l in Hattack. split; [exact Hattack|].
  destruct (NewC.row_score (nth j rows (NewC.mkRow None false false)))
    as [x|] eqn:Ex; [|contradiction].
  exists x. split; [reflexivity|]. rewrite Halert. cbn [NewC.alert].
  destruct (Rle_dec NewC.THRESHOLD x); split; intros H;
    try reflexivity; try assumption; try discriminate; contradiction.
Qed.

(** ** The toy program *)

Lemma toy_build_step (fuel : nat) (n depth : Z) :
  Toy.build_tree (S fuel) n depth =
  if (depth >=? Toy.MAX_DEPTH) || (n <=? 1) then
    ret (Toy.Node 0 0 true Toy.NULL Toy.NULL)
  else
    r1 <- rand ;;
    r2 <- rand ;;
    l <- Toy.build_tree fuel (Z.quot n 2) (depth + 1) ;;
    r <- Toy.build_tree fuel (n - Z.quot n 2) (depth + 1) ;;
    ret (Toy.Node (Z.rem r1 Toy.MAX_SYSCALLS) (Z.rem r2 100) false l r).
Proof. reflexivity. Qed.

Lemma toy_build_total (fuel : nat) :
  forall (n depth : Z) (s : rng),
    (Z.to_nat (Toy.MAX_DEPTH - depth) < fuel)%nat ->
    exists t s', Toy.build_tree fuel n depth s = Some (t, s').
Proof.
  induction fuel as [|fuel IH]; intros n depth s Hf; [lia|].
  rewrite toy_build_step.
  destruct ((depth >=? Toy.MAX_DEPTH) || (n <=? 1)) eqn:Estop.
  - eexists _, _. reflexivity.
  - apply stop_test_false in Estop as [Hd Hn].
    assert (Hf' : (Z.to_nat (Toy.MAX_DEPTH - (depth + 1)) < fuel)%nat) by lia.
    unfold bind at 1. rewrite newc_rand_total.
    unfold bind at 1. rewrite newc_rand_total.
    destruct (IH (Z.quot n 2) (depth + 1) (fun i => s (S (S i))) Hf')
      as (l & s3 & El).
    unfold bind at 1. rewrite El.
    destruct (IH (n - Z.quot n 2) (depth + 1) s3 Hf') as (r & s4 & Er).
    unfold bind at 1. rewrite Er.
    eexists _, _. reflexivity.
Qed.

Lemma toy_build_full (fuel : nat) :
  forall (n depth : Z) (s : rng) (t : Toy.NodePtr) (s' : rng),
    Toy.build_tree fuel n depth s = Some (t, s') -> Toy.full t.
Proof.
  induction fuel as [|fuel IH]; intros n depth s t s' H; [discriminate|].
  rewrite toy_build_step in H.
  destruct ((depth >=? Toy.MAX_DEPTH) || (n <=? 1)).
  - apply ret_Some in H. inversion H; subst. cbn. auto.
  - apply bind_Some in H as (r1 & s1 & Hr1 & H).
    apply bind_Some in H as (r2 & s2 & Hr2 & H).
    apply bind_Some in H as (l & s3 & Hl & H).
    apply bind_Some in H as (r & s4 & Hr & H).
    apply ret_Some in H. inversion H; subst t s'. clear H.
    inversion Hr1; subst r1 s1. inversion Hr2; subst r2 s2.
    cbn [Toy.full].
    split; [apply Z.rem_bound_pos; [apply N2Z.is_nonneg | reflexivity]|].
    split; [apply Z.rem_bound_pos; [apply N2Z.is_nonneg | reflexivity]|].
    split; [eapply IH, Hl | eapply IH, Hr].
Qed.

Lemma toy_full_path (t : Toy.NodePtr) (p : Toy.Process) :
  forall (d : Z),
    Toy.full t ->
    exists r, Toy.get_path_length t p d = Some r /\
              d <= r /\ (d <= Toy.MAX_DEPTH -> r <= Toy.MAX_DEPTH).
Proof.
  induction t as [|a v lf l IHl r IHr]; intros d Hfull; [destruct Hfull|].
  cbn [Toy.get_path_length].
  destruct (lf || (d >=? Toy.MAX_DEPTH)) eqn:E.
  - exists d. split; [reflexivity|]. lia.
  - apply orb_false_iff in E as [-> Hd]. rewrite Z.geb_leb in Hd.
    apply Z.leb_gt in Hd.
    cbn [Toy.full] in Hfull. destruct Hfull as (_ & _ & Hl & Hr).
    destruct (Toy.freq_at p a <? v).
    + destruct (IHl (d + 1) Hl) as (x & Ex & Hx1 & Hx2).
      exists x. split; [exact Ex|]. lia.
    + destruct (IHr (d + 1) Hr) as (x & Ex & Hx1 & Hx2).
      exists x. split; [exact Ex|]. lia.
Qed.

(** The toy builder terminates with a tree in which every internal node has
    both children and splits on an attribute in [[0, 5)] at a value in
    [[0, 100)]; on such a tree [get_path_length] never reads through a null
    pointer, and from a depth within [MAX_DEPTH] it returns a length between
    that depth and [MAX_DEPTH]. *)
Theorem toy_tree_is_full (n depth : Z) (s : rng) :
  exists t s',
    Toy.build_tree (Toy.build_fuel depth) n depth s = Some (t, s') /\
    Toy.full t /\
    forall (p : Toy.Process) (d : Z),
    exists r, Toy.get_path_length t p d = Some r /\
              d <= r /\ (d <= Toy.MAX_DEPTH -> r <= Toy.MAX_DEPTH).
Proof.
  destruct (toy_build_total (Toy.build_fuel depth) n depth s)
    as (t & s' & E); [unfold Toy.build_fuel; lia|].
  pose proof (toy_build_full _ _ _ _ _ _ E) as Hfull.
  exists t, s'. split; [exact E|]. split; [exact Hfull|].
  intros p d. now apply toy_full_path.
Qed.

Lemma pow2_succ (k : nat) : 2 ^ Z.of_nat (S k) = 2 * 2 ^ Z.of_nat k.
Proof. rewrite Nat2Z.inj_succ, Z.pow_succ_r by lia. reflexivity. Qed.

Lemma pow2_pos (k : nat) : 0 < 2 ^ Z.of_nat k.
Proof. apply Z.pow_pos_nonneg; lia. Qed.

Lemma toy_build_balanced (fuel : nat) :
  forall (klo khi : nat) (n depth : Z) (s : rng) (t : Toy.NodePtr) (s' : rng),
    Toy.build_tree fuel n depth s = Some (t, s') ->
    2 ^ Z.of_nat klo <= n <= 2 ^ Z.of_nat khi ->
    depth + Z.of_nat khi <= Toy.MAX_DEPTH ->
    Toy.leaves t = n /\
    forall p, exists r,
      Toy.get_path_length t p depth = Some r /\
      depth + Z.of_nat klo <= r <= depth + Z.of_nat khi.
Proof.
  induction fuel as [|fuel IH]; intros klo khi n depth s t s' H Hn Hd;
    [discriminate|].
  rewrite toy_build_step in H.
  pose proof (pow2_pos klo) as Hlo. pose proof (pow2_pos khi) as Hhi.
  destruct ((depth >=? Toy.MAX_DEPTH) || (n <=? 1)) eqn:Estop.
  - apply ret_Some in H. inversion H; subst t s'. clear H.
    apply stop_test in Estop.
    assert (Hn1 : n = 1).
    { destruct Estop as [Hmax|Hle]; [|lia].
      assert (khi = O) by lia. subst khi. cbn in Hn. lia. }
    assert (Hk : klo = O).
    { destruct klo; [reflexivity|]. rewrite pow2_succ in Hn.
      pose proof (pow2_pos klo). lia. }
    subst klo. split; [cbn; lia|].
    intros p. exists depth. cbn. split; [reflexivity|]. lia.
  - apply stop_test_false in Estop as [Hdepth Hn2].
    apply bind_Some in H as (r1 & s1 & _ & H).
    apply bind_Some in H as (r2 & s2 & _ & H).
    apply bind_Some in H as (l & s3 & Hl & H).
    apply bind_Some in H as (r & s4 & Hr & H).
    apply ret_Some in H. inversion H; subst t s'. clear H.
    destruct khi as [|khi]; [cbn in Hn; lia|].
    rewrite pow2_succ in Hn.
    assert (Hq : Z.quot n 2 = n / 2) by (apply Z.quot_div_nonneg; lia).
    assert (Hlow : 2 ^ Z.of_nat (Nat.pred klo) <= Z.quot n 2 /\
                   2 ^ Z.of_nat (Nat.pred klo) <= n - Z.quot n 2).
    { rewrite Hq. destruct klo as [|klo]; cbn [Nat.pred].
      - change (2 ^ Z.of_nat 0) with 1 in *. Z.div_mod_to_equations. lia.
      - rewrite pow2_succ in Hn. Z.div_mod_to_equations. lia. }
    assert (Hhigh : Z.quot n 2 <= 2 ^ Z.of_nat khi /\
                    n - Z.quot n 2 <= 2 ^ Z.of_nat khi).
    { rewrite Hq. Z.div_mod_to_equations. lia. }
    destruct (IH (Nat.pred klo) khi _ _ _ _ _ Hl ltac:(lia) ltac:(lia))
      as (Hll & Hpl).
    destruct (IH (Nat.pred klo) khi _ _ _ _ _ Hr ltac:(lia) ltac:(lia))
      as (Hlr & Hpr).
    split; [cbn [Toy.leaves]; lia|].
    intros p. cbn [Toy.get_path_length].
    assert (E : (depth >=? Toy.MAX_DEPTH) = false)
      by (rewrite Z.geb_leb; apply Z.leb_gt; lia).
    rewrite E. cbn [orb].
    destruct (Toy.freq_at p _ <? _).
    + destruct (Hpl p) as (x & Ex & Hx). exists x. split; [exact Ex|]. lia.
    + destruct (Hpr p) as (x & Ex & Hx). exists x. split; [exact Ex|]. lia.
Qed.

(** When the count [n] lies between two powers of two, [2^klo] and [2^khi],
    and the depth limit leaves room for [khi] levels, the toy tree has one
    leaf per sample and every path length lies between [depth + klo] and
    [depth + khi], whatever the generator draws and whatever the process. *)
Theorem toy_tree_is_balanced (klo khi : nat) (n depth : Z) (s : rng) :
  2 ^ Z.of_nat klo <= n <= 2 ^ Z.of_nat khi ->
  depth + Z.of_nat khi <= Toy.MAX_DEPTH ->
  exists t s',
    Toy.build_tree (Toy.build_fuel depth) n depth s = Some (t, s') /\
    Toy.leaves t = n /\
    forall p, exists r,
      Toy.get_path_length t p depth = Some r /\
      depth + Z.of_nat klo <= r <= depth + Z.of_nat khi.
Proof.
  intros Hn Hd.
  destruct (toy_build_total (Toy.build_fuel depth) n depth s)
    as (t & s' & E); [unfold Toy.build_fuel; lia|].
  exists t, s'. split; [exact E|].
  eapply toy_build_balanced; [exact E | exact Hn | exact Hd].
Qed.

Lemma toy_tree_is_balanced_witness :
  exists t s',
    Toy.build_tree (Toy.build_fuel 0) 10 0 zero_rng = Some (t, s') /\
    Toy.leaves t = 10 /\
    forall p, exists r,
      Toy.get_path_length t p 0 = Some r /\
      0 + Z.of_nat 3 <= r <= 0 + Z.of_nat 4.
Proof.
  apply (toy_tree_is_balanced 3 4 10 0 zero_rng).
  - cbn. lia.
  - unfold Toy.MAX_DEPTH. cbn. lia.
Defined.

(** ** What training hands to the builder *)

Lemma newc_draw_idx_range (k : nat) :
  forall (n_train : Z) (s : rng) (idx : list Z) (s' : rng),
    1 <= n_train ->
    NewC.draw_idx k n_train s = Some (idx, s') ->
    length idx = k /\ forall i, In i idx -> 0 <= i < n_train.
Proof.
  induction k as [|k IH]; intros n_train s idx s' Hn H.
  - apply ret_Some in H. inversion H; subst. split; [reflexivity|].
    intros i [].
  - cbn [NewC.draw_idx] in H.
    apply bind_Some in H as (r & s1 & Hr & H).
    apply bind_Some in H as (rest & s2 & Hrest & H).
    apply ret_Some in H. inversion H; subst.
    inversion Hr; subst r s1.
    pose proof (Z.rem_bound_pos (Z.of_N (s O)) n_train
                  (N2Z.is_nonneg _) ltac:(lia)) as Hb.
    destruct (IH _ _ _ _ Hn Hrest) as (Hlen & Hin).
    split; [cbn; now rewrite Hlen|].
    intros i [<-|Hi]; [exact Hb | now apply Hin].
Qed.

Lemma newc_main_forest_calls (t : nat) :
  forall (train : list NewC.Process) (s : rng) (forest : list NodePtr)
         (s' : rng),
    1 <= Z.of_nat (length train) ->
    NewC.main_forest t train s = Some (forest, s') ->
    Forall (fun rt =>
              exists idx s1 s2,
                Z.of_nat (length idx) = NewC.SUBSAMPLE_SIZE /\
                (forall i, In i idx -> 0 <= i < Z.of_nat (length train)) /\
                NewC.build_tree (NewC.build_fuel 0) train idx 0 s1
                = Some (rt, s2)) forest.
Proof.
  induction t as [|t IH]; intros train s forest s' Hn H.
  - apply ret_Some in H. inversion H; subst. constructor.
  - cbn [NewC.main_forest] in H.
    apply bind_Some in H as (idx & s1 & Hidx & H).
    apply bind_Some in H as (rt & s2 & Hrt & H).
    apply bind_Some in H as (rest & s3 & Hrest & H).
    apply ret_Some in H. inversion H; subst forest s'. clear H.
    constructor; [|eapply IH; [exact Hn | exact Hrest]].
    destruct (newc_draw_idx_range _ _ _ _ _ Hn Hidx) as (Hlen & Hin).
    exists idx, s1, s2. split; [rewrite Hlen; reflexivity|].
    split; [exact Hin | exact Hrt].
Qed.

(** Training always completes and hands the builder only positions of the
    training data.  The documented trainer returns [NUM_TREES] trees under
    [MAX_TREE_DEPTH], with [subsample_size = min(SUBSAMPLE_SIZE, n)]; [main]
    of [new.c] returns [NUM_TREES] roots for its twenty processes.  Each root
    is what the builder returns at depth 0 for a subsample of that size whose
    indices, drawn with replacement, all lie within the training data; it
    records the subsample size and is at most eleven nodes high. *)
Theorem training_builds_the_forest
    (data : list Hids.ProcessBehavior) (s : rng) :
  (exists f s',
      Hids.train_isolation_forest data s = Some (f, s') /\
      Hids.num_trees f = Hids.NUM_TREES /\
      length (Hids.trees f) = Z.to_nat Hids.NUM_TREES /\
      Hids.subsample_size f
      = Z.min Hids.SUBSAMPLE_SIZE (Z.of_nat (length data)) /\
      Forall (fun tr =>
                Hids.max_depth tr = Hids.MAX_TREE_DEPTH /\
                node_size (Hids.root tr) = Hids.subsample_size f /\
                (height (Hids.root tr) <= 11)%nat /\
                exists idx s1 s2,
                  Z.of_nat (length idx) = Hids.subsample_size f /\
                  (forall i, In i idx -> 0 <= i < Z.of_nat (length data)) /\
                  Hids.build_isolation_tree
                    (Hids.build_fuel 0 Hids.MAX_TREE_DEPTH) data idx 0
                    Hids.MAX_TREE_DEPTH s1 = Some (Hids.root tr, s2))
             (Hids.trees f)) /\
  (exists train forest s',
      NewC.main_training s = Some ((train, forest), s') /\
      length train = 20%nat /\
      length forest = Z.to_nat NewC.NUM_TREES /\
      Forall (fun rt =>
                node_size rt = NewC.SUBSAMPLE_SIZE /\
                (height rt <= 11)%nat /\
                exists idx s1 s2,
                  Z.of_nat (length idx) = NewC.SUBSAMPLE_SIZE /\
                  (forall i, In i idx -> 0 <= i < 20) /\
                  NewC.build_tree (NewC.build_fuel 0) train idx 0 s1
                  = Some (rt, s2))
             forest).
Proof.
  split.
  - destruct (hids_train_spec data s) as (f & s' & E & Hnt & Hss & Hlen & Hall).
    exists f, s'. split; [exact E|]. split; [exact Hnt|].
    split; [exact Hlen|]. split; [exact Hss|].
    pose proof (hids_train_calls _ _ _ _ E) as Hcalls.
    rewrite Forall_forall in *. intros tr Hin.
    destruct (Hall tr Hin) as (Hmax & idx & Hidx & Hb).
    split; [exact Hmax|].
    split; [rewrite (built_size _ _ _ _ _ Hb); exact Hidx|].
    split; [apply (built_height _ _ _ _ _ Hb) | apply (Hcalls tr Hin)].
  - unfold NewC.main_training.
    destruct (newc_gen_train_total 20 s) as (train & s1 & Etrain & Hlen).
    unfold bind at 1. rewrite Etrain.
    destruct (newc_main_forest_spec (Z.to_nat NewC.NUM_TREES) train s1)
      as (forest & s2 & Ef & Hf & Hall).
    unfold bind at 1. rewrite Ef.
    exists train, forest, s2. split; [reflexivity|]. split; [exact Hlen|].
    split; [exact Hf|].
    pose proof (newc_main_forest_calls _ _ _ _ _
                  ltac:(rewrite Hlen; cbn; lia) Ef) as Hcalls.
    rewrite Forall_forall in *. intros rt Hin.
    destruct (Hall rt Hin) as (idx & Hidx & Hb).
    split; [rewrite (built_size _ _ _ _ _ Hb); exact Hidx|].
    split; [apply (built_height _ _ _ _ _ Hb)|].
    destruct (Hcalls rt Hin) as (idx' & s3 & s4 & H1 & H2 & H3).
    exists idx', s3, s4. split; [exact H1|]. split; [|exact H3].
    intros i Hi. specialize (H2 i Hi). rewrite Hlen in H2. cbn in H2. lia.
Qed.

(** ** Where a walk of [get_path] ends, and the range of its score *)

Lemma newc_path_ends (val : Z -> Z -> Z) (maxd : Z) (t : NodePtr)
    (p : NewC.Process) :
  forall (d : Z) (idx : list Z) (d0 : Z),
    built val maxd d idx t ->
    exists (k : nat) (sz : Z),
      (k <= Z.to_nat (maxd - d))%nat /\
      0 <= sz <= Z.of_nat (length idx) /\
      NewC.get_path t p d0 = (IZR (d0 + Z.of_nat k) + NewC.c_factor sz)%R.
Proof.
  induction t as [|lf a v l IHl r IHr n]; intros d idx d0 Hb; [destruct Hb|].
  destruct lf.
  - exists O, n. cbn [NewC.get_path]. destruct Hb as (Hn & _).
    split; [lia|]. split; [lia|].
    replace (d0 + Z.of_nat 0) with d0 by lia. reflexivity.
  - pose proof (split_indices_length (val a) v idx) as Hlen.
    cbn [built] in Hb. destruct Hb as (Hn & Hd & Hn1 & _ & Hl & Hr).
    cbn [NewC.get_path].
    assert (Hchild : forall c side,
      (forall d0', match c with
                   | NULL => True
                   | Node _ _ _ _ _ _ =>
                       built val maxd (d + 1) side c ->
                       exists (k : nat) (sz : Z),
                         (k <= Z.to_nat (maxd - (d + 1)))%nat /\
                         0 <= sz <= Z.of_nat (length side) /\
                         NewC.get_path c p d0'
                         = (IZR (d0' + Z.of_nat k) + NewC.c_factor sz)%R
                   end) ->
      match c with
      | NULL => side = []
      | Node _ _ _ _ _ _ => side <> [] /\ built val maxd (d + 1) side c
      end ->
      (length side <= length idx)%nat ->
      exists (k : nat) (sz : Z),
        (k <= Z.to_nat (maxd - d))%nat /\
        0 <= sz <= Z.of_nat (length idx) /\
        NewC.get_path c p (d0 + 1)
        = (IZR (d0 + Z.of_nat k) + NewC.c_factor sz)%R).
    { intros c side IHc Hc Hside. destruct c as [|lf' a' v' l' r' n'].
      - exists 1%nat, 0. split; [lia|]. split; [lia|].
        cbn [NewC.get_path]. reflexivity.
      - destruct Hc as [_ Hc].
        destruct (IHc (d0 + 1) Hc) as (k & sz & Hk & Hsz & Hp).
        exists (S k), sz. split; [lia|]. split; [lia|].
        rewrite Hp. replace (d0 + 1 + Z.of_nat k)
          with (d0 + Z.of_nat (S k)) by lia. reflexivity. }
    destruct (NewC.freq_at p a <? v).
    + apply (Hchild l (fst (split_indices (val a) v idx))); [|exact Hl|lia].
      intros d0'. destruct l; [exact I|]. intros Hb'. eapply IHl, Hb'.
    + apply (Hchild r (snd (split_indices (val a) v idx))); [|exact Hr|lia].
      intros d0'. destruct r; [exact I|]. intros Hb'. eapply IHr, Hb'.
Qed.

Lemma newc_c_factor_le (k n : Z) :
  2 <= n -> k <= n -> (NewC.c_factor k <= NewC.c_factor n)%R.
Proof.
  intros Hn Hk. pose proof (newc_c_factor_pos n Hn) as Hpos.
  destruct (Z.le_gt_cases k 1) as [H|H].
  - rewrite (newc_c_factor_le_1 k H). lra.
  - rewrite !newc_c_factor_ge_2 by lia. apply c_closed_form_le; lia.
Qed.

(** In [new.c], for the forest that [main] trains: every path length lies
    between 0 and [MAX_DEPTH + c], and every score between
    [2^(-(MAX_DEPTH + c) / c)] and 1, where [c] is
    [c_factor(SUBSAMPLE_SIZE)]. *)
Theorem newc_score_range (s : rng) :
  exists train forest s',
    NewC.main_training s = Some ((train, forest), s') /\
    forall (p : NewC.Process),
      let c := NewC.c_factor NewC.SUBSAMPLE_SIZE in
      Forall (fun rt =>
                (0 <= NewC.get_path rt p 0 <= IZR NewC.MAX_DEPTH + c)%R)
             forest /\
      exists x, NewC.main_score forest p = Some x /\
                (Rpower 2 (- (IZR NewC.MAX_DEPTH + c) / c) <= x <= 1)%R.
Proof.
  destruct (newc_main_training_spec s)
    as (train & forest & s' & E & _ & Hlen & Hall).
  exists train, forest, s'. split; [exact E|]. intros p c.
  assert (Hc : (0 < c)%R)
    by (apply newc_c_factor_pos; unfold NewC.SUBSAMPLE_SIZE; lia).
  assert (Hpaths : Forall (fun rt =>
            (0 <= NewC.get_path rt p 0 <= IZR NewC.MAX_DEPTH + c)%R) forest).
  { eapply Forall_impl; [|exact Hall]. intros rt (idx & Hidx & Hb). split.
    - pose proof (newc_get_path_lower rt p 0). simpl in *. lra.
    - destruct (newc_path_ends _ _ _ p _ _ 0 Hb) as (k & sz & Hk & Hsz & Hp).
      rewrite Hp.
      assert (Hkd : (IZR (0 + Z.of_nat k) <= IZR NewC.MAX_DEPTH)%R).
      { apply IZR_le. unfold NewC.MAX_DEPTH in *. lia. }
      pose proof (newc_c_factor_le sz NewC.SUBSAMPLE_SIZE
                    ltac:(unfold NewC.SUBSAMPLE_SIZE; lia) ltac:(lia)).
      fold c in H. lra. }
  split; [exact Hpaths|].
  rewrite newc_main_score_eq. fold c. eexists. split; [reflexivity|].
  assert (Hfirst : firstn (Z.to_nat NewC.NUM_TREES) forest = forest)
    by (apply firstn_all2; rewrite Hlen; apply Nat.le_refl).
  assert (Hlo : (0 <= NewC.sum_paths forest p)%R).
  { unfold NewC.sum_paths.
    apply (sum_fold_lower (fun rt => NewC.get_path rt p 0)).
    apply Forall_forall. intros rt Hin. apply in_firstn in Hin.
    rewrite Forall_forall in Hpaths. apply (Hpaths rt Hin). }
  assert (Hhi : (NewC.sum_paths forest p
                 <= 10 * (IZR NewC.MAX_DEPTH + c))%R).
  { unfold NewC.sum_paths. eapply Rle_trans.
    - apply (sum_fold_upper (fun rt => NewC.get_path rt p 0)
               (IZR NewC.MAX_DEPTH + c)).
      rewrite Hfirst. eapply Forall_impl; [|exact Hpaths].
      intros rt Hrt. apply Hrt.
    - rewrite Hfirst, Hlen. change (Z.to_nat NewC.NUM_TREES) with 10%nat.
      rewrite INR_IZR_INZ. simpl Z.of_nat. lra. }
  unfold NewC.NUM_TREES. split.
  - apply Rle_Rpower; [lra|].
    apply Rmult_le_reg_r with c; [exact Hc|].
    unfold Rdiv. rewrite !Rmult_assoc, Rinv_l by lra. lra.
  - apply Rpower_2_nonpos.
    apply Rmult_le_reg_r with c; [exact Hc|].
    unfold Rdiv. rewrite !Rmult_assoc, Rinv_l by lra. lra.
Qed.
